(** * Stang: a shallow embedding of the evaluator and of the parser's tables

    The development follows the Go sources of the interpreter:
    - [ast] (nodes and their canonical rendering),
    - [token] and [parser] (token types, precedence levels and the
      precedence table),
    - [evaluator] (objects, scopes, errors, builtins and [Eval]).

    Go values that are pointers ([*Integer], [*Array], [*Scope], ...) are
    addresses into an explicit store, so that in-place mutation and aliasing
    are visible.  A nil interface value is [None].  A Go run-time panic is an
    outcome of its own, distinct from an [Error] object of the language. *)

From Stdlib Require Import ZArith Ascii String Floats.PrimFloat Floats.SpecFloat Floats.FloatOps.
From stdpp Require Import gmap strings list pretty.

Open Scope string_scope.
Open Scope Z_scope.

(** ** Machine integers and floats *)

(** [int64] arithmetic wraps around (two's complement). *)
Definition wrap64 (z : Z) : Z := (z + 2 ^ 63) mod 2 ^ 64 - 2 ^ 63.

(** [uint64(v)] of an [int64]. *)
Definition uint64 (z : Z) : Z := z mod 2 ^ 64.

(** [float64(v)] of an [int64]: rounded to nearest, ties to even. *)
Definition float64 (z : Z) : float :=
  SF2Prim (binary_normalize prec emax z 0 false).

(** The integral part of a finite float, toward zero; [None] for NaN and the
    infinities. *)
Definition float_trunc (f : float) : option Z :=
  match Prim2SF f with
  | S754_zero _ => Some 0
  | S754_finite s m e =>
      let a := if 0 <=? e then Z.pos m * 2 ^ e else Z.pos m / 2 ^ (- e) in
      Some (if s then - a else a)
  | S754_infinity _ | S754_nan => None
  end.

(** Go's [x == 0] on a [float64] (true for both zeros, false for NaN). *)
Definition float_is_zero (f : float) : bool := PrimFloat.eqb f PrimFloat.zero.

Definition float_one : float := float64 1.

(** [string(b)] of a byte: the UTF-8 encoding of the code point [b]. *)
Definition string_of_byte (b : ascii) : string :=
  let n := N_of_ascii b in
  if (n <? 128)%N then String b EmptyString
  else
    String (ascii_of_N (192 + n / 64))
      (String (ascii_of_N (128 + n mod 64)) EmptyString).

(** ** What the evaluator takes from Go's runtime and standard library

    These functions are not part of the repository.  The embedding takes
    them as parameters; no property proved below depends on what they
    compute. *)
Class GoRuntime := {
  (** [strconv.FormatFloat(f, 'f', -1, 64)] *)
  strconv_FormatFloat : float -> string;
  (** [strconv.ParseInt(s, 10, 64)]; [None] when it returns an error *)
  strconv_ParseInt : string -> option Z;
  (** [strconv.Atoi]; [None] when it returns an error *)
  strconv_Atoi : string -> option Z;
  (** [strconv.ParseFloat(s, 64)]; [None] when it returns an error *)
  strconv_ParseFloat : string -> option float;
  strings_ToLower : string -> string;
  strings_ToUpper : string -> string;
  strings_Split : string -> string -> list string;
  (** [math.Mod] *)
  math_Mod : float -> float -> float;
  (** [time.Now().Format("2006-01-02 15:04:05")], read at a given tick *)
  time_Now_Format : nat -> string;
  (** the capacity [append] chooses when it has to reallocate, from the old
      capacity and the needed length *)
  growslice : nat -> nat -> nat;
  (** the order in which a [range] over a map visits its entries *)
  map_range : forall A : Type, list A -> list A;
  (** the result of [int64(f)] when [f] is out of range (the language leaves
      it to the implementation) *)
  int64_overflow : float -> Z;
}.

(** ** package token *)

Module token.

Definition TokenType := string.

Record Position := { Offset : Z; Line : Z; Col : Z }.

Record Token := { Type_ : TokenType; Literal : string; Pos : Position }.

Definition ILLEGAL : TokenType := "ILLEGAL".
Definition EOF : TokenType := "EOF".
Definition IDENT : TokenType := "IDENT".
Definition INT : TokenType := "INT".
Definition FLOAT : TokenType := "FLOAT".
Definition EQ : TokenType := "==".
Definition NEQ : TokenType := "!=".
Definition ASSIGN : TokenType := "=".
Definition PLUS : TokenType := "+".
Definition PLUS_A : TokenType := "+=".
Definition INCR : TokenType := "++".
Definition MINUS : TokenType := "-".
Definition MINUS_A : TokenType := "-=".
Definition DECR : TokenType := "--".
Definition BANG : TokenType := "!".
Definition ASTERISK : TokenType := "*".
Definition ASTERISK_A : TokenType := "*=".
Definition SLASH : TokenType := "/".
Definition SLASH_A : TokenType := "/=".
Definition MOD : TokenType := "%".
Definition AND : TokenType := "&&".
Definition OR : TokenType := "||".
Definition LT : TokenType := "<".
Definition GT : TokenType := ">".
Definition LTE : TokenType := "<=".
Definition GTE : TokenType := ">=".
Definition COMMA : TokenType := ",".
Definition SEMICOLON : TokenType := ";".
Definition LPAREN : TokenType := "(".
Definition RPAREN : TokenType := ")".
Definition LBRACE : TokenType := "{".
Definition RBRACE : TokenType := "}".
Definition LBRACKET : TokenType := "[".
Definition RBRACKET : TokenType := "]".
Definition COLON : TokenType := ":".
Definition DOT : TokenType := ".".
Definition FUNCTION : TokenType := "FUNCTION".
Definition LET : TokenType := "LET".
Definition DELETE : TokenType := "DELETE".
Definition TRUE : TokenType := "TRUE".
Definition FALSE : TokenType := "FALSE".
Definition IF : TokenType := "IF".
Definition ELSE : TokenType := "ELSE".
Definition RETURN : TokenType := "RETURN".
Definition STRING : TokenType := "STRING".
Definition TYPEOF : TokenType := "TYPEOF".
Definition WHILE : TokenType := "WHILE".
Definition FOR : TokenType := "FOR".
Definition BREAK : TokenType := "BREAK".
Definition CONTINUE : TokenType := "CONTINUE".
Definition NULL : TokenType := "NULL".

Definition keywords : gmap string TokenType :=
  list_to_map
    [ ("function", FUNCTION); ("let", LET); ("delete", DELETE);
      ("true", TRUE); ("false", FALSE); ("if", IF); ("else", ELSE);
      ("return", RETURN); ("typeof", TYPEOF); ("while", WHILE);
      ("break", BREAK); ("for", FOR); ("continue", CONTINUE);
      ("null", NULL) ].

Definition noPos : Position := {| Offset := 0; Line := 0; Col := 0 |}.

Definition NewToken (typ : TokenType) (ch : ascii) : Token :=
  {| Type_ := typ; Literal := string_of_byte ch; Pos := noPos |}.

Definition IdentOrKeyword (ident : string) : TokenType :=
  match keywords !! ident with
  | Some tok => tok
  | None => IDENT
  end.

End token.

(** ** package lexer *)

Module lexer.

Import token.

Record Lexer := {
  input : string;
  position : nat;      (* current position in input (points to ch) *)
  readPosition : nat;  (* next position after ch *)
  ch : ascii;          (* current character; the zero byte past the end *)
  line : Z;
  col : Z;
}.

Definition byte (n : nat) : ascii := ascii_of_nat n.

Definition NUL : ascii := byte 0.
Definition LF : ascii := byte 10.
Definition quote1 : ascii := byte 39.
Definition quote2 : ascii := byte 34.

Definition byte_eq (a b : ascii) : bool := Ascii.eqb a b.

Definition byte_le (a b : ascii) : bool := (nat_of_ascii a <=? nat_of_ascii b)%nat.

Definition readChar (l : Lexer) : Lexer :=
  let '(c, ln, cl) :=
    match String.get (readPosition l) (input l) with
    | None => (NUL, line l, col l)
    | Some c => if byte_eq c LF then (c, line l + 1, 1) else (c, line l, col l + 1)
    end in
  {| input := input l; position := readPosition l;
     readPosition := S (readPosition l); ch := c; line := ln; col := cl |}.

Definition New (inp : string) : Lexer :=
  readChar {| input := inp; position := 0; readPosition := 0; ch := NUL;
              line := 1; col := 1 |}.

Definition peekChar (l : Lexer) : ascii :=
  match String.get (readPosition l) (input l) with
  | None => NUL
  | Some c => c
  end.

Definition tokenMap : list (ascii * TokenType) :=
  [ ("="%char, ASSIGN); ("."%char, DOT); (";"%char, SEMICOLON);
    ("("%char, LPAREN); (")"%char, RPAREN); ("{"%char, LBRACE);
    ("}"%char, RBRACE); ("["%char, LBRACKET); ("]"%char, RBRACKET);
    ("+"%char, PLUS); (","%char, COMMA); ("-"%char, MINUS); ("!"%char, BANG);
    ("*"%char, ASTERISK); ("/"%char, SLASH); ("<"%char, LT); (">"%char, GT);
    (":"%char, COLON); ("%"%char, MOD); ("&"%char, AND); ("|"%char, OR) ].

Fixpoint tokenMap_lookup (m : list (ascii * TokenType)) (c : ascii)
  : option TokenType :=
  match m with
  | [] => None
  | (k, v) :: rest => if byte_eq k c then Some v else tokenMap_lookup rest c
  end.

Definition isLetter (c : ascii) : bool :=
  (byte_le "a"%char c && byte_le c "z"%char)
  || (byte_le "A"%char c && byte_le c "Z"%char)
  || byte_eq c "_"%char.

Definition isDigit (c : ascii) : bool := byte_le "0"%char c && byte_le c "9"%char.

Definition isSpace (c : ascii) : bool :=
  byte_eq c " "%char || byte_eq c (byte 9) || byte_eq c LF || byte_eq c (byte 13).

(** The loops of the lexer read one character per iteration and stop at the
    zero byte past the end, so they run at most [String.length input + 1]
    times from any position; [n] is that bound. *)
Fixpoint skipWhitespace_loop (n : nat) (l : Lexer) : Lexer :=
  match n with
  | O => l
  | S n' => if isSpace (ch l) then skipWhitespace_loop n' (readChar l) else l
  end.

Definition bound (l : Lexer) : nat := S (String.length (input l)).

Definition skipWhitespace (l : Lexer) : Lexer := skipWhitespace_loop (bound l) l.

(** [l.input[start:l.position]] *)
Definition slice_input (l : Lexer) (start : nat) : string :=
  String.substring start (position l - start) (input l).

Fixpoint readIdent_loop (n : nat) (l : Lexer) : Lexer :=
  match n with
  | O => l
  | S n' =>
      if isLetter (ch l) || isDigit (ch l) then readIdent_loop n' (readChar l) else l
  end.

Fixpoint readNumber_loop (n : nat) (l : Lexer) (buf : string) (hasDot : bool)
  : Lexer * string * bool :=
  match n with
  | O => (l, buf, hasDot)
  | S n' =>
      if isDigit (ch l) || byte_eq (ch l) "."%char then
        readNumber_loop n' (readChar l) (buf +:+ String (ch l) EmptyString)
          (hasDot || byte_eq (ch l) "."%char)
      else (l, buf, hasDot)
  end.

Definition mkToken (typ : TokenType) (lit : string) : Token :=
  {| Type_ := typ; Literal := lit; Pos := noPos |}.

Definition readNumber (l : Lexer) : Token * Lexer :=
  let '(l', buf, hasDot) := readNumber_loop (bound l) l EmptyString false in
  (mkToken (if hasDot then FLOAT else INT) buf, l').

(** The loop of [readString]: whether the closing quote was found, and the
    lexer where the loop stopped. *)
Fixpoint readString_loop (n : nat) (l : Lexer) (q : ascii) : bool * Lexer :=
  match n with
  | O => (false, l)
  | S n' =>
      let l' := readChar l in
      if byte_eq (ch l') q then (true, l')
      else if byte_eq (ch l') NUL then (false, l')
      else readString_loop n' l' q
  end.

(** [readString(quote)]: the text between the quotes, or [None] for its
    error; with the lexer where it stopped. *)
Definition readString (l : Lexer) (q : ascii) : option string * Lexer :=
  let start := readPosition l in
  match readString_loop (bound l) l q with
  | (true, l') => (Some (slice_input l' start), l')
  | (false, l') => (None, l')
  end.

Definition readMultiCharToken (l : Lexer) : Token * Lexer :=
  let illegal (l : Lexer) : Token * Lexer :=
    let l' := readChar l in (NewToken ILLEGAL (ch l'), l') in
  if byte_eq (ch l) NUL then (mkToken EOF EmptyString, l)
  else if isLetter (ch l) then
    let start := position l in
    let l' := readIdent_loop (bound l) l in
    let lit := slice_input l' start in
    (mkToken (IdentOrKeyword lit) lit, l')
  else if isDigit (ch l) then readNumber l
  else if byte_eq (ch l) quote1 then
    match readString l quote1 with
    | (Some str, l') => (mkToken STRING str, readChar l')
    | (None, l') => illegal l'
    end
  else if byte_eq (ch l) quote2 then
    match readString l quote2 with
    | (Some str, l') => (mkToken STRING str, readChar l')
    | (None, l') => illegal l'
    end
  else illegal l.

Definition withPos (tok : Token) (pos : Position) : Token :=
  {| Type_ := Type_ tok; Literal := Literal tok; Pos := pos |}.

Definition NextToken (l : Lexer) : Token * Lexer :=
  let l := skipWhitespace l in
  let pos := {| Offset := Z.of_nat (position l); Line := line l; Col := col l - 1 |} in
  match tokenMap_lookup tokenMap (ch l) with
  | Some t =>
      let next := peekChar l in
      let two (typ : TokenType) (lit : string) := Some (mkToken typ lit) in
      let tok : option Token :=
        if bool_decide (t = LT) then
          if byte_eq next "="%char then two LTE "<=" else None
        else if bool_decide (t = GT) then
          if byte_eq next "="%char then two GTE ">=" else None
        else if bool_decide (t = ASSIGN) then
          if byte_eq next "="%char then two EQ "==" else None
        else if bool_decide (t = BANG) then
          if byte_eq next "="%char then two NEQ "!=" else None
        else if bool_decide (t = PLUS) then
          if byte_eq next "="%char then two PLUS_A "+="
          else if byte_eq next "+"%char then two INCR "++" else None
        else if bool_decide (t = MINUS) then
          if byte_eq next "="%char then two MINUS_A "-="
          else if byte_eq next "-"%char then two DECR "--" else None
        else if bool_decide (t = ASTERISK) then
          if byte_eq next "="%char then two ASTERISK_A "*=" else None
        else if bool_decide (t = SLASH) then
          if byte_eq next "="%char then two SLASH_A "/=" else None
        else if bool_decide (t = AND) then
          if byte_eq next "&"%char then two AND "&&" else None
        else if bool_decide (t = OR) then
          if byte_eq next "|"%char then two OR "||" else None
        else None in
      match tok with
      | Some tok => (withPos tok pos, readChar (readChar l))
      | None => (withPos (NewToken t (ch l)) pos, readChar l)
      end
  | None =>
      let '(tok, l') := readMultiCharToken l in
      (withPos tok pos, l')
  end.

End lexer.

(** ** package ast

    Fields of interface type ([Expression], [Node]) may be nil and are
    options; so is [LetStatement.Name], which the parser leaves nil after a
    syntax error.  Fields of type [*BlockStatement] that the parser always
    sets ([Consequence], the bodies) are not optional; [Alternative] is.
    [HashLiteral.Pairs] is a Go map keyed by node; it is given as the list
    of its entries in the order in which a [range] over it visits them. *)

Module ast.

Import token.

Record Identifier := { Identifier_Token : Token; Identifier_Value : string }.

#[local] Set Warnings "-register-all".

Inductive Expression :=
| Ident (i : Identifier)
| IntegerLiteral (tok : Token) (Value : Z)
| FloatLiteral (tok : Token) (Value : float)
| BooleanLiteral (tok : Token) (Value : bool)
| StringLiteral (tok : Token) (Value : string)
| NullExpression (tok : Token)
| ArrayLiteral (tok : Token) (Elements : list (option Expression))
| HashLiteral (tok : Token) (Pairs : list (option Expression * option Expression))
| FunctionLiteral (tok : Token) (Parameters : list Identifier) (Body : BlockStatement)
| PrefixExpression (tok : Token) (Operator : string) (Right : option Expression)
| InfixExpression (tok : Token) (Left : option Expression) (Operator : string)
    (Right : option Expression)
| PostfixExpression (tok : Token) (Operator : string) (Left : option Expression)
| IfExpression (tok : Token) (Condition : option Expression)
    (Consequence : BlockStatement) (Alternative : option BlockStatement)
| WhileExpression (tok : Token) (Condition : option Expression) (Body : BlockStatement)
| ForExpression (tok : Token) (Init : option Node) (Condition Update : option Expression)
    (Body : BlockStatement)
| BreakExpression (tok : Token)
| ContinueExpression (tok : Token)
| TypeofExpression (tok : Token) (Expr : option Expression)
| AssignExpression (tok : Token) (Name Value : option Expression)
| CallExpression (tok : Token) (Function : option Expression)
    (Arguments : list (option Expression))
| MethodCallExpression (tok : Token) (Object Call : option Expression)
| IndexExpression (tok : Token) (Left Index : option Expression)
| SliceExpression (tok : Token) (Start End : option Expression)
with Statement :=
| LetStatement (tok : Token) (Name : option Identifier) (Value : option Expression)
| DeleteStatement (tok : Token) (Value : option Expression)
| ReturnStatement (tok : Token) (ReturnValue : option Expression)
| ExpressionStatement (tok : Token) (Expr : option Expression)
| BlockStmt (b : BlockStatement)
with BlockStatement :=
| Block (tok : Token) (Statements : list Statement)
with Node :=
| Program (Statements : list Statement)
| Stmt (s : Statement)
| Expr (e : Expression).

Definition Block_Statements (b : BlockStatement) : list Statement :=
  match b with Block _ stmts => stmts end.

(** [strings.Join] *)
Fixpoint Join (elems : list string) (sep : string) : string :=
  match elems with
  | [] => ""
  | [x] => x
  | x :: rest => x +:+ sep +:+ Join rest sep
  end.

(** The [String()] methods.  [None] is the nil dereference that the Go
    method runs into when a sub-node it renders without a check is nil. *)
Fixpoint Expression_String (e : Expression) {struct e} : option string :=
  let opt (o : option Expression) : option string :=
    match o with Some x => Expression_String x | None => None end in
  let fix strs (l : list (option Expression)) : option (list string) :=
    match l with
    | [] => Some []
    | x :: r => s ← opt x; ss ← strs r; Some (s :: ss)
    end in
  let fix pairs (l : list (option Expression * option Expression))
      : option (list string) :=
    match l with
    | [] => Some []
    | (k, v) :: r =>
        ks ← opt k; vs ← opt v; ss ← pairs r; Some ((ks +:+ ":" +:+ vs) :: ss)
    end in
  match e with
  | Ident i => Some (Identifier_Value i)
  | IntegerLiteral tok _ | FloatLiteral tok _ | BooleanLiteral tok _
  | StringLiteral tok _ | BreakExpression tok | ContinueExpression tok =>
      Some (Literal tok)
  | NullExpression _ => Some "null"
  | ArrayLiteral _ elems =>
      ss ← strs elems; Some ("[" +:+ Join ss ", " +:+ "]")
  | HashLiteral _ prs =>
      ss ← pairs prs; Some ("{" +:+ Join ss ", " +:+ "}")
  | FunctionLiteral tok params body =>
      b ← BlockStatement_String body;
      Some (Literal tok +:+ "(" +:+ Join (Identifier_Value <$> params) ","
            +:+ ")" +:+ b)
  | PrefixExpression _ op rgt =>
      r ← opt rgt; Some ("(" +:+ op +:+ r +:+ ")")
  | InfixExpression _ lft op rgt =>
      l ← opt lft; r ← opt rgt;
      Some ("(" +:+ l +:+ " " +:+ op +:+ " " +:+ r +:+ ")")
  | PostfixExpression _ op lft =>
      l ← opt lft; Some ("(" +:+ l +:+ op +:+ ")")
  | IfExpression _ cond csq alt =>
      c ← opt cond;
      t ← BlockStatement_String csq;
      match alt with
      | Some a =>
          f ← BlockStatement_String a;
          Some ("if" +:+ c +:+ " " +:+ t +:+ "else " +:+ f)
      | None => Some ("if" +:+ c +:+ " " +:+ t)
      end
  | WhileExpression tok cond body =>
      c ← match cond with Some x => Expression_String x | None => Some "" end;
      b ← BlockStatement_String body;
      Some (Literal tok +:+ " ( " +:+ c +:+ " )" +:+ " { " +:+ b +:+ " }")
  | ForExpression _ init cond update body =>
      i ← match init with Some x => Node_String x | None => Some "" end;
      c ← match cond with Some x => Expression_String x | None => Some "" end;
      u ← match update with Some x => Expression_String x | None => Some "" end;
      b ← BlockStatement_String body;
      Some ("for" +:+ " ( " +:+ i +:+ " ; " +:+ c +:+ " ; " +:+ u +:+ " ) "
            +:+ " { " +:+ b +:+ " }")
  | TypeofExpression _ x => s ← opt x; Some ("typeof" +:+ s)
  | AssignExpression tok name value =>
      n ← opt name; v ← opt value; Some (n +:+ Literal tok +:+ v)
  | CallExpression _ fn args =>
      ss ← strs args; f ← opt fn; Some (f +:+ "(" +:+ Join ss ", " +:+ ")")
  | MethodCallExpression _ obj call =>
      o ← opt obj; c ← opt call; Some (o +:+ "." +:+ c)
  | IndexExpression _ lft index =>
      l ← opt lft; i ← opt index; Some ("(" +:+ l +:+ "[" +:+ i +:+ "]" +:+ ")")
  | SliceExpression _ start end_ =>
      s ← opt start; e ← opt end_; Some ("(" +:+ s +:+ ":" +:+ e +:+ ")")
  end
with Statement_String (s : Statement) {struct s} : option string :=
  match s with
  | LetStatement tok name value =>
      n ← Identifier_Value <$> name;
      v ← match value with Some x => Expression_String x | None => Some "" end;
      Some (Literal tok +:+ " " +:+ n +:+ " = " +:+ v)
  | DeleteStatement _ value =>
      v ← match value with Some x => Expression_String x | None => None end;
      Some ("delete " +:+ v)
  | ReturnStatement tok value =>
      v ← match value with Some x => Expression_String x | None => Some "" end;
      Some (Literal tok +:+ " " +:+ v)
  | ExpressionStatement _ x =>
      match x with Some x => Expression_String x | None => Some "" end
  | BlockStmt b => BlockStatement_String b
  end
with BlockStatement_String (b : BlockStatement) {struct b} : option string :=
  let fix go (l : list Statement) : option string :=
    match l with
    | [] => Some ""
    | ExpressionStatement _ None :: r => go r
    | s :: r => x ← Statement_String s; y ← go r; Some (x +:+ "; " +:+ y)
    end in
  match b with Block _ stmts => go stmts end
with Node_String (n : Node) {struct n} : option string :=
  let fix go (l : list Statement) : option string :=
    match l with
    | [] => Some ""
    | s :: r => x ← Statement_String s; y ← go r; Some (x +:+ y)
    end in
  match n with
  | Program stmts => go stmts
  | Stmt s => Statement_String s
  | Expr e => Expression_String e
  end.

End ast.

(** ** package fmt: the two verbs the messages use *)

Module fmt.

Inductive arg :=
| S (s : string)
| D (d : Z).

Definition render (a : arg) : string :=
  match a with
  | S s => s
  | D d => pretty d
  end.

(** [Sprintf] for formats whose verbs are [%s] and [%d], each given an
    operand of its kind (every call in the evaluator is of this form). *)
Fixpoint Sprintf (format : string) (args : list arg) : string :=
  match format with
  | EmptyString => EmptyString
  | String "%" (String v rest) =>
      match args with
      | a :: args' => render a +:+ Sprintf rest args'
      | [] => "%!" +:+ String v "(MISSING)" +:+ Sprintf rest []
      end
  | String c rest => String c (Sprintf rest args)
  end.

End fmt.

(** ** package parser: precedence levels and the precedence table *)

Module parser.

Import token ast.

(** [const ( _ int = iota; LOWEST; ASSIGN; ... )] *)
Definition LOWEST : Z := 1.
Definition ASSIGN : Z := 2.
Definition OR : Z := 3.
Definition AND : Z := 4.
Definition EQUALS : Z := 5.
Definition LESSGREATER : Z := 6.
Definition SLICE : Z := 7.
Definition SUM : Z := 8.
Definition PRODUCT : Z := 9.
Definition PREFIX : Z := 10.
Definition CALL : Z := 11.
Definition INDEX : Z := 12.
Definition INCRDECR : Z := 13.

Definition precedences : gmap TokenType Z :=
  list_to_map
    [ (token.ASSIGN, ASSIGN);
      (token.AND, AND);
      (token.OR, OR);
      (token.EQ, EQUALS);
      (token.NEQ, EQUALS);
      (token.LT, LESSGREATER);
      (token.LTE, LESSGREATER);
      (token.GT, LESSGREATER);
      (token.GTE, LESSGREATER);
      (token.COLON, SLICE);
      (token.PLUS, SUM);
      (token.MINUS, SUM);
      (token.PLUS_A, SUM);
      (token.MINUS_A, SUM);
      (token.MOD, PRODUCT);
      (token.ASTERISK, PRODUCT);
      (token.ASTERISK_A, PRODUCT);
      (token.SLASH, PRODUCT);
      (token.SLASH_A, PRODUCT);
      (token.LPAREN, CALL);
      (token.DOT, CALL);
      (token.LBRACKET, INDEX);
      (token.INCR, INCRDECR);
      (token.DECR, INCRDECR) ].

(** [peekPrecedence] and [curPrecedence] look a token type up the same
    way: its entry in the table, or [LOWEST]. *)
Definition precedenceOf (typ : TokenType) : Z :=
  match precedences !! typ with
  | Some p => p
  | None => LOWEST
  end.

(** *** The parser state and its monad *)

Record Parser := {
  l : lexer.Lexer;
  curToken : Token;
  peekToken : Token;
  errors : list string;
}.

(** A parse function either returns with a new parser state, or panics (a
    nil dereference), or runs out of fuel. *)
Inductive Result (A : Type) :=
| Ok (a : A) (p : Parser)
| Panic
| OutOfFuel.

Arguments Ok {A} a p.
Arguments Panic {A}.
Arguments OutOfFuel {A}.

Definition P (A : Type) : Type := Parser -> Result A.

Definition ret {A} (a : A) : P A := fun p => Ok a p.

Definition bind {A B} (m : P A) (k : A -> P B) : P B :=
  fun p =>
    match m p with
    | Ok a p' => k a p'
    | Panic => Panic
    | OutOfFuel => OutOfFuel
    end.

#[global] Instance P_ret : MRet P := @ret.
#[global] Instance P_bind : MBind P := fun A B k m => bind m k.

Definition panic {A} : P A := fun _ => Panic.

Definition out_of_fuel {A} : P A := fun _ => OutOfFuel.

Definition get : P Parser := fun p => Ok p p.

Definition cur : P Token := fun p => Ok (curToken p) p.

Definition addError (msg : string) : P unit :=
  fun p =>
    Ok tt {| l := l p; curToken := curToken p; peekToken := peekToken p;
             errors := (errors p ++ [msg])%list |}.

(** *** parser_utils.go *)

Definition nextToken : P unit :=
  fun p =>
    let '(tok, l') := lexer.NextToken (l p) in
    Ok tt {| l := l'; curToken := peekToken p; peekToken := tok; errors := errors p |}.

Definition curTokenIs (typ : TokenType) : P bool :=
  fun p => Ok (bool_decide (Type_ (curToken p) = typ)) p.

Definition peekTokenIs (typ : TokenType) : P bool :=
  fun p => Ok (bool_decide (Type_ (peekToken p) = typ)) p.

Definition peekPrecedence : P Z := fun p => Ok (precedenceOf (Type_ (peekToken p))) p.

Definition curPrecedence : P Z := fun p => Ok (precedenceOf (Type_ (curToken p))) p.

(** [Position.String()] *)
Definition Position_String (pos : Position) : string :=
  fmt.Sprintf "%d:%d" [fmt.D (Line pos); fmt.D (Col pos)].

Definition peekError (typ : TokenType) : P unit :=
  p ← get;
  addError
    (fmt.Sprintf "[%s]expected token to be %s, got %s instead"
       [fmt.S (Position_String (Pos (peekToken p))); fmt.S typ;
        fmt.S (Type_ (peekToken p))]).

Definition noPrefixParseFnError (t : TokenType) : P unit :=
  p ← get;
  addError
    (fmt.Sprintf "[%s]no prefix parse function for %s found"
       [fmt.S (Position_String (Pos (curToken p))); fmt.S t]).

Definition expectPeek (typ : TokenType) : P bool :=
  b ← peekTokenIs typ;
  if (b : bool) then nextToken;; ret true
  else peekError typ;; ret false.

(** [%q] of a token literal made of digits and dots: the literal between
    double quotes. *)
Definition quoted (s : string) : string :=
  String lexer.quote2 (s +:+ String lexer.quote2 EmptyString).

(** *** parser.go and parsing_functions.go *)

Section WithRuntime.

Context `{rt : GoRuntime}.

Definition parseIdentifier : P (option Expression) :=
  tok ← cur;
  ret (Some (Ident {| Identifier_Token := tok; Identifier_Value := Literal tok |})).

Definition parseIntegerLiteral : P (option Expression) :=
  tok ← cur;
  match strconv_ParseInt (Literal tok) with
  | None =>
      addError ("could not parse " +:+ quoted (Literal tok) +:+ " as integer");;
      ret None
  | Some i => ret (Some (IntegerLiteral tok i))
  end.

Definition parseFloatLiteral : P (option Expression) :=
  tok ← cur;
  match strconv_ParseFloat (Literal tok) with
  | None =>
      addError ("could not parse " +:+ quoted (Literal tok) +:+ " as float");;
      ret None
  | Some value => ret (Some (FloatLiteral tok value))
  end.

Definition parseBooleanLiteral : P (option Expression) :=
  tok ← cur;
  b ← curTokenIs TRUE;
  ret (Some (BooleanLiteral tok b)).

Definition parseStringLiteral : P (option Expression) :=
  tok ← cur;
  ret (Some (StringLiteral tok (Literal tok))).

Definition parseBreakExpression : P (option Expression) :=
  tok ← cur; ret (Some (BreakExpression tok)).

Definition parseContinueExpression : P (option Expression) :=
  tok ← cur; ret (Some (ContinueExpression tok)).

Definition parseNullExpression : P (option Expression) :=
  tok ← cur; ret (Some (NullExpression tok)).

Definition parsePostfixExpression (lft : option Expression) : P (option Expression) :=
  tok ← cur;
  ret (Some (PostfixExpression tok (Literal tok) lft)).

(** [for p.peekTokenIs(token.COMMA) { ... }] of [parseFunctionParameters] *)
Fixpoint parseFunctionParameters_loop (fuel : nat) (idents : list Identifier)
  : P (list Identifier) :=
  match fuel with
  | O => out_of_fuel
  | S fuel' =>
      b ← peekTokenIs COMMA;
      if (b : bool) then
        nextToken;;
        nextToken;;
        tok ← cur;
        parseFunctionParameters_loop fuel'
          (idents ++ [{| Identifier_Token := tok; Identifier_Value := Literal tok |}])%list
      else ret idents
  end.

Definition parseFunctionParameters (fuel : nat) : P (list Identifier) :=
  b ← peekTokenIs RPAREN;
  if (b : bool) then nextToken;; ret []
  else
    nextToken;;
    tok ← cur;
    idents ← parseFunctionParameters_loop fuel
      [{| Identifier_Token := tok; Identifier_Value := Literal tok |}];
    ok ← expectPeek RPAREN;
    if (ok : bool) then ret idents else ret [].

(** The parse functions below call [parseExpression]; they take it as
    [parseExpression], the parser with one unit of fuel less. *)
Section Recursion.

Variable parseExpression : Z -> P (option Expression).

Definition parseExpressionStatement : P Statement :=
  tok ← cur;
  e ← parseExpression LOWEST;
  ret (ExpressionStatement tok e).

(** [p.parseExpressionStatement().Expression] *)
Definition parseExpressionStatement_Expression : P (option Expression) :=
  parseExpression LOWEST.

Definition parseLetStatement : P Statement :=
  tok ← cur;
  b ← expectPeek IDENT;
  name ← (if (b : bool) then
            t ← cur;
            ret (Some {| Identifier_Token := t; Identifier_Value := Literal t |})
          else ret None);
  b ← expectPeek token.ASSIGN;
  value ← (if (b : bool) then nextToken;; parseExpressionStatement_Expression
           else ret None);
  ret (LetStatement tok name value).

Definition parseDeleteStatement : P Statement :=
  tok ← cur;
  nextToken;;
  value ← parseExpression LOWEST;
  ret (DeleteStatement tok value).

Definition parseReturnStatement : P Statement :=
  tok ← cur;
  b ← peekTokenIs SEMICOLON;
  if (b : bool) then nextToken;; ret (ReturnStatement tok None)
  else
    nextToken;;
    value ← parseExpressionStatement_Expression;
    ret (ReturnStatement tok value).

Definition parseStatement : P Statement :=
  tok ← cur;
  if bool_decide (Type_ tok = LET) then parseLetStatement
  else if bool_decide (Type_ tok = DELETE) then parseDeleteStatement
  else if bool_decide (Type_ tok = RETURN) then parseReturnStatement
  else parseExpressionStatement.

(** [for !p.curTokenIs(token.RBRACE) && !p.curTokenIs(token.EOF) { ... }] *)
Fixpoint parseBlockStatement_loop (fuel : nat) (stmts : list Statement)
  : P (list Statement) :=
  match fuel with
  | O => out_of_fuel
  | S fuel' =>
      rb ← curTokenIs RBRACE;
      eof ← curTokenIs EOF;
      if negb rb && negb eof then
        stmt ← parseStatement;
        nextToken;;
        parseBlockStatement_loop fuel' (stmts ++ [stmt])%list
      else ret stmts
  end.

Definition parseBlockStatement (fuel : nat) : P BlockStatement :=
  tok ← cur;
  nextToken;;
  stmts ← parseBlockStatement_loop fuel [];
  ret (Block tok stmts).

(** [for p.peekTokenIs(token.COMMA) { ... }] of [parseExpressionList] *)
Fixpoint parseExpressionList_loop (fuel : nat) (list_ : list (option Expression))
  : P (list (option Expression)) :=
  match fuel with
  | O => out_of_fuel
  | S fuel' =>
      b ← peekTokenIs COMMA;
      if (b : bool) then
        nextToken;;
        nextToken;;
        e ← parseExpression LOWEST;
        parseExpressionList_loop fuel' (list_ ++ [e])%list
      else ret list_
  end.

Definition parseExpressionList (fuel : nat) (end_ : TokenType)
  : P (list (option Expression)) :=
  b ← peekTokenIs end_;
  if (b : bool) then nextToken;; ret []
  else
    nextToken;;
    e ← parseExpression LOWEST;
    list_ ← parseExpressionList_loop fuel [e];
    ok ← expectPeek end_;
    if (ok : bool) then ret list_ else ret [].

Definition parseArrayLiteral (fuel : nat) : P (option Expression) :=
  tok ← cur;
  elements ← parseExpressionList fuel RBRACKET;
  ret (Some (ArrayLiteral tok elements)).

Definition parseFunctionLiteral (fuel : nat) : P (option Expression) :=
  tok ← cur;
  ok ← expectPeek LPAREN;
  if negb ok then ret None
  else
    params ← parseFunctionParameters fuel;
    ok ← expectPeek LBRACE;
    if negb ok then ret None
    else
      body ← parseBlockStatement fuel;
      ret (Some (FunctionLiteral tok params body)).

Definition parsePrefixExpression : P (option Expression) :=
  tok ← cur;
  nextToken;;
  rgt ← parseExpression PREFIX;
  ret (Some (PrefixExpression tok (Literal tok) rgt)).

Definition parseInfixExpression (lft : option Expression) : P (option Expression) :=
  tok ← cur;
  precedence ← curPrecedence;
  nextToken;;
  rgt ← parseExpression precedence;
  ret (Some (InfixExpression tok lft (Literal tok) rgt)).

Definition parseGroupedExpression : P (option Expression) :=
  nextToken;;
  expr ← parseExpression LOWEST;
  ok ← expectPeek RPAREN;
  if negb ok then ret None else ret expr.

Definition parseIfExpression (fuel : nat) : P (option Expression) :=
  tok ← cur;
  ok ← expectPeek LPAREN;
  if negb ok then ret None
  else
    cond ← parseExpression LOWEST;
    ok ← curTokenIs RPAREN;
    if negb ok then ret None
    else
      ok ← expectPeek LBRACE;
      if negb ok then ret None
      else
        csq ← parseBlockStatement fuel;
        els ← peekTokenIs ELSE;
        if (els : bool) then
          nextToken;;
          ok ← expectPeek LBRACE;
          if negb ok then ret None
          else
            alt ← parseBlockStatement fuel;
            ret (Some (IfExpression tok cond csq (Some alt)))
        else ret (Some (IfExpression tok cond csq None)).

Definition parseWhileExpression (fuel : nat) : P (option Expression) :=
  tok ← cur;
  ok ← expectPeek LPAREN;
  if negb ok then ret None
  else
    cond ← parseExpression LOWEST;
    ok ← curTokenIs RPAREN;
    if negb ok then ret None
    else
      ok ← expectPeek LBRACE;
      if negb ok then ret None
      else
        body ← parseBlockStatement fuel;
        ret (Some (WhileExpression tok cond body)).

Definition parseForExpression (fuel : nat) : P (option Expression) :=
  curToken_ ← cur;
  ok ← expectPeek LPAREN;
  if negb ok then ret None
  else
    nextToken;;
    semi ← curTokenIs SEMICOLON;
    init ← (if negb semi then
              isLet ← curTokenIs LET;
              i ← (if (isLet : bool) then s ← parseLetStatement; ret (Some (Stmt s))
                   else e ← parseExpression LOWEST; ret (Expr <$> e));
              nextToken;;
              ret i
            else ret None);
    nextToken;;
    semi ← curTokenIs SEMICOLON;
    cond ← (if negb semi then
              c ← parseExpression LOWEST;
              nextToken;;
              ret c
            else ret None);
    nextToken;;
    rp ← curTokenIs RPAREN;
    update ← (if negb rp then
                u ← parseExpression LOWEST;
                nextToken;;
                ret u
              else ret None);
    ok ← expectPeek LBRACE;
    if negb ok then ret None
    else
      body ← parseBlockStatement fuel;
      ret (Some (ForExpression curToken_ init cond update body)).

Definition parseTypeofExpression : P (option Expression) :=
  tok ← cur;
  nextToken;;
  e ← parseExpression LOWEST;
  ret (Some (TypeofExpression tok e)).

Definition parseCallExpression (fuel : nat) (lft : option Expression)
  : P (option Expression) :=
  tok ← cur;
  args ← parseExpressionList fuel RPAREN;
  ret (Some (CallExpression tok lft args)).

Definition parseSliceExpression (lft : option Expression) : P (option Expression) :=
  tok ← cur;
  b ← peekTokenIs RBRACKET;
  if (b : bool) then ret (Some (SliceExpression tok lft None))
  else
    nextToken;;
    e ← parseExpression LOWEST;
    ret (Some (SliceExpression tok lft e)).

Definition parseIndexExpression (lft : option Expression) : P (option Expression) :=
  tok ← cur;
  colon ← peekTokenIs COLON;
  index ← (if (colon : bool) then
             let start := IntegerLiteral (NewToken INT "0"%char) 0 in
             nextToken;;
             parseSliceExpression (Some start)
           else
             nextToken;;
             parseExpression LOWEST);
  ok ← expectPeek RBRACKET;
  if negb ok then ret None else ret (Some (IndexExpression tok lft index)).

(** [name.TokenLiteral()] *)
Definition Expression_TokenLiteral (e : Expression) : string :=
  match e with
  | Ident i => Literal (Identifier_Token i)
  | NullExpression _ => "null"
  | IntegerLiteral tok _ | FloatLiteral tok _ | BooleanLiteral tok _
  | StringLiteral tok _ | ArrayLiteral tok _ | HashLiteral tok _
  | FunctionLiteral tok _ _ | PrefixExpression tok _ _
  | InfixExpression tok _ _ _ | PostfixExpression tok _ _
  | IfExpression tok _ _ _ | WhileExpression tok _ _
  | ForExpression tok _ _ _ _ | BreakExpression tok | ContinueExpression tok
  | TypeofExpression tok _ | AssignExpression tok _ _ | CallExpression tok _ _
  | MethodCallExpression tok _ _ | IndexExpression tok _ _
  | SliceExpression tok _ _ => Literal tok
  end.

Definition parseAssignExpression (name : option Expression) : P (option Expression) :=
  tok ← cur;
  match name with
  | Some (Ident _) | Some (IndexExpression _ _ _) =>
      nextToken;;
      value ← parseExpression LOWEST;
      ret (Some (AssignExpression tok name value))
  | Some other =>
      addError
        (fmt.Sprintf "expected assign token to be an identifier, got %s instead"
           [fmt.S (Expression_TokenLiteral other)]);;
      ret (Some (AssignExpression tok None None))
  | None => panic
  end.

Definition parseMethodCallExpression (fuel : nat) (lft : option Expression)
  : P (option Expression) :=
  tok ← cur;
  nextToken;;
  name ← parseIdentifier;
  lp ← peekTokenIs LPAREN;
  if negb lp then
    call ← parseExpression LOWEST;
    ret (Some (MethodCallExpression tok lft call))
  else
    nextToken;;
    call ← parseCallExpression fuel name;
    ret (Some (MethodCallExpression tok lft call)).

(** [hash.Pairs[key] = value] on the list of entries: a map keyed by node
    has one entry per node, and one for the nil key. *)
Fixpoint Pairs_insert (pairs : list (option Expression * option Expression))
    (key value : option Expression) : list (option Expression * option Expression) :=
  match key, pairs with
  | _, [] => [(key, value)]
  | None, (None, _) :: rest => (None, value) :: rest
  | _, kv :: rest => kv :: Pairs_insert rest key value
  end.

(** [for !p.curTokenIs(token.RBRACE) { ... }] of [parseHashExpression];
    [None] is the [return nil] in the loop. *)
Fixpoint parseHashExpression_loop (fuel : nat)
    (pairs : list (option Expression * option Expression))
  : P (option (list (option Expression * option Expression))) :=
  match fuel with
  | O => out_of_fuel
  | S fuel' =>
      rb ← curTokenIs RBRACE;
      if negb rb then
        nextToken;;
        key ← parseExpression SLICE;
        ok ← expectPeek COLON;
        if negb ok then ret None
        else
          nextToken;;
          value ← parseExpression LOWEST;
          nextToken;;
          parseHashExpression_loop fuel' (Pairs_insert pairs key value)
      else ret (Some pairs)
  end.

Definition parseHashExpression (fuel : nat) : P (option Expression) :=
  tok ← cur;
  b ← peekTokenIs RBRACE;
  if (b : bool) then nextToken;; ret (Some (HashLiteral tok []))
  else
    pairs ← parseHashExpression_loop fuel [];
    match pairs with
    | Some prs => ret (Some (HashLiteral tok prs))
    | None => ret None
    end.

(** [p.prefixParseFns[typ]], as [New] registers them. *)
Definition prefixParseFns (fuel : nat) (typ : TokenType)
  : option (P (option Expression)) :=
  if bool_decide (typ = IDENT) then Some parseIdentifier
  else if bool_decide (typ = INT) then Some parseIntegerLiteral
  else if bool_decide (typ = FLOAT) then Some parseFloatLiteral
  else if bool_decide (typ = TRUE) then Some parseBooleanLiteral
  else if bool_decide (typ = FALSE) then Some parseBooleanLiteral
  else if bool_decide (typ = STRING) then Some parseStringLiteral
  else if bool_decide (typ = LBRACKET) then Some (parseArrayLiteral fuel)
  else if bool_decide (typ = MINUS) then Some parsePrefixExpression
  else if bool_decide (typ = BANG) then Some parsePrefixExpression
  else if bool_decide (typ = INCR) then Some parsePrefixExpression
  else if bool_decide (typ = DECR) then Some parsePrefixExpression
  else if bool_decide (typ = LPAREN) then Some parseGroupedExpression
  else if bool_decide (typ = IF) then Some (parseIfExpression fuel)
  else if bool_decide (typ = FUNCTION) then Some (parseFunctionLiteral fuel)
  else if bool_decide (typ = WHILE) then Some (parseWhileExpression fuel)
  else if bool_decide (typ = BREAK) then Some parseBreakExpression
  else if bool_decide (typ = CONTINUE) then Some parseContinueExpression
  else if bool_decide (typ = FOR) then Some (parseForExpression fuel)
  else if bool_decide (typ = TYPEOF) then Some parseTypeofExpression
  else if bool_decide (typ = NULL) then Some parseNullExpression
  else if bool_decide (typ = LBRACE) then Some (parseHashExpression fuel)
  else None.

(** [p.infixParseFns[typ]], as [New] registers them. *)
Definition infixParseFns (fuel : nat) (typ : TokenType)
  : option (option Expression -> P (option Expression)) :=
  if bool_decide (typ ∈ [PLUS; MINUS; ASTERISK; EQ; SLASH; NEQ; LT; GT; LTE; GTE;
                         token.AND; token.OR; MOD]) then Some parseInfixExpression
  else if bool_decide (typ = LPAREN) then Some (parseCallExpression fuel)
  else if bool_decide (typ = LBRACKET) then Some parseIndexExpression
  else if bool_decide (typ = DOT) then Some (parseMethodCallExpression fuel)
  else if bool_decide (typ = COLON) then Some parseSliceExpression
  else if bool_decide (typ ∈ [token.ASSIGN; PLUS_A; MINUS_A; ASTERISK_A; SLASH_A])
  then Some parseAssignExpression
  else if bool_decide (typ ∈ [INCR; DECR]) then Some parsePostfixExpression
  else None.

(** [for !p.peekTokenIs(token.SEMICOLON) && precedence < p.peekPrecedence() { ... }] *)
Fixpoint parseExpression_loop (fuel : nat) (fns : nat) (precedence : Z)
    (leftExpr : option Expression) : P (option Expression) :=
  match fuel with
  | O => out_of_fuel
  | S fuel' =>
      semi ← peekTokenIs SEMICOLON;
      pp ← peekPrecedence;
      if negb semi && (precedence <? pp) then
        p ← get;
        match infixParseFns fns (Type_ (peekToken p)) with
        | None => ret leftExpr
        | Some infix =>
            nextToken;;
            leftExpr' ← infix leftExpr;
            parseExpression_loop fuel' fns precedence leftExpr'
        end
      else ret leftExpr
  end.

Definition parseExpression_body (fuel : nat) (precedence : Z) : P (option Expression) :=
  semi ← curTokenIs SEMICOLON;
  if (semi : bool) then ret None
  else
    tok ← cur;
    match prefixParseFns fuel (Type_ tok) with
    | None => noPrefixParseFnError (Type_ tok);; ret None
    | Some prefix =>
        leftExpr ← prefix;
        parseExpression_loop fuel fuel precedence leftExpr
    end.

End Recursion.

(** [parseExpression]: each call from the parse functions above costs one
    unit of [fuel]. *)
Fixpoint parseExpression (fuel : nat) (precedence : Z) : P (option Expression) :=
  match fuel with
  | O => out_of_fuel
  | S fuel' => parseExpression_body (parseExpression fuel') fuel' precedence
  end.

(** [for p.curToken.Type != token.EOF { ... }] of [ParseProgram] *)
Fixpoint ParseProgram_loop (fuel : nat) (stmts : list Statement) : P (list Statement) :=
  match fuel with
  | O => out_of_fuel
  | S fuel' =>
      eof ← curTokenIs EOF;
      if negb eof then
        stmt ← parseStatement (parseExpression fuel');
        nextToken;;
        ParseProgram_loop fuel' (stmts ++ [stmt])%list
      else ret stmts
  end.

Definition ParseProgram (fuel : nat) : P (list Statement) :=
  semi ← curTokenIs SEMICOLON;
  eof ← peekTokenIs EOF;
  if semi && eof then ret []
  else ParseProgram_loop fuel [].

(** [New(l)]: the parser after the first two tokens are read. *)
Definition New (lx : lexer.Lexer) : Parser :=
  let zero := {| Type_ := EmptyString; Literal := EmptyString; Pos := noPos |} in
  let p0 := {| l := lx; curToken := zero; peekToken := zero; errors := [] |} in
  match (nextToken;; nextToken) p0 with
  | Ok _ p => p
  | _ => p0
  end.

(** [l := lexer.New(input); p := parser.New(l); program := p.ParseProgram()],
    with [p.Errors()]. *)
Definition Parse (fuel : nat) (inp : string) : Result (list Statement * list string) :=
  match ParseProgram fuel (New (lexer.New inp)) with
  | Ok stmts p => Ok (stmts, errors p) p
  | Panic => Panic
  | OutOfFuel => OutOfFuel
  end.

End WithRuntime.

(** What a parse function returned, when it returned. *)
Definition returned {A : Type} (r : Result A) : option A :=
  match r with
  | Ok a _ => Some a
  | _ => None
  end.

End parser.


(** ** package evaluator *)

Module evaluator.

Import token ast.

(** *** object.go: the object model *)

Definition ObjectType := string.

Definition IntegerObj : ObjectType := "INTEGER".
Definition FloatObj : ObjectType := "FLOAT".
Definition BooleanObj : ObjectType := "BOOLEAN".
Definition NullObj : ObjectType := "NULL".
Definition ReturnValueObj : ObjectType := "RETURN_VALUE".
Definition BreakObj : ObjectType := "BREAK".
Definition ContinueObj : ObjectType := "CONTINUE".
Definition ErrorObj : ObjectType := "ERROR".
Definition FunctionObj : ObjectType := "FUNCTION".
Definition StringObj : ObjectType := "STRING".
Definition BuiltinObj : ObjectType := "BUILTIN".
Definition ArrayObj : ObjectType := "ARRAY".
Definition HashObj : ObjectType := "HASH".

(** Addresses of objects, of scopes and of the arrays behind slices. *)
Definition ptr := nat.
Definition sptr := nat.
Definition aptr := nat.

(** A value of interface type [Object]: nil, or a pointer to a struct. *)
Definition Object := option ptr.

(** A slice header [[]Object]: the array behind it, where the slice starts
    in that array, its length and its capacity. *)
Record Slice := { base : aptr; off : nat; len : nat; cap : nat }.

Definition HashKey : Type := ObjectType * Z.

Record HashPair := { HashPair_Key : Object; HashPair_Value : Object }.

(** The six native functions of the [builtins] registry. *)
Inductive BuiltinFunction :=
| fn_len | fn_number | fn_string | fn_int | fn_now | fn_print.

(** The structs that implement [Object]. *)
Inductive Struct :=
| Integer (Value : Z)
| Float (Value : float)
| Boolean (Value : bool)
| Null
| Error (Msg : string)
| Break
| Continue
| ReturnValue (Value : Object)
| String (Value : string)
| Function (Parameters : list Identifier) (Body : BlockStatement) (Scope : sptr)
| Builtin (Fn : BuiltinFunction)
| Array (Elements : Slice)
| Hash (Pairs : gmap HashKey HashPair).

Definition Struct_Type (o : Struct) : ObjectType :=
  match o with
  | Integer _ => IntegerObj
  | Float _ => FloatObj
  | Boolean _ => BooleanObj
  | Null => NullObj
  | Error _ => ErrorObj
  | Break => BreakObj
  | Continue => ContinueObj
  | ReturnValue _ => ReturnValueObj
  | String _ => StringObj
  | Function _ _ _ => FunctionObj
  | Builtin _ => BuiltinObj
  | Array _ => ArrayObj
  | Hash _ => HashObj
  end.

(** *** scope.go *)

Record Scope := { store : gmap string Object; parentScope : option sptr }.

(** *** The store and the evaluation monad *)

Record State := {
  objects : list Struct;        (* the structs, by address *)
  arrays : list (list Object);  (* the arrays behind slices, by address *)
  scopes : list Scope;          (* the scope frames, by address *)
  ticks : nat;                  (* how many times [Eval] has been entered *)
  stdout : list string;         (* the lines written by [fmt.Println] *)
}.

Definition set_objects (f : list Struct -> list Struct) (st : State) : State :=
  {| objects := f (objects st); arrays := arrays st; scopes := scopes st;
     ticks := ticks st; stdout := stdout st |}.

Definition set_arrays (f : list (list Object) -> list (list Object)) (st : State)
  : State :=
  {| objects := objects st; arrays := f (arrays st); scopes := scopes st;
     ticks := ticks st; stdout := stdout st |}.

Definition set_scopes (f : list Scope -> list Scope) (st : State) : State :=
  {| objects := objects st; arrays := arrays st; scopes := f (scopes st);
     ticks := ticks st; stdout := stdout st |}.

Definition set_ticks (f : nat -> nat) (st : State) : State :=
  {| objects := objects st; arrays := arrays st; scopes := scopes st;
     ticks := f (ticks st); stdout := stdout st |}.

Definition set_stdout (f : list string -> list string) (st : State) : State :=
  {| objects := objects st; arrays := arrays st; scopes := scopes st;
     ticks := ticks st; stdout := f (stdout st) |}.

(** Go's run-time panics.  [InvalidAddress] is reading an address that was
    never allocated, which no Go program does. *)
Inductive Crash :=
| NilDereference
| IndexOutOfRange (i n : Z)
| InterfaceConversion
| IntegerDivideByZero
| InvalidAddress.

Inductive Result (A : Type) :=
| Ok (a : A) (st : State)
| Panic (c : Crash)
| OutOfFuel.

Arguments Ok {A} a st.
Arguments Panic {A} c.
Arguments OutOfFuel {A}.

Definition M (A : Type) : Type := State -> Result A.

Definition ret {A} (a : A) : M A := fun st => Ok a st.

Definition bind {A B} (m : M A) (k : A -> M B) : M B :=
  fun st =>
    match m st with
    | Ok a st' => k a st'
    | Panic c => Panic c
    | OutOfFuel => OutOfFuel
    end.

Definition panic {A} (c : Crash) : M A := fun _ => Panic c.

Definition out_of_fuel {A} : M A := fun _ => OutOfFuel.

Definition get : M State := fun st => Ok st st.

Definition modify (f : State -> State) : M unit := fun st => Ok tt (f st).

#[global] Instance M_ret : MRet M := @ret.
#[global] Instance M_bind : MBind M := fun A B k m => bind m k.

(** [&T{...}] *)
Definition new (o : Struct) : M ptr :=
  fun st => Ok (length (objects st)) (set_objects (fun l => (l ++ [o])%list) st).

(** [&T{...}] used as an [Object] *)
Definition newObject (o : Struct) : M Object :=
  p ← new o; ret (Some p).

Definition load (p : ptr) : M Struct :=
  fun st =>
    match objects st !! p with
    | Some o => Ok o st
    | None => Panic InvalidAddress
    end.

Definition store_at (p : ptr) (o : Struct) : M unit :=
  modify (set_objects (fun l => <[p := o]> l)).

(** Using the struct behind an interface value: nil has none. *)
Definition deref (obj : Object) : M (ptr * Struct) :=
  match obj with
  | Some p => o ← load p; ret (p, o)
  | None => panic NilDereference
  end.

(** A type switch or a two-valued type assertion on an interface value: nil
    matches no type. *)
Definition typeOf (obj : Object) : M (option (ptr * Struct)) :=
  match obj with
  | Some p => o ← load p; ret (Some (p, o))
  | None => ret None
  end.

(** The method [Type()] called on an interface value. *)
Definition Object_Type (obj : Object) : M ObjectType :=
  '(_, o) ← deref obj; ret (Struct_Type o).

Definition streq (a b : string) : bool := bool_decide (a = b).

(** The objects that exist before any evaluation: the package variables
    [NULL], [BREAK], [CONTINUE], [TRUE], [FALSE], then the [*Builtin]
    values of the [builtins] registry. *)
Definition NULL : ptr := 0%nat.
Definition BREAK : ptr := 1%nat.
Definition CONTINUE : ptr := 2%nat.
Definition TRUE : ptr := 3%nat.
Definition FALSE : ptr := 4%nat.

Definition builtins : gmap string ptr :=
  list_to_map
    [ ("len", 5%nat); ("number", 6%nat); ("string", 7%nat); ("int", 8%nat);
      ("now", 9%nat); ("print", 10%nat) ].

Definition init_state : State :=
  {| objects :=
       [ Null; Break; Continue; Boolean true; Boolean false;
         Builtin fn_len; Builtin fn_number; Builtin fn_string;
         Builtin fn_int; Builtin fn_now; Builtin fn_print ];
     arrays := [];
     scopes := [];
     ticks := 0;
     stdout := [] |}.

Definition nativeBoolToBooleanObject (b : bool) : Object :=
  if b then Some TRUE else Some FALSE.

(** *** errors.go *)

Definition PREFIXOP : Z := 1.
Definition INFIXOP : Z := 2.
Definition POSTFIXOP : Z := 3.
Definition UNKNOWNIDENT : Z := 4.
Definition NOMETHODERROR : Z := 5.
Definition NOINDEXERROR : Z := 6.
Definition NOTHASHABLE : Z := 7.
Definition INDEXERROR : Z := 8.
Definition SLICEERROR : Z := 9.
Definition ARGUMENTNUMERROR : Z := 10.
Definition ARGUMENTTYPEERROR : Z := 11.
Definition RTERROR : Z := 12.
Definition CONSTRUCTERR : Z := 13.
Definition INLENERR : Z := 14.
Definition DIVIDEBYZERO : Z := 15.
Definition NOTFUNC : Z := 16.
Definition REDEFINE : Z := 17.
Definition TIMEOUT : Z := 18.
Definition NOTLVALUE : Z := 19.
Definition INDEXINT : Z := 20.

Definition errorType : gmap Z string :=
  list_to_map
    [ (PREFIXOP, "unsupported prefix operator '%s' for type: %s");
      (INFIXOP, "unsupported infix operator '%s' for type %s and %s");
      (POSTFIXOP, "unsupported postfix operator '%s' for type: %s");
      (UNKNOWNIDENT, "unknown identifier: '%s' is not defined");
      (NOMETHODERROR, "undefined method '%s' for object %s");
      (NOINDEXERROR, "type %s does not support index operator");
      (NOTHASHABLE, "type %s is not hashable");
      (INDEXERROR, "index '%d' is out of range, valid range is [%d, %d]");
      (SLICEERROR, "slicing start index %d must not be greater than end index %d");
      (ARGUMENTNUMERROR, "wrong number of arguments. expected: %s, got: %d");
      (ARGUMENTTYPEERROR, "wrong type of arguments. expected: %s, got: %s");
      (RTERROR, "return type should be %s");
      (CONSTRUCTERR, "%s argument for addm should be type %s. got: %s");
      (INLENERR, "function %s takes input with max length %s. got: %s");
      (DIVIDEBYZERO, "cannot divide by zero");
      (NOTFUNC, "%s is not a function");
      (REDEFINE, "variable %s has been defined");
      (TIMEOUT, "evaluation timeout");
      (NOTLVALUE, "the expression %s is not an lvalue");
      (INDEXINT, "index must be integer") ].

(** The message of [newError(t, args...)]. *)
Definition errorMsg (t : Z) (args : list fmt.arg) : string :=
  fmt.Sprintf (default "" (errorType !! t)) args.

Definition newError (t : Z) (args : list fmt.arg) : M Object :=
  newObject (Error (errorMsg t args)).

Definition newErrorf (format : string) (args : list fmt.arg) : M Object :=
  newObject (Error (fmt.Sprintf format args)).

(** *** Slices of objects *)

Definition loadArray (a : aptr) : M (list Object) :=
  fun st =>
    match arrays st !! a with
    | Some l => Ok l st
    | None => Panic InvalidAddress
    end.

(** [make([]Object, 0)] *)
Definition make0 : M Slice :=
  fun st =>
    Ok {| base := length (arrays st); off := 0; len := 0; cap := 0 |}
       (set_arrays (fun l => (l ++ [[]])%list) st).

(** The elements of a slice, as a [range] over it reads them. *)
Definition Slice_elems (sl : Slice) : M (list Object) :=
  l ← loadArray (base sl); ret (take (len sl) (drop (off sl) l)).

(** [objects[idx]], with Go's bounds check. *)
Definition Slice_get (sl : Slice) (idx : Z) : M Object :=
  if (0 <=? idx) && (idx <? Z.of_nat (len sl)) then
    l ← loadArray (base sl);
    match l !! (off sl + Z.to_nat idx)%nat with
    | Some v => ret v
    | None => panic InvalidAddress
    end
  else panic (IndexOutOfRange idx (Z.of_nat (len sl))).

(** [objects[idx] = v], with Go's bounds check.  The write goes to the array
    behind the slice, so every slice over that array sees it. *)
Definition Slice_set (sl : Slice) (idx : Z) (v : Object) : M unit :=
  if (0 <=? idx) && (idx <? Z.of_nat (len sl)) then
    l ← loadArray (base sl);
    modify (set_arrays
              (fun arrs => <[base sl := <[(off sl + Z.to_nat idx)%nat := v]> l]> arrs))
  else panic (IndexOutOfRange idx (Z.of_nat (len sl))).

(** [objects[lo:hi]] for [0 <= lo <= hi <= cap(objects)]. *)
Definition Slice_slice (sl : Slice) (lo hi : nat) : Slice :=
  {| base := base sl; off := (off sl + lo)%nat; len := (hi - lo)%nat;
     cap := (cap sl - lo)%nat |}.

Section WithRuntime.

Context `{rt : GoRuntime}.

(** [append(objects, v)]: in place when the capacity allows it, into a new
    array otherwise. *)
Definition append (sl : Slice) (v : Object) : M Slice :=
  l ← loadArray (base sl);
  if (len sl <? cap sl)%nat then
    modify (set_arrays
              (fun arrs => <[base sl := <[(off sl + len sl)%nat := v]> l]> arrs));;
    ret {| base := base sl; off := off sl; len := S (len sl); cap := cap sl |}
  else
    let newcap := (S (len sl) `max` growslice (cap sl) (S (len sl)))%nat in
    let elems := take (len sl) (drop (off sl) l) in
    let grown := (elems ++ v :: replicate (newcap - S (len sl)) None)%list in
    st ← get;
    modify (set_arrays (fun arrs => (arrs ++ [grown])%list));;
    ret {| base := length (arrays st); off := 0; len := S (len sl); cap := newcap |}.

Fixpoint appendAll (sl : Slice) (vs : list Object) : M Slice :=
  match vs with
  | [] => ret sl
  | v :: vs' => sl' ← append sl v; appendAll sl' vs'
  end.

(** *** Hash keys *)

(** [hash/fnv]'s 64-bit FNV-1a over the bytes of a string. *)
Definition fnv64a (s : string) : Z :=
  fold_left
    (fun h b => (Z.lxor h (Z.of_N (N_of_ascii b)) * 1099511628211) mod 2 ^ 64)
    (list_ascii_of_string s) 14695981039346656037.

(** The [HashKey()] methods; [None] for a struct that is not [Hashable]. *)
Definition Struct_HashKey (o : Struct) : option HashKey :=
  match o with
  | Integer v => Some (IntegerObj, uint64 v)
  | Float v => Some (FloatObj, fnv64a (strconv_FormatFloat v))
  | Boolean b => Some (BooleanObj, if b then 1 else 0)
  | String s => Some (StringObj, fnv64a s)
  | _ => None
  end.

(** [key.(Hashable)] followed by [HashKey()]; nil is not [Hashable]. *)
Definition hashable (obj : Object) : M (option HashKey) :=
  t ← typeOf obj;
  match t with
  | Some (_, o) => ret (Struct_HashKey o)
  | None => ret None
  end.

(** *** The [String(stack)] methods *)

Fixpoint Object_String (fuel : nat) (obj : Object) (stack : Z) : M string :=
  match fuel with
  | O => out_of_fuel
  | S fuel' =>
      '(_, o) ← deref obj;
      match o with
      | Integer v => ret (pretty v)
      | Float v => ret (strconv_FormatFloat v)
      | Boolean b => ret (if b then "true" else "false")
      | Null => ret "null"
      | Error msg => ret ("Error: " +:+ msg)
      | Break => ret "break"
      | Continue => ret "continue"
      | ReturnValue v => Object_String fuel' v stack
      | String s => ret s
      | Function params body _ =>
          match BlockStatement_String body with
          | Some b =>
              ret ("function(" +:+ Join (Identifier_Value <$> params) ", "
                   +:+ ") { " +:+ b +:+ " }")
          | None => panic NilDereference
          end
      | Builtin _ => ret "[builtin]"
      | Array sl =>
          if stack =? 10 then ret "ARRAY..."
          else
            elems ← Slice_elems sl;
            strs ← mapM (fun e => Object_String fuel' e (stack + 1)) elems;
            ret ("[" +:+ Join strs ", " +:+ "]")
      | Hash pairs =>
          if stack =? 10 then ret "HASH..."
          else
            strs ← mapM
              (fun kv : HashKey * HashPair =>
                 k ← Object_String fuel' (HashPair_Key kv.2) (stack + 1);
                 v ← Object_String fuel' (HashPair_Value kv.2) (stack + 1);
                 ret (fmt.Sprintf "%s:%s" [fmt.S k; fmt.S v]))
              (map_range _ (map_to_list pairs));
            ret ("{" +:+ Join strs ", " +:+ "}")
      end
  end.

(** *** scope.go *)

Definition NewScope (parent : option sptr) : M sptr :=
  fun st =>
    Ok (length (scopes st))
       (set_scopes (fun l => (l ++ [{| store := ∅; parentScope := parent |}])%list) st).

Definition loadScope (s : sptr) : M Scope :=
  fun st =>
    match scopes st !! s with
    | Some sc => Ok sc st
    | None => Panic InvalidAddress
    end.

Definition storeScope (s : sptr) (sc : Scope) : M unit :=
  modify (set_scopes (fun l => <[s := sc]> l)).

(** The loop shared by [Get], [Delete] and [Reset]:
    [for scope.store[key] == nil && scope.parentScope != nil]; it returns
    the frame at which the loop stops. *)
Fixpoint Scope_walk (fuel : nat) (s : sptr) (key : string) : M sptr :=
  match fuel with
  | O => out_of_fuel
  | S fuel' =>
      sc ← loadScope s;
      match store sc !! key with
      | Some (Some _) => ret s
      | _ =>
          match parentScope sc with
          | Some parent => Scope_walk fuel' parent key
          | None => ret s
          end
      end
  end.

(** A chain of frames is never longer than the number of frames. *)
Definition Scope_find (s : sptr) (key : string) : M sptr :=
  st ← get; Scope_walk (S (length (scopes st))) s key.

Definition Scope_Get (s : sptr) (key : string) : M (Object * bool) :=
  scope ← Scope_find s key;
  sc ← loadScope scope;
  match store sc !! key with
  | Some v => ret (v, true)
  | None => ret (None, false)
  end.

Definition Scope_Delete (s : sptr) (key : string) : M (Object * bool) :=
  scope ← Scope_find s key;
  sc ← loadScope scope;
  match store sc !! key with
  | Some v =>
      storeScope scope {| store := delete key (store sc); parentScope := parentScope sc |};;
      ret (v, true)
  | None => ret (None, false)
  end.

Definition Scope_GetCurrent (s : sptr) (key : string) : M (Object * bool) :=
  sc ← loadScope s;
  match store sc !! key with
  | Some v => ret (v, true)
  | None => ret (None, false)
  end.

Definition Scope_Set (s : sptr) (key : string) (value : Object) : M Object :=
  sc ← loadScope s;
  storeScope s {| store := <[key := value]> (store sc); parentScope := parentScope sc |};;
  ret value.

Definition Scope_Reset (s : sptr) (key : string) (value : Object) : M (Object * bool) :=
  scope ← Scope_find s key;
  sc ← loadScope scope;
  match store sc !! key with
  | Some _ =>
      storeScope scope
        {| store := <[key := value]> (store sc); parentScope := parentScope sc |};;
      ret (value, true)
  | None => ret (value, false)
  end.

(** *** The [CallMethod] methods *)

(** [args[i]] on a Go slice of arguments. *)
Definition arg_at (args : list Object) (i : nat) : M Object :=
  match args !! i with
  | Some a => ret a
  | None => panic (IndexOutOfRange (Z.of_nat i) (Z.of_nat (length args)))
  end.

(** [for _, str := range strs { elements = append(elements, &String{Value: str}) }] *)
Fixpoint appendStrings (elements : Slice) (strs : list string) : M Slice :=
  match strs with
  | [] => ret elements
  | str :: strs' =>
      e ← newObject (String str);
      elements' ← append elements e;
      appendStrings elements' strs'
  end.

Definition String_CallMethod (s : string) (method : string) (args : list Object)
  : M Object :=
  if streq method "toLower" then
    if negb (length args =? 0)%nat then
      newError ARGUMENTNUMERROR [fmt.S "0"; fmt.D (Z.of_nat (length args))]
    else newObject (String (strings_ToLower s))
  else if streq method "toUpper" then
    if negb (length args =? 0)%nat then
      newError ARGUMENTNUMERROR [fmt.S "0"; fmt.D (Z.of_nat (length args))]
    else newObject (String (strings_ToUpper s))
  else if streq method "split" then
    if negb (length args =? 1)%nat then
      newError ARGUMENTNUMERROR [fmt.S "1"; fmt.D (Z.of_nat (length args))]
    else
      a0 ← arg_at args 0;
      t0 ← Object_Type a0;
      if negb (streq t0 StringObj) then
        a1 ← arg_at args 1;
        t1 ← Object_Type a1;
        newError ARGUMENTTYPEERROR [fmt.S StringObj; fmt.S t1]
      else
        '(_, o) ← deref a0;
        match o with
        | String sep =>
            let strs := strings_Split s sep in
            elements ← make0;
            elements ← appendStrings elements strs;
            newObject (Array elements)
        | _ => panic InterfaceConversion
        end
  else newError NOMETHODERROR [fmt.S method; fmt.S StringObj].

(** [for _, obj := range args { a.Elements = append(a.Elements, obj) }] *)
Fixpoint Array_push (a : ptr) (args : list Object) : M unit :=
  match args with
  | [] => ret tt
  | obj :: args' =>
      o ← load a;
      match o with
      | Array elements =>
          elements' ← append elements obj;
          store_at a (Array elements');;
          Array_push a args'
      | _ => panic InvalidAddress
      end
  end.

Definition Array_CallMethod (a : ptr) (method : string) (args : list Object)
  : M Object :=
  if streq method "push" then
    Array_push a args;;
    o ← load a;
    match o with
    | Array elements => newObject (Integer (Z.of_nat (len elements)))
    | _ => panic InvalidAddress
    end
  else if streq method "pop" then
    o ← load a;
    match o with
    | Array elements =>
        let l := len elements in
        if (l =? 0)%nat then newErrorf "array is empty" []
        else
          r ← Slice_get elements (Z.of_nat l - 1);
          store_at a (Array (Slice_slice elements 0 (l - 1)));;
          ret r
    | _ => panic InvalidAddress
    end
  else newError NOMETHODERROR [fmt.S method; fmt.S ArrayObj].

(** [obj.CallMethod(method, args...)] on an interface value. *)
Definition CallMethod (obj : Object) (method : string) (args : list Object)
  : M Object :=
  '(p, o) ← deref obj;
  match o with
  | String s => String_CallMethod s method args
  | Array _ => Array_CallMethod p method args
  | _ => newError NOMETHODERROR [fmt.S method; fmt.S (Struct_Type o)]
  end.

(** *** builtins.go: the native functions *)

(** [int64(f)] of a [float64]: the fraction is dropped; the language leaves
    the result to the implementation when the value does not fit. *)
Definition int64_of_float (f : float) : Z :=
  match float_trunc f with
  | Some z =>
      if (- 2 ^ 63 <=? z) && (z <? 2 ^ 63) then z else wrap64 (int64_overflow f)
  | None => wrap64 (int64_overflow f)
  end.

Definition applyBuiltin (fuel : nat) (fn : BuiltinFunction) (args : list Object)
  : M Object :=
  match fn with
  | fn_len =>
      if negb (length args =? 1)%nat then
        newError ARGUMENTNUMERROR [fmt.S "1"; fmt.D (Z.of_nat (length args))]
      else
        a0 ← arg_at args 0;
        t ← typeOf a0;
        match t with
        | Some (_, String v) => newObject (Integer (Z.of_nat (String.length v)))
        | Some (_, Array sl) => newObject (Integer (Z.of_nat (len sl)))
        | Some (_, Hash pairs) => newObject (Integer (Z.of_nat (size pairs)))
        | _ => ty ← Object_Type a0; newError ARGUMENTTYPEERROR [fmt.S "STRING"; fmt.S ty]
        end
  | fn_number =>
      if negb (length args =? 1)%nat then
        newError ARGUMENTNUMERROR [fmt.S "1"; fmt.D (Z.of_nat (length args))]
      else
        a0 ← arg_at args 0;
        t ← typeOf a0;
        match t with
        | Some (_, Integer _) | Some (_, Float _) => ret a0
        | Some (_, String v) =>
            match strconv_Atoi v with
            | Some n => newObject (Integer n)
            | None =>
                match strconv_ParseFloat v with
                | Some f => newObject (Float f)
                | None => newErrorf "%s is not a number" [fmt.S v]
                end
            end
        | _ => ty ← Object_Type a0; newError ARGUMENTTYPEERROR [fmt.S "STRING"; fmt.S ty]
        end
  | fn_string =>
      if negb (length args =? 1)%nat then
        newError ARGUMENTNUMERROR [fmt.S "1"; fmt.D (Z.of_nat (length args))]
      else
        a0 ← arg_at args 0;
        t ← typeOf a0;
        match t with
        | Some (_, String _) => ret a0
        | _ => str ← Object_String fuel a0 0; newObject (String str)
        end
  | fn_int =>
      if negb (length args =? 1)%nat then
        newError ARGUMENTNUMERROR [fmt.S "1"; fmt.D (Z.of_nat (length args))]
      else
        a0 ← arg_at args 0;
        t ← typeOf a0;
        match t with
        | Some (_, Integer _) => ret a0
        | Some (_, Float f) => newObject (Integer (int64_of_float f))
        | Some (_, Boolean b) => newObject (Integer (if b then 1 else 0))
        | Some (_, String v) =>
            match strconv_Atoi v with
            | Some i => newObject (Integer i)
            | None => newErrorf "%s is not an integer" [fmt.S v]
            end
        | _ => str ← Object_String fuel a0 0; newObject (String str)
        end
  | fn_now =>
      if negb (length args =? 0)%nat then
        newError ARGUMENTNUMERROR [fmt.S "0"; fmt.D (Z.of_nat (length args))]
      else
        st ← get; newObject (String (time_Now_Format (ticks st)))
  | fn_print =>
      strs ← mapM (fun arg => Object_String fuel arg 0) args;
      modify (set_stdout (fun out => (out ++ [Join strs ", "])%list));;
      ret (Some NULL)
  end.

(** *** evaluator.go: what does not recurse into [Eval] *)

Definition isNumber (obj : Object) : M bool :=
  t ← Object_Type obj; ret (streq t IntegerObj || streq t FloatObj).

Definition isTruthy (o : Object) : M bool :=
  t ← typeOf o;
  match t with
  | Some (_, Boolean b) => ret b
  | Some (_, Null) => ret false
  | Some (_, Integer v) => ret (negb (v =? 0))
  | Some (_, Float v) => ret (negb (float_is_zero v))
  | _ => ret true
  end.

Definition evalBangExpression (right : Object) : M Object :=
  if decide (right = Some TRUE) then ret (Some FALSE)
  else if decide (right = Some FALSE) then ret (Some TRUE)
  else if decide (right = Some NULL) then ret (Some TRUE)
  else
    t ← typeOf right;
    match t with
    | Some (_, Integer v) => ret (if v =? 0 then Some TRUE else Some FALSE)
    | Some (_, Float v) => ret (if float_is_zero v then Some TRUE else Some FALSE)
    | _ => ret (Some FALSE)
    end.

Definition evalMinusPrefixExpression (right : Object) : M Object :=
  t ← typeOf right;
  match t with
  | Some (_, Integer v) => newObject (Integer (wrap64 (- v)))
  | Some (_, Float v) => newObject (Float (PrimFloat.opp v))
  | _ => ret (Some NULL)
  end.

Definition evalIncrPrefixExpression (right : Object) : M Object :=
  t ← typeOf right;
  match t with
  | Some (r, Integer v) =>
      store_at r (Integer (wrap64 (v + 1)));;
      newObject (Integer (wrap64 (v + 1)))
  | Some (r, Float v) =>
      store_at r (Float (PrimFloat.add v float_one));;
      newObject (Float (PrimFloat.add v float_one))
  | _ => ret (Some NULL)
  end.

Definition evalIncrPostfixExpression (left : Object) : M Object :=
  t ← typeOf left;
  match t with
  | Some (r, Integer v) =>
      store_at r (Integer (wrap64 (v + 1)));;
      newObject (Integer v)
  | Some (r, Float v) =>
      store_at r (Float (PrimFloat.add v float_one));;
      newObject (Float v)
  | _ => ret (Some NULL)
  end.

Definition evalDecrPrefixExpression (right : Object) : M Object :=
  t ← typeOf right;
  match t with
  | Some (r, Integer v) =>
      store_at r (Integer (wrap64 (v - 1)));;
      newObject (Integer (wrap64 (v - 1)))
  | Some (r, Float v) =>
      store_at r (Float (PrimFloat.sub v float_one));;
      newObject (Float (PrimFloat.sub v float_one))
  | _ => ret (Some NULL)
  end.

Definition evalDecrPostfixExpression (left : Object) : M Object :=
  t ← typeOf left;
  match t with
  | Some (r, Integer v) =>
      store_at r (Integer (wrap64 (v - 1)));;
      newObject (Integer v)
  | Some (r, Float v) =>
      store_at r (Float (PrimFloat.sub v float_one));;
      newObject (Float v)
  | _ => ret (Some NULL)
  end.

Definition evalPrefixExpression (op : string) (right : Object) : M Object :=
  t ← Object_Type right;
  if streq t ErrorObj then ret right
  else if streq op "!" then evalBangExpression right
  else if streq op "-" then evalMinusPrefixExpression right
  else if streq op "++" then evalIncrPrefixExpression right
  else if streq op "--" then evalDecrPrefixExpression right
  else newError PREFIXOP [fmt.S op; fmt.S t].

Definition evalPostfixExpression (left : Object) (op : string) : M Object :=
  t ← Object_Type left;
  if streq t ErrorObj then ret left
  else if streq op "++" then evalIncrPostfixExpression left
  else if streq op "--" then evalDecrPostfixExpression left
  else newError POSTFIXOP [fmt.S op; fmt.S t].

Definition evalEquality (left right : Object) : M bool :=
  lty ← Object_Type left;
  rty ← Object_Type right;
  if negb (streq lty rty) then ret false
  else
    '(_, l) ← deref left;
    '(_, r) ← deref right;
    match l, r with
    | Boolean a, Boolean b => ret (eqb a b)
    | Null, _ => ret true
    | Integer a, Integer b => ret (a =? b)
    | Float a, Float b => ret (PrimFloat.eqb a b)
    | String a, String b => ret (streq a b)
    | Boolean _, _ | Integer _, _ | Float _, _ | String _, _ =>
        panic InterfaceConversion
    | _, _ => ret false
    end.

(** The operand of [evalNumberInfixExpression] as a [float64]:
    the conversion [float64(i.Value)] of an Integer, the [Value] of a Float
    (the type assertion to Float panics on anything else). *)
Definition numberValue (o : Struct) : M float :=
  match o with
  | Integer v => ret (float64 v)
  | Float v => ret v
  | _ => panic InterfaceConversion
  end.

Definition evalNumberInfixExpression (left : Object) (op : string) (right : Object)
  : M Object :=
  lty ← Object_Type left;
  rty ← Object_Type right;
  let needInt := streq lty IntegerObj && streq rty IntegerObj in
  '(_, l) ← deref left;
  lv ← numberValue l;
  '(_, r) ← deref right;
  rv ← numberValue r;
  let number (f : float) : M Object :=
    if needInt then newObject (Integer (int64_of_float f)) else newObject (Float f) in
  if streq op "+" then number (PrimFloat.add lv rv)
  else if streq op "-" then number (PrimFloat.sub lv rv)
  else if streq op "*" then number (PrimFloat.mul lv rv)
  else if streq op "/" then
    if float_is_zero rv then newError DIVIDEBYZERO []
    else number (PrimFloat.div lv rv)
  else if streq op "%" then number (math_Mod lv rv)
  else if streq op ">" then ret (nativeBoolToBooleanObject (PrimFloat.ltb rv lv))
  else if streq op ">=" then ret (nativeBoolToBooleanObject (PrimFloat.leb rv lv))
  else if streq op "<" then ret (nativeBoolToBooleanObject (PrimFloat.ltb lv rv))
  else if streq op "<=" then ret (nativeBoolToBooleanObject (PrimFloat.leb lv rv))
  else if streq op "==" then ret (nativeBoolToBooleanObject (PrimFloat.eqb lv rv))
  else if streq op "!=" then
    ret (nativeBoolToBooleanObject (negb (PrimFloat.eqb lv rv)))
  else newError INFIXOP [fmt.S op; fmt.S lty; fmt.S rty].

Definition evalStringInfixExpression (fuel : nat) (left : Object) (op : string)
    (right : Object) : M Object :=
  if streq op "+" then
    l ← Object_String fuel left 0;
    r ← Object_String fuel right 0;
    newObject (String (l +:+ r))
  else
    lty ← Object_Type left;
    rty ← Object_Type right;
    newError INFIXOP [fmt.S op; fmt.S lty; fmt.S rty].

Definition evalInfixExpression (fuel : nat) (left : Object) (op : string)
    (right : Object) : M Object :=
  lty ← Object_Type left;
  if streq lty ErrorObj then ret left
  else
    rty ← Object_Type right;
    if streq rty ErrorObj then ret right
    else if streq op "&&" then
      l ← isTruthy left;
      if (l : bool) then r ← isTruthy right; ret (nativeBoolToBooleanObject r)
      else ret (nativeBoolToBooleanObject false)
    else if streq op "||" then
      l ← isTruthy left;
      if (l : bool) then ret (nativeBoolToBooleanObject true)
      else r ← isTruthy right; ret (nativeBoolToBooleanObject r)
    else
      ln ← isNumber left;
      rn ← if (ln : bool) then isNumber right else ret false;
      if (ln : bool) && rn then evalNumberInfixExpression left op right
      else if streq op "==" then
        b ← evalEquality left right; ret (nativeBoolToBooleanObject b)
      else if streq op "!=" then
        b ← evalEquality left right; ret (nativeBoolToBooleanObject (negb b))
      else if streq lty StringObj || streq rty StringObj then
        evalStringInfixExpression fuel left op right
      else newError INFIXOP [fmt.S op; fmt.S lty; fmt.S rty].

(** *** evaluator.go: assignment to numbers, array elements and hash entries *)

(** Go's [x / y] on [int64]. *)
Definition int64_div (x y : Z) : M Z :=
  if y =? 0 then panic IntegerDivideByZero else ret (wrap64 (Z.quot x y)).

Definition evalNumberAssignExpression (name : string) (oldValue newValue : Object)
    (op : string) (s : sptr) : M Object :=
  nn ← isNumber newValue;
  oty ← Object_Type oldValue;
  nty ← Object_Type newValue;
  if negb nn then newError INFIXOP [fmt.S op; fmt.S oty; fmt.S nty]
  else
    let needInt := streq oty IntegerObj && streq nty IntegerObj in
    '(_, o) ← deref oldValue;
    let oldV := match o with
                | Integer v => float64 v
                | Float v => v
                | _ => PrimFloat.zero
                end in
    '(_, n) ← deref newValue;
    let newV := match n with
                | Integer v => float64 v
                | Float v => v
                | _ => PrimFloat.zero
                end in
    let reset (v : Struct) : M Object :=
      p ← newObject v; '(r, _) ← Scope_Reset s name p; ret r in
    if streq op "+=" then
      if needInt then reset (Integer (wrap64 (int64_of_float oldV + int64_of_float newV)))
      else reset (Float (PrimFloat.add oldV newV))
    else if streq op "-=" then
      if needInt then reset (Integer (wrap64 (int64_of_float oldV - int64_of_float newV)))
      else reset (Float (PrimFloat.sub oldV newV))
    else if streq op "*=" then
      if needInt then reset (Integer (wrap64 (int64_of_float oldV * int64_of_float newV)))
      else reset (Float (PrimFloat.mul oldV newV))
    else if streq op "/=" then
      if needInt then
        if float_is_zero newV then newError DIVIDEBYZERO []
        else
          q ← int64_div (int64_of_float oldV) (int64_of_float newV);
          reset (Integer q)
      else reset (Float (PrimFloat.div oldV newV))
    else newError INFIXOP [fmt.S op; fmt.S oty; fmt.S nty].

(** [updateArray] and [updateHash] run the same text on the element they
    update; they differ in how the element is read ([objects[idx]],
    [hash.Pairs[hashkey].Value]) and written ([objects[idx] = v],
    [hash.Pairs[hashkey] = HashPair{Key: key, Value: v}]).  [updateElement]
    is that text, from the [switch old := ...] on. *)
Definition updateElement (fuel : nat) (read : M Object) (write : Object -> M unit)
    (op : string) (newValue : Object) : M Object :=
  let mismatch : M Object :=
    cur ← read;
    cty ← Object_Type cur;
    nty ← Object_Type newValue;
    newError INFIXOP [fmt.S op; fmt.S cty; fmt.S nty] in
  old ← read;
  t ← typeOf old;
  match t with
  | Some (p, Integer v) =>
      let arith (fi : Z -> Z -> M Z) (ff : float -> float -> float) (division : bool)
          : M Object :=
        nty ← Object_Type newValue;
        '(_, n) ← deref newValue;
        match n with
        | Integer w =>
            if division && (w =? 0) then newError DIVIDEBYZERO []
            else r ← fi v w; store_at p (Integer r);; ret old
        | Float w =>
            if division && float_is_zero w then newError DIVIDEBYZERO []
            else
              f ← newObject (Float (ff (float64 v) w));
              write f;;
              read
        | _ => newError INFIXOP [fmt.S op; fmt.S IntegerObj; fmt.S nty]
        end in
      if streq op "+=" then arith (fun a b => ret (wrap64 (a + b))) PrimFloat.add false
      else if streq op "-=" then arith (fun a b => ret (wrap64 (a - b))) PrimFloat.sub false
      else if streq op "*=" then arith (fun a b => ret (wrap64 (a * b))) PrimFloat.mul false
      else if streq op "/=" then arith int64_div PrimFloat.div true
      else mismatch
  | Some (p, Float v) =>
      let arith (ff : float -> float -> float) (division : bool) : M Object :=
        nty ← Object_Type newValue;
        '(_, n) ← deref newValue;
        match n with
        | Integer w =>
            if division && (w =? 0) then newError DIVIDEBYZERO []
            else store_at p (Float (ff v (float64 w)));; ret old
        | Float w =>
            if division && float_is_zero w then newError DIVIDEBYZERO []
            else store_at p (Float (ff v w));; ret old
        | _ => ret old
        end in
      if streq op "+=" then arith PrimFloat.add false
      else if streq op "-=" then arith PrimFloat.sub false
      else if streq op "*=" then arith PrimFloat.mul false
      else if streq op "/=" then arith PrimFloat.div true
      else mismatch
  | Some (p, String v) =>
      if streq op "+=" then
        str ← Object_String fuel newValue 0;
        store_at p (String (v +:+ str));;
        ret old
      else mismatch
  | _ => mismatch
  end.

Definition updateArray (fuel : nat) (objects : Slice) (idx : Z) (op : string)
    (newValue : Object) : M Object :=
  if streq op "=" then
    Slice_set objects idx newValue;;
    ret newValue
  else
    updateElement fuel (Slice_get objects idx) (Slice_set objects idx) op newValue.

(** [h] is the address of the [*Hash]; its map is read again at every use,
    as the Go code reads [hash.Pairs]. *)
Definition loadHash (h : ptr) : M (gmap HashKey HashPair) :=
  o ← load h;
  match o with
  | Hash pairs => ret pairs
  | _ => panic InvalidAddress
  end.

Definition updateHash (fuel : nat) (h : ptr) (k : Object) (op : string)
    (newValue : Object) : M Object :=
  hk ← hashable k;
  match hk with
  | None => kty ← Object_Type k; newError NOTHASHABLE [fmt.S kty]
  | Some hashkey =>
      let read : M Object :=
        pairs ← loadHash h;
        ret (match pairs !! hashkey with
             | Some kv => HashPair_Value kv
             | None => None
             end) in
      let write (v : Object) : M unit :=
        pairs ← loadHash h;
        store_at h (Hash (<[hashkey := {| HashPair_Key := k; HashPair_Value := v |}]> pairs)) in
      if streq op "=" then
        write newValue;;
        ret newValue
      else updateElement fuel read write op newValue
  end.

(** *** evaluator.go: indices *)

Definition calcIndex (max : Z) (idxExpr : Object) (end_ : bool)
  : M (Z * option ptr) :=
  t ← typeOf idxExpr;
  match t with
  | Some (_, Integer v) =>
      let idx := v in
      let max := if end_ then max + 1 else max in
      let originIdx := idx in
      let idx := if idx <? 0 then idx + max else idx in
      if idx >=? max then
        e ← new (Error (errorMsg INDEXERROR [fmt.D originIdx; fmt.D 0; fmt.D (max - 1)]));
        ret (idx, Some e)
      else if idx <? 0 then
        e ← new (Error (errorMsg INDEXERROR [fmt.D originIdx; fmt.D (-1); fmt.D (- max)]));
        ret (idx, Some e)
      else ret (idx, None)
  | _ =>
      e ← new (Error (errorMsg INDEXINT []));
      ret (0, Some e)
  end.

(** *** evaluator.go: what recurses into [Eval]

    [context.Context]: a context is done from a given tick on, or never
    ([context.Background()]). *)
Record Context := { deadline : option nat }.

Definition Background : Context := {| deadline := None |}.

(** Whether a receive from [ctx.Done()] is ready at a given tick. *)
Definition Context_Done (ctx : Context) (now : nat) : bool :=
  match deadline ctx with
  | Some d => (d <=? now)%nat
  | None => false
  end.

(** The functions below call [Eval]; they take it as [E], the evaluator with
    one unit of fuel less.  A [fuel] argument bounds the iterations of a
    loop, or is passed on to [String(stack)]. *)
Definition EvalT : Type := Context -> option Node -> sptr -> M Object.

Section Recursion.

Variable E : EvalT.
Variable ctx : Context.

Definition evalBlock (body : BlockStatement) (s : sptr) : M Object :=
  E ctx (Some (Stmt (BlockStmt body))) s.

Definition evalExpr (e : option Expression) (s : sptr) : M Object :=
  E ctx (Expr <$> e) s.

Fixpoint evalProgram (stmts : list Statement) (s : sptr) (result : Object)
  : M Object :=
  match stmts with
  | [] => ret result
  | ExpressionStatement _ None :: rest => evalProgram rest s result
  | stmt :: rest =>
      result ← E ctx (Some (Stmt stmt)) s;
      t ← typeOf result;
      match t with
      | Some (_, ReturnValue v) => ret v
      | Some (_, Error _) => ret result
      | _ => evalProgram rest s result
      end
  end.

Fixpoint evalBlockStatement (stmts : list Statement) (s : sptr) (result : Object)
  : M Object :=
  match stmts with
  | [] => ret result
  | ExpressionStatement _ None :: rest => evalBlockStatement rest s result
  | statement :: rest =>
      result ← E ctx (Some (Stmt statement)) s;
      match result with
      | Some _ =>
          typ ← Object_Type result;
          if streq typ ReturnValueObj || streq typ ErrorObj then ret result
          else if streq typ BreakObj then ret result
          else if streq typ ContinueObj then ret result
          else evalBlockStatement rest s result
      | None => evalBlockStatement rest s result
      end
  end.

Definition evalLetStatement (Name : option Identifier) (Value : option Expression)
    (s : sptr) : M Object :=
  match Name with
  | None => panic NilDereference
  | Some name =>
      '(_, ok) ← Scope_GetCurrent s (Identifier_Value name);
      if (ok : bool) then newError REDEFINE [fmt.S (Identifier_Value name)]
      else
        v ← evalExpr Value s;
        vty ← Object_Type v;
        if negb (streq vty ErrorObj) then Scope_Set s (Identifier_Value name) v
        else ret v
  end.

Definition evalDeleteStatement (value : option Expression) (s : sptr) : M Object :=
  match value with
  | Some (Ident deleted) =>
      old ← evalExpr value s;
      Scope_Delete s (Identifier_Value deleted);;
      ret old
  | Some (IndexExpression _ Left Index) =>
      lft ← evalExpr Left s;
      index ← evalExpr Index s;
      t ← typeOf lft;
      match t with
      | Some (_, Array elements) =>
          '(i, e) ← calcIndex (Z.of_nat (len elements)) index false;
          match e with
          | Some err => ret (Some err)
          | None =>
              old ← Slice_get elements i;
              Slice_set elements i (Some NULL);;
              ret old
          end
      | Some (l, Hash pairs) =>
          hk ← hashable index;
          match hk with
          | Some hashkey =>
              match pairs !! hashkey with
              | None => ret (Some NULL)
              | Some old =>
                  store_at l (Hash (delete hashkey pairs));;
                  ret (HashPair_Value old)
              end
          | None => ret (Some NULL)
          end
      | _ => ret (Some NULL)
      end
  | Some v =>
      match Expression_String v with
      | Some str => newError NOTLVALUE [fmt.S str]
      | None => panic NilDereference
      end
  | None => panic NilDereference
  end.

Definition evalIfExpression (Condition : option Expression)
    (Consequence : BlockStatement) (Alternative : option BlockStatement) (s : sptr)
  : M Object :=
  cond ← evalExpr Condition s;
  c ← isTruthy cond;
  if (c : bool) then evalBlock Consequence s
  else
    match Alternative with
    | Some alt => evalBlock alt s
    | None => ret (Some NULL)
    end.

(** What both loops return once they are left:
    [if result == nil || result.Type() == BreakObj || result.Type() == ContinueObj] *)
Definition loopResult (result : Object) : M Object :=
  match result with
  | None => ret (Some NULL)
  | Some _ =>
      t ← Object_Type result;
      if streq t BreakObj || streq t ContinueObj then ret (Some NULL) else ret result
  end.

(** [for isTruthy(condition) { ... }] of [evalWhileExpression] *)
Fixpoint whileLoop (fuel : nat) (Condition : option Expression) (Body : BlockStatement)
    (innerScope : sptr) (condition result : Object) : M Object :=
  match fuel with
  | O => out_of_fuel
  | S fuel' =>
      c ← isTruthy condition;
      if (c : bool) then
        result ← evalBlock Body innerScope;
        rty ← Object_Type result;
        if streq rty ErrorObj then ret result
        else
          '(_, r) ← deref result;
          match r with
          | Break => loopResult result
          | Continue => whileLoop fuel' Condition Body innerScope condition result
          | ReturnValue (Some _) => ret result
          | ReturnValue None => loopResult result
          | _ =>
              condition ← evalExpr Condition innerScope;
              cty ← Object_Type condition;
              if streq cty ErrorObj then ret condition
              else whileLoop fuel' Condition Body innerScope condition result
          end
      else loopResult result
  end.

Definition evalWhileExpression (fuel : nat) (Condition : option Expression)
    (Body : BlockStatement) (scope : sptr) : M Object :=
  innerScope ← NewScope (Some scope);
  condition ← evalExpr Condition innerScope;
  cty ← Object_Type condition;
  if streq cty ErrorObj then ret condition
  else whileLoop fuel Condition Body innerScope condition None.

(** [for isTruthy(condition) { ... }] of [evalForExpression] *)
Fixpoint forLoop (fuel : nat) (Condition Update : option Expression)
    (Body : BlockStatement) (innerScope : sptr) (condition result : Object)
  : M Object :=
  match fuel with
  | O => out_of_fuel
  | S fuel' =>
      c ← isTruthy condition;
      if (c : bool) then
        newSubScope ← NewScope (Some innerScope);
        result ← evalBlock Body newSubScope;
        t ← typeOf result;
        match t with
        | Some (_, Error _) => ret result
        | Some (_, Break) => loopResult result
        | Some (_, Continue) =>
            newVal ← evalExpr Update newSubScope;
            nty ← Object_Type newVal;
            if streq nty ErrorObj then ret newVal
            else
              condition ← evalExpr Condition newSubScope;
              cty ← Object_Type condition;
              if streq cty ErrorObj then ret condition
              else forLoop fuel' Condition Update Body innerScope condition result
        | Some (_, ReturnValue (Some _)) => ret result
        | Some (_, ReturnValue None) => loopResult result
        | _ =>
            updated ←
              match Update with
              | Some _ =>
                  newVal ← evalExpr Update newSubScope;
                  nty ← Object_Type newVal;
                  if streq nty ErrorObj then ret (Some newVal) else ret None
              | None => ret None
              end;
            match updated with
            | Some newVal => ret newVal
            | None =>
                match Condition with
                | Some _ =>
                    condition ← evalExpr Condition newSubScope;
                    cty ← Object_Type condition;
                    if streq cty ErrorObj then ret condition
                    else forLoop fuel' Condition Update Body innerScope condition result
                | None =>
                    forLoop fuel' Condition Update Body innerScope condition result
                end
            end
        end
      else loopResult result
  end.

Definition evalForExpression (fuel : nat) (Init : option Node)
    (Condition Update : option Expression) (Body : BlockStatement) (s : sptr)
  : M Object :=
  innerScope ← NewScope (Some s);
  failed ←
    match Init with
    | Some _ =>
        init ← E ctx Init innerScope;
        ity ← Object_Type init;
        if streq ity ErrorObj then ret (Some init) else ret None
    | None => ret None
    end;
  match failed with
  | Some init => ret init
  | None =>
      match Condition with
      | Some _ =>
          condition ← evalExpr Condition innerScope;
          cty ← Object_Type condition;
          if streq cty ErrorObj then ret condition
          else forLoop fuel Condition Update Body innerScope condition None
      | None => forLoop fuel Condition Update Body innerScope None None
      end
  end.

Definition evalIdentifier (node : Identifier) (s : sptr) : M Object :=
  let key := Identifier_Value node in
  '(v, ok) ← Scope_Get s key;
  if (ok : bool) then ret v
  else
    match builtins !! key with
    | Some b => ret (Some b)
    | None => newError UNKNOWNIDENT [fmt.S key]
    end.

Definition evalTypeofExpression (Expr : option Expression) (s : sptr) : M Object :=
  v ← evalExpr Expr s;
  t ← Object_Type v;
  newObject (String t).

(** The loop of [evalAssignExpression] that walks down the [Left] of nested
    index expressions to the first node that is not an index expression. *)
Fixpoint innermostLeft (e : Expression) : option Expression :=
  match e with
  | IndexExpression _ (Some l) _ => innermostLeft l
  | IndexExpression _ None _ => None
  | _ => Some e
  end.

Definition evalArrayIndexExpressionFunc (fuel : nat) (Left Index : option Expression)
    (s : sptr) (op : string) (newValue : Object) (f : Slice -> Z -> M Object)
  : M Object :=
  lft ← evalExpr Left s;
  lty ← Object_Type lft;
  if streq lty ErrorObj then ret lft
  else
    index ← evalExpr Index s;
    ity ← Object_Type index;
    if streq ity ErrorObj then ret index
    else
      '(l, o) ← deref lft;
      match o with
      | Array elements =>
          let length := Z.of_nat (len elements) in
          '(i, e) ← calcIndex length index false;
          match e with
          | Some err => ret (Some err)
          | None => f elements i
          end
      | String _ => newErrorf "string is immutable" []
      | Hash _ => updateHash fuel l index op newValue
      | _ =>
          str ← Object_String fuel lft 0;
          newErrorf "%s is not a hash" [fmt.S str]
      end.

Definition evalHashIndexExpressionFunc (fuel : nat) (Left Index : option Expression)
    (s : sptr) (op : string) (newValue : Object) (f : ptr -> Object -> M Object)
  : M Object :=
  lft ← evalExpr Left s;
  lty ← Object_Type lft;
  if streq lty ErrorObj then ret lft
  else
    index ← evalExpr Index s;
    ity ← Object_Type index;
    if streq ity ErrorObj then ret index
    else
      '(l, o) ← deref lft;
      match o with
      | String _ => newErrorf "string is immutable" []
      | Hash _ => f l index
      | Array objects =>
          t ← typeOf index;
          match t with
          | Some (_, Integer idx) => updateArray fuel objects idx op newValue
          | _ => newError INDEXINT []
          end
      | _ =>
          str ← Object_String fuel lft 0;
          newErrorf "%s is not a hash" [fmt.S str]
      end.

Definition evalAssignExpression (fuel : nat) (tok : Token)
    (Name Value : option Expression) (s : sptr) : M Object :=
  newValue ← evalExpr Value s;
  nty ← Object_Type newValue;
  if streq nty ErrorObj then ret newValue
  else
    '(name, oldValue) ←
      match Name with
      | Some (Ident nodeType) => ret (Identifier_Value nodeType, None)
      | Some (IndexExpression _ Left _) =>
          let lft := Left ≫= innermostLeft in
          match lft with
          | Some (Ident ident) => ret (Identifier_Value ident, None)
          | _ => v ← evalExpr lft s; ret ("", v)
          end
      | _ => ret ("", None)
      end;
    found ←
      match oldValue with
      | Some _ => ret (Some oldValue)
      | None =>
          '(v, ok) ← Scope_Get s name;
          ret (if (ok : bool) then Some v else None)
      end;
    match found with
    | None => newError UNKNOWNIDENT [fmt.S name]
    | Some oldValue =>
        let op := Literal tok in
        let other : M Object :=
          oty ← Object_Type oldValue;
          if streq oty IntegerObj || streq oty FloatObj then
            evalNumberAssignExpression name oldValue newValue op s
          else if streq oty StringObj then
            match Name with
            | Some (IndexExpression _ _ _) => newErrorf "string is immutable" []
            | _ =>
                if streq op "+=" && streq nty StringObj then
                  '(_, o) ← deref oldValue;
                  '(_, n) ← deref newValue;
                  match o, n with
                  | String a, String b =>
                      p ← newObject (String (a +:+ b));
                      '(v, _) ← Scope_Reset s name p;
                      ret v
                  | _, _ => panic InterfaceConversion
                  end
                else newError INFIXOP [fmt.S op; fmt.S oty; fmt.S nty]
            end
          else if streq oty ArrayObj then
            match Name with
            | Some (IndexExpression _ Left Index) =>
                evalArrayIndexExpressionFunc fuel Left Index s op newValue
                  (fun objects idx => updateArray fuel objects idx op newValue)
            | _ => panic InterfaceConversion
            end
          else if streq oty HashObj then
            match Name with
            | Some (IndexExpression _ Left Index) =>
                evalHashIndexExpressionFunc fuel Left Index s op newValue
                  (fun hash key => updateHash fuel hash key op newValue)
            | _ => panic InterfaceConversion
            end
          else newError INFIXOP [fmt.S op; fmt.S oty; fmt.S nty] in
        if streq op "=" then
          match Name with
          | Some (Ident nodeType) =>
              '(v, _) ← Scope_Reset s (Identifier_Value nodeType) newValue;
              ret v
          | _ => other
          end
        else other
    end.

Definition evalStringIndexExpression (Left Index : option Expression) (s : sptr)
  : M Object :=
  lft ← evalExpr Left s;
  lty ← Object_Type lft;
  if streq lty ErrorObj then ret lft
  else
    index ← evalExpr Index s;
    ity ← Object_Type index;
    if streq ity ErrorObj then ret index
    else
      '(_, o) ← deref lft;
      match o with
      | String str =>
          let length := Z.of_nat (String.length str) in
          '(i, e) ← calcIndex length index false;
          match e with
          | Some err => ret (Some err)
          | None =>
              match String.get (Z.to_nat i) str with
              | Some b => newObject (String (string_of_byte b))
              | None => panic (IndexOutOfRange i length)
              end
          end
      | _ => panic InterfaceConversion
      end.

Definition evalSliceExpression (obj : Object) (Start End : option Expression)
    (s : sptr) : M Object :=
  t ← typeOf obj;
  sized ←
    match t with
    | Some (_, Array elements) => ret (Some (Z.of_nat (len elements)))
    | Some (_, String v) => ret (Some (Z.of_nat (String.length v)))
    | _ => ret None
    end;
  match sized with
  | None => oty ← Object_Type obj; newError NOINDEXERROR [fmt.S oty]
  | Some l =>
      start ← evalExpr Start s;
      sty ← Object_Type start;
      if streq sty ErrorObj then ret start
      else
        '(startIdx, e) ← calcIndex l start false;
        match e with
        | Some err => ret (Some err)
        | None =>
            bound ←
              match End with
              | Some _ =>
                  end_ ← evalExpr End s;
                  ety ← Object_Type end_;
                  if streq ety ErrorObj then ret (inl end_)
                  else
                    '(endIdx, e) ← calcIndex l end_ true;
                    match e with
                    | Some err => ret (inl (Some err))
                    | None => ret (inr endIdx)
                    end
              | None => ret (inr l)
              end;
            match bound with
            | inl r => ret r
            | inr endIdx =>
                if startIdx >? endIdx then
                  newError SLICEERROR [fmt.D startIdx; fmt.D endIdx]
                else
                  '(_, o) ← deref obj;
                  match o with
                  | Array elements =>
                      if endIdx <=? Z.of_nat (cap elements) then
                        newObject
                          (Array (Slice_slice elements (Z.to_nat startIdx)
                                    (Z.to_nat endIdx)))
                      else panic (IndexOutOfRange endIdx (Z.of_nat (cap elements)))
                  | String v =>
                      if endIdx <=? Z.of_nat (String.length v) then
                        newObject
                          (String (String.substring (Z.to_nat startIdx)
                                     (Z.to_nat (endIdx - startIdx)) v))
                      else panic (IndexOutOfRange endIdx (Z.of_nat (String.length v)))
                  | _ => oty ← Object_Type obj; newError NOINDEXERROR [fmt.S oty]
                  end
            end
        end
  end.

Definition evalIndexExpression (fuel : nat) (Left Index : option Expression)
    (s : sptr) : M Object :=
  e ← evalExpr Left s;
  match Index with
  | Some (SliceExpression _ Start End) => evalSliceExpression e Start End s
  | _ =>
      t ← typeOf e;
      match t with
      | Some (_, Array _) =>
          evalArrayIndexExpressionFunc fuel Left Index s "" None
            (fun arr idx => Slice_get arr idx)
      | Some (_, String _) => evalStringIndexExpression Left Index s
      | Some (_, Hash _) =>
          evalHashIndexExpressionFunc fuel Left Index s "" None
            (fun hash key =>
               hk ← hashable key;
               match hk with
               | Some hashkey =>
                   pairs ← loadHash hash;
                   match pairs !! hashkey with
                   | Some kv => ret (HashPair_Value kv)
                   | None => ret (Some NULL)
                   end
               | None => kty ← Object_Type key; newError NOTHASHABLE [fmt.S kty]
               end)
      | _ => ety ← Object_Type e; newError NOINDEXERROR [fmt.S ety]
      end
  end.

Fixpoint evalExpressions (expressions : list (option Expression)) (s : sptr)
    (results : list Object) : M (list Object) :=
  match expressions with
  | [] => ret results
  | argument :: rest =>
      result ← evalExpr argument s;
      rty ← Object_Type result;
      if streq rty ErrorObj then ret [result]
      else evalExpressions rest s (results ++ [result])%list
  end.

(** [for i, param := range function.Parameters { sub.Set(param.Value, args[i]) }] *)
Fixpoint bindParameters (sub : sptr) (params : list Identifier) (i : nat)
    (args : list Object) : M unit :=
  match params with
  | [] => ret tt
  | param :: rest =>
      a ← arg_at args i;
      Scope_Set sub (Identifier_Value param) a;;
      bindParameters sub rest (S i) args
  end.

Definition applyFunction (fuel : nat) (funcObj : Object) (args : list Object)
  : M Object :=
  t ← typeOf funcObj;
  match t with
  | Some (_, Function Parameters Body Scope) =>
      sub ← NewScope (Some Scope);
      bindParameters sub Parameters 0 args;;
      result ← evalBlock Body sub;
      t ← typeOf result;
      match t with
      | Some (_, ReturnValue v) => ret v
      | _ => ret result
      end
  | Some (_, Builtin Fn) => applyBuiltin fuel Fn args
  | _ =>
      str ← Object_String fuel funcObj 0;
      newError NOTFUNC [fmt.S str]
  end.

Definition evalCallExpression (fuel : nat) (Fn : option Expression)
    (Arguments : list (option Expression)) (s : sptr) : M Object :=
  function ← evalExpr Fn s;
  fty ← Object_Type function;
  if streq fty ErrorObj then ret function
  else
    args ← evalExpressions Arguments s [];
    failed ←
      match args with
      | [a] => aty ← Object_Type a; ret (streq aty ErrorObj)
      | _ => ret false
      end;
    if (failed : bool) then arg_at args 0
    else applyFunction fuel function args.

(** The slice a nil [[]Object] stands for until it is assigned. *)
Definition nilSlice : Slice := {| base := 0%nat; off := 0; len := 0; cap := 0 |}.

Fixpoint evalElements (exprs : list (option Expression)) (s : sptr)
    (elements : Slice) : M Slice :=
  match exprs with
  | [] => ret elements
  | expr :: rest =>
      v ← evalExpr expr s;
      elements' ← append elements v;
      evalElements rest s elements'
  end.

Definition evalArrayLiteral (Elements : list (option Expression)) (s : sptr)
  : M Object :=
  arr ← new (Array nilSlice);
  elements ← make0;
  elements ← evalElements Elements s elements;
  store_at arr (Array elements);;
  ret (Some arr).

Definition evalMethodCallExpression (node : Expression) (Object_ Call : option Expression)
    (s : sptr) : M Object :=
  obj ← evalExpr Object_ s;
  match Call with
  | Some (CallExpression _ Fn Arguments) =>
      args ← evalExpressions Arguments s [];
      match Fn ≫= Expression_String with
      | Some name => CallMethod obj name args
      | None => panic NilDereference
      end
  | _ =>
      match Expression_String node with
      | Some str => oty ← Object_Type obj; newError NOMETHODERROR [fmt.S str; fmt.S oty]
      | None => panic NilDereference
      end
  end.

Fixpoint evalPairs (Pairs : list (option Expression * option Expression)) (s : sptr)
    (hashMap : gmap HashKey HashPair) : M Object :=
  match Pairs with
  | [] => newObject (Hash hashMap)
  | (key, value) :: rest =>
      k ← match key with
          | Some (Ident ident) => newObject (String (Identifier_Value ident))
          | _ => evalExpr key s
          end;
      hk ← hashable k;
      match hk with
      | Some hashkey =>
          v ← evalExpr value s;
          evalPairs rest s (<[hashkey := {| HashPair_Key := k; HashPair_Value := v |}]> hashMap)
      | None => kty ← Object_Type k; newError NOTHASHABLE [fmt.S kty]
      end
  end.

Definition evalHashLiteral (Pairs : list (option Expression * option Expression))
    (s : sptr) : M Object :=
  evalPairs Pairs s ∅.

(** The [switch node := node.(type)] of [Eval]. *)
Definition evalNode (fuel : nat) (node : option Node) (s : sptr) : M Object :=
  match node with
  | Some (Program Statements) => evalProgram Statements s None
  | Some (Stmt (ExpressionStatement _ Expression)) => evalExpr Expression s
  | Some (Stmt (BlockStmt (Block _ Statements))) => evalBlockStatement Statements s None
  | Some (Stmt (ReturnStatement _ ReturnValue_)) =>
      v ← evalExpr ReturnValue_ s; newObject (ReturnValue v)
  | Some (Stmt (LetStatement _ Name Value)) => evalLetStatement Name Value s
  | Some (Stmt (DeleteStatement _ Value)) => evalDeleteStatement Value s
  | Some (Expr (IntegerLiteral _ Value)) => newObject (Integer Value)
  | Some (Expr (FloatLiteral _ Value)) => newObject (Float Value)
  | Some (Expr (BooleanLiteral _ Value)) => ret (nativeBoolToBooleanObject Value)
  | Some (Expr (StringLiteral _ Value)) => newObject (String Value)
  | Some (Expr (ArrayLiteral _ Elements)) => evalArrayLiteral Elements s
  | Some (Expr (HashLiteral _ Pairs)) => evalHashLiteral Pairs s
  | Some (Expr (NullExpression _)) => ret (Some NULL)
  | Some (Expr (FunctionLiteral _ Parameters Body)) =>
      newObject (Function Parameters Body s)
  | Some (Expr (PrefixExpression _ Operator Right)) =>
      r ← evalExpr Right s; evalPrefixExpression Operator r
  | Some (Expr (InfixExpression _ Left Operator Right)) =>
      l ← evalExpr Left s;
      r ← evalExpr Right s;
      evalInfixExpression fuel l Operator r
  | Some (Expr (PostfixExpression _ Operator Left)) =>
      l ← evalExpr Left s; evalPostfixExpression l Operator
  | Some (Expr (IfExpression _ Condition Consequence Alternative)) =>
      evalIfExpression Condition Consequence Alternative s
  | Some (Expr (WhileExpression _ Condition Body)) =>
      evalWhileExpression fuel Condition Body s
  | Some (Expr (BreakExpression _)) => ret (Some BREAK)
  | Some (Expr (ContinueExpression _)) => ret (Some CONTINUE)
  | Some (Expr (ForExpression _ Init Condition Update Body)) =>
      evalForExpression fuel Init Condition Update Body s
  | Some (Expr (Ident node)) => evalIdentifier node s
  | Some (Expr (TypeofExpression _ Expr_)) => evalTypeofExpression Expr_ s
  | Some (Expr (AssignExpression tok Name Value)) =>
      evalAssignExpression fuel tok Name Value s
  | Some (Expr (CallExpression _ Fn Arguments)) =>
      evalCallExpression fuel Fn Arguments s
  | Some (Expr (MethodCallExpression _ Object_ Call as node)) =>
      evalMethodCallExpression node Object_ Call s
  | Some (Expr (IndexExpression _ Left Index)) => evalIndexExpression fuel Left Index s
  | Some (Expr (SliceExpression _ _ _)) => ret None
  | None => ret None
  end.

End Recursion.

(** [Eval]: the context is looked at first, then the node is dispatched on.
    Every entry counts one tick.  Each call of [Eval] from the functions
    above costs one unit of [fuel], so [fuel] bounds the depth of the
    recursion (and the iterations of each loop). *)
Fixpoint Eval (fuel : nat) (ctx : Context) (node : option Node) (s : sptr)
  : M Object :=
  match fuel with
  | O => out_of_fuel
  | S fuel' =>
      st ← get;
      modify (set_ticks S);;
      if Context_Done ctx (ticks st) then newError TIMEOUT []
      else evalNode (Eval fuel') ctx fuel' node s
  end.

(** *** evaluator_test.go: [testEval]

    The input is parsed, the parser's errors are not looked at, and the
    program is evaluated in a new scope under [context.Background()]. *)
Definition testEval (fuel : nat) (input : string) : Result Object :=
  match parser.Parse fuel input with
  | parser.Ok (program, _) _ =>
      (s ← NewScope None; Eval fuel Background (Some (Program program)) s) init_state
  | parser.Panic => Panic NilDereference
  | parser.OutOfFuel => OutOfFuel
  end.

End WithRuntime.

(** The struct a returned object points to. *)
Definition struct_of (r : Result Object) : option Struct :=
  match r with
  | Ok (Some p) st => objects st !! p
  | _ => None
  end.

(** The state after [&Error{Msg: msg}] is allocated. *)
Definition with_error (st : State) (msg : string) : State :=
  set_objects (fun l => (l ++ [Error msg])%list) st.

End evaluator.

(** ** Plain descriptions of what the code computes *)

Module spec.

Import evaluator.

(** Truthiness: false for the Boolean false, Null, and a numeric zero;
    everything else is true. *)
Definition truthy (o : Struct) : bool :=
  match o with
  | Boolean b => b
  | Null => false
  | Integer v => negb (v =? 0)
  | Float v => negb (float_is_zero v)
  | _ => true
  end.

(** Whether a struct is a number, and its value as a [float64]. *)
Definition number (o : Struct) : option float :=
  match o with
  | Integer v => Some (float64 v)
  | Float v => Some v
  | _ => None
  end.

(** Equality as the evaluator decides it: two numbers are compared as
    [float64]s, whatever their kinds; otherwise only two Booleans, two
    Nulls or two Strings can be equal. *)
Definition equal (l r : Struct) : bool :=
  match number l, number r with
  | Some a, Some b => PrimFloat.eqb a b
  | _, _ =>
      match l, r with
      | Boolean a, Boolean b => eqb a b
      | Null, Null => true
      | String a, String b => bool_decide (a = b)
      | _, _ => false
      end
  end.

(** Whether the index of an index expression is a slice expression. *)
Definition is_slice (Index : option ast.Expression) : bool :=
  match Index with
  | Some (ast.SliceExpression _ _ _) => true
  | _ => false
  end.

(** A number one more ([up]) or one less: what [++] and [--] leave in the
    object they are applied to.  An Integer wraps around. *)
Definition step (up : bool) (o : Struct) : Struct :=
  match o with
  | Integer v => Integer (wrap64 (if up then v + 1 else v - 1))
  | Float v =>
      Float (if up then PrimFloat.add v float_one else PrimFloat.sub v float_one)
  | _ => o
  end.

(** [reaches st key s target n]: going up [n] frames from [s], through
    frames that do not bind [key] to an object, one is at [target]. *)
Inductive reaches (st : State) (key : string) : sptr -> sptr -> nat -> Prop :=
| reaches_here s : reaches st key s s 0
| reaches_up s sc parent target n :
    scopes st !! s = Some sc ->
    store sc !! key = None \/ store sc !! key = Some None ->
    parentScope sc = Some parent ->
    reaches st key parent target n ->
    reaches st key s target (S n).

(** A slice lies within its array: its length is at most its capacity,
    and its capacity ends within the array. *)
Definition within (sl : Slice) (backing : list Object) : Prop :=
  (len sl <= cap sl)%nat /\ (off sl + cap sl <= length backing)%nat.

(** The structs that no code writes into: all but the numbers, which [++]
    and the compound assignments to an element update, the Strings, which
    [+=] on an element extends, and the Arrays and Hashes. *)
Definition immutable (o : Struct) : bool :=
  match o with
  | Integer _ | Float _ | String _ | Array _ | Hash _ => false
  | _ => true
  end.

(** [extends st st']: what [st] holds is still there in [st'].  Every
    object is at its address, of the type it had, and as it was when it is
    [immutable]; every array is at its address, of the length it had;
    every frame is at its address, with the parent it had; the clock has
    not gone back; the output has only been added to. *)
Definition extends (st st' : State) : Prop :=
  (forall p o, objects st !! p = Some o ->
     exists o', objects st' !! p = Some o'
                /\ Struct_Type o' = Struct_Type o
                /\ (immutable o = true -> o' = o))
  /\ (forall a l, arrays st !! a = Some l ->
      exists l', arrays st' !! a = Some l' /\ length l' = length l)
  /\ (forall s sc, scopes st !! s = Some sc ->
      exists sc', scopes st' !! s = Some sc' /\ parentScope sc' = parentScope sc)
  /\ (ticks st <= ticks st')%nat
  /\ stdout st `prefix_of` stdout st'.

(** A negative index counts from the end: [idx += max]. *)
Definition norm (max i : Z) : Z := if i <? 0 then i + max else i.

End spec.

(** ** package stang: the driver *)

Module stang.

Import evaluator.

Section WithRuntime.

Context `{rt : GoRuntime}.

(** What a run of [RunProgram] comes to: the two values it returns, or a
    panic of the parser or of the evaluator, or the fuel running out. *)
Inductive Run :=
| Returns (result : string) (err : option string)
| ParserPanics
| Panics (c : Crash)
| Unfinished.

(** [RunProgram(sourcecode)], under a context [ctx] for the three seconds'
    timeout.  [out] also gives what the run printed. *)
Definition RunProgram_out (fuel : nat) (ctx : Context) (sourcecode : string)
  : Run * list string :=
  match parser.Parse fuel sourcecode with
  | parser.Ok (program, errs) _ =>
      match errs with
      | e :: _ => (Returns "" (Some e), [])
      | [] =>
          match
            (scope ← NewScope None;
             e ← Eval fuel ctx (Some (ast.Program program)) scope;
             Object_String fuel e 0) init_state
          with
          | Ok str st => (Returns str None, stdout st)
          | Panic c => (Panics c, [])
          | OutOfFuel => (Unfinished, [])
          end
      end
  | parser.Panic => (ParserPanics, [])
  | parser.OutOfFuel => (Unfinished, [])
  end.

Definition RunProgram (fuel : nat) (ctx : Context) (sourcecode : string) : Run :=
  (RunProgram_out fuel ctx sourcecode).1.

End WithRuntime.

End stang.

(** ** A runtime to run programs with

    [go_runtime] fills [GoRuntime] in the way a 64-bit Go toolchain behaves
    on the inputs the examples below use: decimal literals, ASCII text,
    slices that double when they grow, maps ranged over in key order.  It is
    used to run closed programs only; the general theorems hold for every
    [GoRuntime]. *)

Module runtime.

Definition digit (c : ascii) : option Z :=
  let n := Z.of_nat (nat_of_ascii c) in
  if (48 <=? n) && (n <=? 57) then Some (n - 48) else None.

Fixpoint digits (s : string) (acc : Z) : option Z :=
  match s with
  | EmptyString => Some acc
  | String c rest =>
      match digit c with
      | Some d => digits rest (10 * acc + d)
      | None => None
      end
  end.

(** An optional sign, then the rest of the text. *)
Definition signed (s : string) : bool * string :=
  match s with
  | String "-" rest => (true, rest)
  | String "+" rest => (false, rest)
  | _ => (false, s)
  end.

(** Decimal integers that fit an [int64]. *)
Definition ParseInt (s : string) : option Z :=
  let '(neg, body) := signed s in
  match body with
  | EmptyString => None
  | _ =>
      match digits body 0 with
      | Some n =>
          let z := if neg then - n else n in
          if (- 2 ^ 63 <=? z) && (z <? 2 ^ 63) then Some z else None
      | None => None
      end
  end.

(** The [float64] nearest to [n * 10 ^ e10] (ties to even), for [0 <= n]. *)
Definition float_of_decimal (neg : bool) (n : Z) (e10 : Z) : float :=
  let sgn (m : Z) := if neg then - m else m in
  if 0 <=? e10 then SF2Prim (binary_normalize prec emax (sgn (n * 10 ^ e10)) 0 neg)
  else
    let den := 10 ^ (- e10) in
    let s := Z.log2 den + 66 in
    let q := (n * 2 ^ s) / den in
    let sticky := if (n * 2 ^ s) mod den =? 0 then 0 else 1 in
    SF2Prim (binary_normalize prec emax (sgn (2 * q + sticky)) (- s - 1) neg).

(** Where the first ['.'] of a text is: the text before it and after it. *)
Fixpoint cut_dot (s : string) : string * option string :=
  match s with
  | EmptyString => (EmptyString, None)
  | String "." rest => (EmptyString, Some rest)
  | String c rest => let '(a, b) := cut_dot rest in (String c a, b)
  end.

(** Decimal numbers [digits] or [digits.digits], with an optional sign; a
    value too large for a [float64] is an error. *)
Definition ParseFloat (s : string) : option float :=
  let '(neg, body) := signed s in
  let '(ip, fp) := cut_dot body in
  let fp := default EmptyString fp in
  match ip +:+ fp with
  | EmptyString => None
  | ds =>
      match digits ds 0 with
      | Some n =>
          let f := float_of_decimal neg n (- Z.of_nat (String.length fp)) in
          match Prim2SF f with
          | S754_infinity _ | S754_nan => None
          | _ => Some f
          end
      | None => None
      end
  end.

(** [math.Mod]: the remainder of the truncated division, exact, with the
    sign of [x]. *)
Definition Mod (x y : float) : float :=
  match Prim2SF x, Prim2SF y with
  | S754_nan, _ | _, S754_nan | S754_infinity _, _ | _, S754_zero _ => PrimFloat.nan
  | _, S754_infinity _ | S754_zero _, _ => x
  | S754_finite sx mx ex, S754_finite _ my ey =>
      let e := Z.min ex ey in
      let r := (Z.pos mx * 2 ^ (ex - e)) mod (Z.pos my * 2 ^ (ey - e)) in
      SF2Prim (binary_normalize prec emax (if sx then - r else r) e sx)
  end.

Definition map_ascii (f : ascii -> ascii) : string -> string :=
  fix go (s : string) : string :=
    match s with
    | EmptyString => EmptyString
    | String c rest => String (f c) (go rest)
    end.

Definition lower (c : ascii) : ascii :=
  let n := nat_of_ascii c in
  if (65 <=? n)%nat && (n <=? 90)%nat then ascii_of_nat (n + 32) else c.

Definition upper (c : ascii) : ascii :=
  let n := nat_of_ascii c in
  if (97 <=? n)%nat && (n <=? 122)%nat then ascii_of_nat (n - 32) else c.

(** [strings.Split] for a separator that is not empty, on bytes; an empty
    separator splits after each byte. *)
Fixpoint Split_loop (fuel : nat) (s sep : string) (piece : string) : list string :=
  match fuel with
  | O => [piece +:+ s]
  | S fuel' =>
      match s with
      | EmptyString => [piece]
      | String c rest =>
          if String.prefix sep s then
            piece :: Split_loop fuel' (String.substring (String.length sep)
                                         (String.length s - String.length sep) s)
                       sep EmptyString
          else Split_loop fuel' rest sep (piece +:+ String c EmptyString)
      end
  end.

Definition Split (s sep : string) : list string :=
  match sep with
  | EmptyString => (fun c => String c EmptyString) <$> list_ascii_of_string s
  | _ => Split_loop (S (String.length s)) s sep EmptyString
  end.

(** [strconv.FormatFloat(f, 'f', -1, 64)]: the shortest decimal that reads
    back as [f], without an exponent. *)
Definition pow10_floor (num den : Z) : Z :=
  (* the [e] with [10^e <= num/den < 10^(e+1)], for [0 < num], [0 < den] *)
  let guess := (Z.log2 num - Z.log2 den) * 30103 / 100000 in
  let le (e : Z) := if 0 <=? e then 10 ^ e * den <=? num else den <=? num * 10 ^ (- e) in
  if le (guess + 1) then guess + 1 else if le guess then guess else guess - 1.

Fixpoint strip_zeros (fuel : nat) (c e : Z) : Z * Z :=
  match fuel with
  | O => (c, e)
  | S fuel' => if (c mod 10 =? 0) && negb (c =? 0) then strip_zeros fuel' (c / 10) (e + 1) else (c, e)
  end.

(** The shortest [(c, e)] with [c * 10 ^ e] reading back as [f], among
    [n]-digit candidates for growing [n]. *)
Fixpoint shortest (todo : nat) (n : Z) (f : float) (num den e10 : Z) : Z * Z :=
  match todo with
  | O => (0, 0)
  | S todo' =>
      let e := e10 + 1 - n in
      let '(a, b) := if 0 <=? e then (num, den * 10 ^ e) else (num * 10 ^ (- e), den) in
      let lo := a / b in
      let exact := a mod b =? 0 in
      let hi := if exact then lo else lo + 1 in
      let ok (c : Z) := PrimFloat.eqb (float_of_decimal false c e) f in
      let nearer_hi :=
        match 2 * (a mod b) ?= b with
        | Gt => true
        | Lt => false
        | Eq => Z.odd lo
        end in
      if ok lo && ok hi then strip_zeros 20 (if nearer_hi then hi else lo) e
      else if ok lo then strip_zeros 20 lo e
      else if ok hi then strip_zeros 20 hi e
      else shortest todo' (n + 1) f num den e10
  end.

Definition pretty_zeros (n : Z) : string :=
  string_of_list_ascii (replicate (Z.to_nat n) "0"%char).

Definition FormatFloat (f : float) : string :=
  match Prim2SF f with
  | S754_nan => "NaN"
  | S754_infinity false => "+Inf"
  | S754_infinity true => "-Inf"
  | S754_zero false => "0"
  | S754_zero true => "-0"
  | S754_finite s m e =>
      let '(num, den) := if 0 <=? e then (Z.pos m * 2 ^ e, 1) else (Z.pos m, 2 ^ (- e)) in
      let '(c, e10) := shortest 18 1 (PrimFloat.abs f) num den (pow10_floor num den) in
      let ds := pretty c in
      let body :=
        if 0 <=? e10 then ds +:+ pretty_zeros e10
        else
          let nd := Z.of_nat (String.length ds) in
          if - e10 <? nd then
            String.substring 0 (Z.to_nat (nd + e10)) ds +:+ "."
            +:+ String.substring (Z.to_nat (nd + e10)) (Z.to_nat (- e10)) ds
          else "0." +:+ pretty_zeros (- e10 - nd) +:+ ds in
      if s then "-" +:+ body else body
  end.

#[global] Instance go_runtime : GoRuntime := {|
  strconv_FormatFloat := FormatFloat;
  strconv_ParseInt := ParseInt;
  strconv_Atoi := ParseInt;
  strconv_ParseFloat := ParseFloat;
  strings_ToLower := map_ascii lower;
  strings_ToUpper := map_ascii upper;
  strings_Split := Split;
  math_Mod := Mod;
  time_Now_Format := fun _ => "2006-01-02 15:04:05";
  growslice := fun old _ => (2 * old)%nat;
  map_range := fun _ entries => entries;
  int64_overflow := fun _ => - 2 ^ 63;
|}.

End runtime.

(** ** Inputs for the examples *)

Module examples.

Import token ast evaluator.

(** The double quote, to write a string literal of the language. *)
Definition dq : string := String.String lexer.quote2 EmptyString.

Definition tok (typ lit : string) : Token :=
  {| Type_ := typ; Literal := lit; Pos := noPos |}.

Definition ident (name : string) : Identifier :=
  {| Identifier_Token := tok IDENT name; Identifier_Value := name |}.

Definition int (lit : string) (v : Z) : option Expression :=
  Some (IntegerLiteral (tok INT lit) v).

Definition str (v : string) : option Expression :=
  Some (StringLiteral (tok STRING v) v).

Definition var (name : string) : option Expression := Some (Ident (ident name)).

Definition array123 : option Expression :=
  Some (ArrayLiteral (tok LBRACKET "[") [int "1" 1; int "2" 2; int "3" 3]).

Definition minus (e : option Expression) : option Expression :=
  Some (PrefixExpression (tok MINUS "-") "-" e).

Definition call (name : string) (args : list (option Expression)) : option Expression :=
  Some (CallExpression (tok LPAREN "(") (var name) args).

(** The state in which a program starts: the initial objects and one scope,
    the result of [NewScope(nil)]. *)
Definition scope0 : sptr := 0%nat.

Definition state0 : State :=
  match NewScope None init_state with
  | Ok _ st => st
  | _ => init_state
  end.

(** [state0] after [let a = 1] *)
Definition state_a `{rt : GoRuntime} : State :=
  match
    Eval 3 Background
      (Some (Stmt (LetStatement (tok LET "let") (Some (ident "a")) (int "1" 1))))
      scope0 state0
  with
  | Ok _ st => st
  | _ => state0
  end.

(** [state0] after [let a = [1, 2, 3]] *)
Definition state_arr `{rt : GoRuntime} : State :=
  match
    Eval 3 Background
      (Some (Stmt (LetStatement (tok LET "let") (Some (ident "a")) array123)))
      scope0 state0
  with
  | Ok _ st => st
  | _ => state0
  end.

(** A second frame, whose parent is [scope0]. *)
Definition scope1 : sptr := 1%nat.

(** The state a run ends in, [st] when it does not return. *)
Definition after {A : Type} (r : Result A) (st : State) : State :=
  match r with
  | Ok _ st' => st'
  | _ => st
  end.

(** [state_a] with the frame [scope1], as a block or a function call
    makes it. *)
Definition state_sub `{rt : GoRuntime} : State :=
  after (NewScope (Some scope0) state_a) state_a.

(** [function(x, y) { x }] *)
Definition fn_xy : option Expression :=
  Some (FunctionLiteral (tok FUNCTION "function") [ident "x"; ident "y"]
          (Block (tok LBRACE "{") [ExpressionStatement (tok IDENT "x") (var "x")])).

(** [state0] after [let f = function(x, y) { x }] *)
Definition state_fn `{rt : GoRuntime} : State :=
  after
    (Eval 3 Background
       (Some (Stmt (LetStatement (tok LET "let") (Some (ident "f")) fn_xy)))
       scope0 state0)
    state0.

(** [state_arr] after [let b = a[0:2]] *)
Definition state_view `{rt : GoRuntime} : State :=
  after
    (Eval 5 Background
       (Some (Stmt (LetStatement (tok LET "let") (Some (ident "b"))
                      (Some (IndexExpression (tok LBRACKET "[") (var "a")
                               (Some (SliceExpression (tok COLON ":") (int "0" 0)
                                        (int "2" 2))))))))
       scope0 state_arr)
    state_arr.

(** The operators that [parseInfixExpression] parses. *)
Definition binary_operators : list string :=
  ["+"; "-"; "*"; "/"; "%"; "=="; "!="; "<"; "<="; ">"; ">="; "&&"; "||"].

(** A source text as [Program.String()] prints what it parses to, when it
    parses without an error. *)
Definition printed (src : string) : option string :=
  match parser.returned (parser.Parse 40 src) with
  | Some (stmts, []) => Node_String (Program stmts)
  | _ => None
  end.

(** [{ continue }] *)
Definition block_continue : BlockStatement :=
  Block (tok LBRACE "{")
    [ExpressionStatement (tok token.CONTINUE "continue")
       (Some (ContinueExpression (tok token.CONTINUE "continue")))].

(** What a run comes to: the struct of the object it returns and the lines
    it has printed. *)
Definition outcome (r : Result Object) : option Struct * list string :=
  match r with
  | Ok (Some p) st => (objects st !! p, stdout st)
  | _ => (None, [])
  end.

End examples.

(** * Properties *)

Import token ast evaluator.

(** ** Running the monad *)

Create HintDb monad_ops.
#[global] Hint Unfold mbind M_bind bind mret M_ret ret get modify panic : monad_ops.

Section Monad.

Context {A B : Type}.

Lemma bind_Ok (m : M A) (k : A -> M B) st a st' :
  m st = Ok a st' -> (m ≫= k) st = k a st'.
Proof. intros H. autounfold with monad_ops. by rewrite H. Qed.

Lemma bind_eq (m : M A) (k : A -> M B) st r :
  m st = r ->
  (m ≫= k) st = match r with
                | Ok a st' => k a st'
                | Panic c => Panic c
                | OutOfFuel => OutOfFuel
                end.
Proof. intros <-. reflexivity. Qed.

Lemma bind_assoc {C} (m : M A) (k1 : A -> M B) (k2 : B -> M C) st :
  ((m ≫= k1) ≫= k2) st = (m ≫= (fun x => k1 x ≫= k2)) st.
Proof. autounfold with monad_ops. by destruct (m st). Qed.

Lemma bind_mret (a : A) (k : A -> M B) st : (mret a ≫= k) st = k a st.
Proof. reflexivity. Qed.

Lemma bind_ret (a : A) (k : A -> M B) st : (ret a ≫= k) st = k a st.
Proof. reflexivity. Qed.

End Monad.

(** ** Reading the store *)

Lemma load_Some st p o : objects st !! p = Some o -> load p st = Ok o st.
Proof. intros H. unfold load. by rewrite H. Qed.

Lemma deref_Some st p o :
  objects st !! p = Some o -> deref (Some p) st = Ok (p, o) st.
Proof. intros H. unfold deref. by rewrite (bind_Ok _ _ _ _ _ (load_Some _ _ _ H)). Qed.

Lemma typeOf_Some st p o :
  objects st !! p = Some o -> typeOf (Some p) st = Ok (Some (p, o)) st.
Proof. intros H. unfold typeOf. by rewrite (bind_Ok _ _ _ _ _ (load_Some _ _ _ H)). Qed.

Lemma Object_Type_Some st p o :
  objects st !! p = Some o -> Object_Type (Some p) st = Ok (Struct_Type o) st.
Proof. intros H. unfold Object_Type. by rewrite (bind_Ok _ _ _ _ _ (deref_Some _ _ _ H)). Qed.

Lemma isTruthy_Some st p o :
  objects st !! p = Some o -> isTruthy (Some p) st = Ok (spec.truthy o) st.
Proof.
  intros H. unfold isTruthy. rewrite (bind_Ok _ _ _ _ _ (typeOf_Some _ _ _ H)).
  by destruct o.
Qed.

Lemma isNumber_Some st p o :
  objects st !! p = Some o ->
  isNumber (Some p) st = Ok (bool_decide (is_Some (spec.number o))) st.
Proof.
  intros H. unfold isNumber. rewrite (bind_Ok _ _ _ _ _ (Object_Type_Some _ _ _ H)).
  by destruct o.
Qed.

Lemma loadScope_Some st s sc : scopes st !! s = Some sc -> loadScope s st = Ok sc st.
Proof. intros H. unfold loadScope. by rewrite H. Qed.

Lemma newError_eq st t args :
  newError t args st = Ok (Some (length (objects st))) (with_error st (errorMsg t args)).
Proof. reflexivity. Qed.

Lemma streq_true a : streq a a = true.
Proof. unfold streq. by apply bool_decide_eq_true. Qed.

Lemma streq_false a b : a <> b -> streq a b = false.
Proof. unfold streq. by apply bool_decide_eq_false. Qed.

(** One step of a run: the first action of a bind is resolved, from the
    monad laws or from a hypothesis about the store. *)
Ltac step :=
  first
    [ rewrite bind_assoc
    | rewrite bind_mret
    | rewrite bind_ret
    | erewrite bind_Ok by
        (first [ apply Object_Type_Some | apply typeOf_Some | apply deref_Some
               | apply isTruthy_Some | apply isNumber_Some | apply load_Some ];
         eassumption)
    | erewrite bind_Ok by eassumption ].

Ltac steps := repeat (step; simpl).

(** Case analysis on the comparisons of the goal. *)
Ltac compare :=
  repeat match goal with
         | |- context [?a <? ?b] => destruct (Z.ltb_spec a b)
         | |- context [?a <=? ?b] => destruct (Z.leb_spec a b)
         | |- context [?a >=? ?b] => destruct (Z.geb_spec a b)
         | |- context [?a >? ?b] => destruct (Z.gtb_spec a b)
         end.

Section Evaluator.

Context `{rt : GoRuntime}.

(** ** [Eval] *)

Lemma Eval_S fuel ctx node s st :
  Context_Done ctx (ticks st) = false ->
  Eval (S fuel) ctx node s st
  = evalNode (Eval fuel) ctx fuel node s (set_ticks S st).
Proof.
  intros H. simpl. autounfold with monad_ops. by rewrite H.
Qed.

(** ** Prefix minus *)

Lemma evalPrefixExpression_minus_other st p o :
  objects st !! p = Some o ->
  Struct_Type o ∈ [StringObj; BooleanObj; NullObj; ArrayObj; HashObj; FunctionObj;
                   BuiltinObj] ->
  evalPrefixExpression "-" (Some p) st = Ok (Some NULL) st.
Proof.
  intros Hp Hk. unfold evalPrefixExpression, evalMinusPrefixExpression.
  destruct o; simpl in Hk;
    try (exfalso; repeat (apply elem_of_cons in Hk as [Hk|Hk]; [discriminate|]);
         by apply elem_of_nil in Hk).
  all: steps; reflexivity.
Qed.

(** ** Infix operators *)

Lemma evalInfixExpression_and_or fuel st l r lo ro :
  objects st !! l = Some lo -> objects st !! r = Some ro ->
  Struct_Type lo <> ErrorObj -> Struct_Type ro <> ErrorObj ->
  evalInfixExpression fuel (Some l) "&&" (Some r) st
  = Ok (nativeBoolToBooleanObject (spec.truthy lo && spec.truthy ro)) st
  /\ evalInfixExpression fuel (Some l) "||" (Some r) st
  = Ok (nativeBoolToBooleanObject (spec.truthy lo || spec.truthy ro)) st.
Proof.
  intros Hl Hr Hle Hre. unfold evalInfixExpression. split.
  - step. rewrite streq_false by done. step. rewrite streq_false by done.
    simpl. step. destruct (spec.truthy lo); [step|]; reflexivity.
  - step. rewrite streq_false by done. step. rewrite streq_false by done.
    simpl. step. destruct (spec.truthy lo); [|step]; reflexivity.
Qed.

Lemma evalInfixExpression_equality fuel st l r lo ro :
  objects st !! l = Some lo -> objects st !! r = Some ro ->
  Struct_Type lo <> ErrorObj -> Struct_Type ro <> ErrorObj ->
  evalInfixExpression fuel (Some l) "==" (Some r) st
  = Ok (nativeBoolToBooleanObject (spec.equal lo ro)) st
  /\ evalInfixExpression fuel (Some l) "!=" (Some r) st
  = Ok (nativeBoolToBooleanObject (negb (spec.equal lo ro))) st.
Proof.
  intros Hl Hr Hle Hre. unfold evalInfixExpression.
  split; (step; rewrite streq_false by done; step; rewrite streq_false by done;
          simpl; step).
  all: destruct lo; try done; simpl.
  all: steps.
  all: destruct ro; try done; simpl.
  all: unfold evalNumberInfixExpression, evalEquality; steps.
  all: reflexivity.
Qed.

(** Plain division by a numeric zero. *)
Lemma evalInfixExpression_divide_by_zero fuel st l r lo ro a b :
  objects st !! l = Some lo -> objects st !! r = Some ro ->
  spec.number lo = Some a -> spec.number ro = Some b ->
  float_is_zero b = true ->
  evalInfixExpression fuel (Some l) "/" (Some r) st
  = Ok (Some (length (objects st))) (with_error st "cannot divide by zero").
Proof.
  intros Hl Hr Ha Hb Hz. unfold evalInfixExpression.
  destruct lo; try discriminate Ha; destruct ro; try discriminate Hb.
  all: simpl in Ha, Hb; injection Ha as <-; injection Hb as <-.
  all: steps; unfold evalNumberInfixExpression; steps.
  all: by rewrite Hz.
Qed.

(** ** Indices *)

Lemma calcIndex_Integer st ip i max :
  objects st !! ip = Some (Integer i) ->
  0 <= max ->
  calcIndex max (Some ip) false st =
    if (0 <=? i) && (i <? max) then Ok (i, None) st
    else if (- max <=? i) && (i <? 0) then Ok (i + max, None) st
    else if max <=? i then
      Ok (i, Some (length (objects st)))
         (with_error st (errorMsg INDEXERROR [fmt.D i; fmt.D 0; fmt.D (max - 1)]))
    else
      Ok (i + max, Some (length (objects st)))
         (with_error st (errorMsg INDEXERROR [fmt.D i; fmt.D (-1); fmt.D (- max)])).
Proof.
  intros Hi Hmax. unfold calcIndex. step. cbv zeta.
  compare; simpl; try lia; reflexivity.
Qed.

Lemma calcIndex_in_range st ip i max (end_ : bool) :
  objects st !! ip = Some (Integer i) ->
  let max' := if end_ then max + 1 else max in
  0 <= spec.norm max' i < max' ->
  calcIndex max (Some ip) end_ st = Ok (spec.norm max' i, None) st.
Proof.
  intros Hi max' Hr. unfold calcIndex. step. cbv zeta. fold max'.
  unfold spec.norm in *.
  compare; simpl; try lia; reflexivity.
Qed.

Lemma Slice_get_elems st sl elems k :
  Slice_elems sl st = Ok elems st ->
  length elems = len sl ->
  0 <= k < Z.of_nat (len sl) ->
  Slice_get sl k st = Ok (elems !!! Z.to_nat k) st.
Proof.
  unfold Slice_elems, Slice_get. intros He Hlen Hk.
  destruct (Z.leb_spec 0 k), (Z.ltb_spec k (Z.of_nat (len sl))); try lia. simpl.
  revert He. autounfold with monad_ops. unfold loadArray.
  destruct (arrays st !! base sl) as [backing|]; [|done].
  intros [= <-].
  assert (Hlt : (Z.to_nat k < len sl)%nat) by lia.
  assert (Hsome : is_Some (take (len sl) (drop (off sl) backing) !! Z.to_nat k)).
  { apply lookup_lt_is_Some. lia. }
  destruct Hsome as [v Hv].
  rewrite (list_lookup_total_correct _ _ _ Hv).
  rewrite lookup_take_lt in Hv by done. rewrite lookup_drop in Hv.
  by rewrite Hv.
Qed.

Lemma Slice_set_eq st sl k v backing :
  arrays st !! base sl = Some backing ->
  0 <= k < Z.of_nat (len sl) ->
  Slice_set sl k v st
  = Ok tt (set_arrays
             (fun arrs => <[base sl := <[(off sl + Z.to_nat k)%nat := v]> backing]> arrs)
             st).
Proof.
  intros Hb Hk. unfold Slice_set.
  destruct (Z.leb_spec 0 k), (Z.ltb_spec k (Z.of_nat (len sl))); try lia. simpl.
  unfold loadArray. autounfold with monad_ops. by rewrite Hb.
Qed.

Lemma Slice_get_eq st sl k v backing :
  arrays st !! base sl = Some backing ->
  0 <= k < Z.of_nat (len sl) ->
  backing !! (off sl + Z.to_nat k)%nat = Some v ->
  Slice_get sl k st = Ok v st.
Proof.
  intros Hb Hk Hv. unfold Slice_get.
  destruct (Z.leb_spec 0 k), (Z.ltb_spec k (Z.of_nat (len sl))); try lia. simpl.
  unfold loadArray. autounfold with monad_ops. by rewrite Hb, Hv.
Qed.

(** Writing through one slice is read through any slice over the same
    array at the same place. *)
Lemma Slice_set_get st st' sl sl' k k' v backing :
  arrays st !! base sl = Some backing ->
  base sl' = base sl ->
  (off sl' + Z.to_nat k' = off sl + Z.to_nat k)%nat ->
  0 <= k < Z.of_nat (len sl) ->
  0 <= k' < Z.of_nat (len sl') ->
  (off sl + Z.to_nat k < length backing)%nat ->
  Slice_set sl k v st = Ok tt st' ->
  Slice_get sl' k' st' = Ok v st'.
Proof.
  intros Hb Hbase Hoff Hk Hk' Hlen Hset.
  rewrite (Slice_set_eq _ _ _ _ _ Hb Hk) in Hset. injection Hset as <-.
  eapply Slice_get_eq; [|done|].
  - simpl. rewrite Hbase. apply list_lookup_insert_eq.
    by eapply lookup_lt_Some.
  - rewrite Hoff. by apply list_lookup_insert_eq.
Qed.

Lemma evalIndexExpression_index E ctx fuel Left Index s st :
  spec.is_slice Index = false ->
  evalIndexExpression E ctx fuel Left Index s st =
    (e ← evalExpr E ctx Left s;
     t ← typeOf e;
     match t with
     | Some (_, Array _) =>
         evalArrayIndexExpressionFunc E ctx fuel Left Index s "" None
           (fun arr idx => Slice_get arr idx)
     | Some (_, String _) => evalStringIndexExpression E ctx Left Index s
     | Some (_, Hash _) =>
         evalHashIndexExpressionFunc E ctx fuel Left Index s "" None
           (fun hash key =>
              hk ← hashable key;
              match hk with
              | Some hashkey =>
                  pairs ← loadHash hash;
                  match pairs !! hashkey with
                  | Some kv => ret (HashPair_Value kv)
                  | None => ret (Some NULL)
                  end
              | None => kty ← Object_Type key; newError NOTHASHABLE [fmt.S kty]
              end)
     | _ => ety ← Object_Type e; newError NOINDEXERROR [fmt.S ety]
     end) st.
Proof. intros H. by destruct Index as [[]|]. Qed.

(** A slice expression does not evaluate to an Integer: [Eval] has no case
    for it. *)
Lemma Eval_Integer_not_slice fuel ctx Index s st ip st' i :
  Eval fuel ctx (Expr <$> Index) s st = Ok (Some ip) st' ->
  objects st' !! ip = Some (Integer i) ->
  spec.is_slice Index = false.
Proof.
  intros HE Hip. destruct Index as [[]|]; try done. exfalso.
  destruct fuel as [|fuel]; [done|]. simpl in HE.
  revert HE. autounfold with monad_ops.
  destruct (Context_Done ctx (ticks st)); [|done].
  rewrite newError_eq. intros [= <- <-]. simpl in Hip.
  rewrite lookup_app_r in Hip by done. by rewrite Nat.sub_diag in Hip.
Qed.

Lemma Eval_IndexExpression_Array
    fuel ctx tok Left Index s st e st1 sl0 a st2 sl2 ip st3 sl i elems :
  Context_Done ctx (ticks st) = false ->
  Eval fuel ctx (Expr <$> Left) s (set_ticks S st) = Ok (Some e) st1 ->
  objects st1 !! e = Some (Array sl0) ->
  Eval fuel ctx (Expr <$> Left) s st1 = Ok (Some a) st2 ->
  objects st2 !! a = Some (Array sl2) ->
  Eval fuel ctx (Expr <$> Index) s st2 = Ok (Some ip) st3 ->
  objects st3 !! ip = Some (Integer i) ->
  objects st3 !! a = Some (Array sl) ->
  Slice_elems sl st3 = Ok elems st3 ->
  length elems = len sl ->
  let L := Z.of_nat (length elems) in
  Eval (S fuel) ctx (Some (Expr (IndexExpression tok Left Index))) s st =
    if (0 <=? i) && (i <? L) then Ok (elems !!! Z.to_nat i) st3
    else if (- L <=? i) && (i <? 0) then Ok (elems !!! Z.to_nat (i + L)) st3
    else if L <=? i then
      Ok (Some (length (objects st3)))
         (with_error st3 (errorMsg INDEXERROR [fmt.D i; fmt.D 0; fmt.D (L - 1)]))
    else
      Ok (Some (length (objects st3)))
         (with_error st3 (errorMsg INDEXERROR [fmt.D i; fmt.D (-1); fmt.D (- L)])).
Proof.
  intros Hctx He Hearr Ha Ha2 Hi Hip Ha3 Helems Hlen L.
  rewrite Eval_S by done. simpl.
  rewrite evalIndexExpression_index by eauto using Eval_Integer_not_slice.
  unfold evalExpr. steps.
  unfold evalArrayIndexExpressionFunc, evalExpr. steps.
  erewrite bind_eq by (apply calcIndex_Integer; [eassumption|lia]).
  subst L. rewrite Hlen.
  set (L := Z.of_nat (len sl)).
  destruct (Z.leb_spec 0 i), (Z.ltb_spec i L); simpl.
  - by apply Slice_get_elems.
  - destruct (Z.leb_spec (- L) i); simpl.
    + destruct (Z.ltb_spec i 0); [lia|]. simpl.
      destruct (Z.leb_spec L i); [|lia]. reflexivity.
    + lia.
  - destruct (Z.leb_spec (- L) i); simpl.
    + destruct (Z.ltb_spec i 0); [|lia]. simpl.
      apply Slice_get_elems; [done..|lia].
    + destruct (Z.leb_spec L i); [lia|]. reflexivity.
  - lia.
Qed.

(** ** Slices *)

Lemma evalSliceExpression_Array
    (E : EvalT) ctx obj Start End s st sl sp st1 i ep st2 j sl2 :
  objects st !! obj = Some (Array sl) ->
  E ctx (Expr <$> Start) s st = Ok (Some sp) st1 ->
  objects st1 !! sp = Some (Integer i) ->
  E ctx (Expr <$> Some End) s st1 = Ok (Some ep) st2 ->
  objects st2 !! ep = Some (Integer j) ->
  objects st2 !! obj = Some (Array sl2) ->
  let L := Z.of_nat (len sl) in
  let lo := spec.norm L i in
  let hi := spec.norm (L + 1) j in
  0 <= lo < L -> 0 <= hi <= L -> lo <= hi -> hi <= Z.of_nat (cap sl2) ->
  evalSliceExpression E ctx (Some obj) Start (Some End) s st
  = Ok (Some (length (objects st2)))
       (set_objects
          (fun l => (l ++ [Array (Slice_slice sl2 (Z.to_nat lo) (Z.to_nat hi))])%list)
          st2).
Proof.
  intros Hobj Hs Hsp He Hep Hobj2 L lo hi Hlo Hhi Hle Hcap. subst lo hi L.
  unfold evalSliceExpression, evalExpr. steps.
  erewrite bind_Ok by (eapply calcIndex_in_range with (end_ := false); eauto).
  simpl. steps.
  erewrite bind_Ok by (eapply calcIndex_in_range with (end_ := true); [eauto|]; lia).
  cbv beta iota. step. cbv beta iota.
  match goal with |- context [?a >? ?b] => destruct (Z.gtb_spec a b) end; [lia|].
  steps.
  match goal with |- context [?a <=? ?b] => destruct (Z.leb_spec a b) end; [|lia].
  reflexivity.
Qed.

(** ** Bindings and increments *)

Lemma Eval_LetStatement fuel ctx tok name Value s st sc v st1 o sc1 :
  Context_Done ctx (ticks st) = false ->
  scopes st !! s = Some sc ->
  store sc !! Identifier_Value name = None ->
  Eval fuel ctx (Expr <$> Value) s (set_ticks S st) = Ok (Some v) st1 ->
  objects st1 !! v = Some o ->
  Struct_Type o <> ErrorObj ->
  scopes st1 !! s = Some sc1 ->
  Eval (S fuel) ctx (Some (Stmt (LetStatement tok (Some name) Value))) s st
  = Ok (Some v)
       (set_scopes
          (fun l => <[s := {| store := <[Identifier_Value name := Some v]> (store sc1);
                              parentScope := parentScope sc1 |}]> l) st1).
Proof.
  intros Hctx Hsc Hname HE Hv Hne Hsc1.
  rewrite Eval_S by done. cbv beta iota delta [evalNode].
  unfold evalLetStatement, Scope_GetCurrent.
  erewrite bind_assoc, bind_Ok by (by apply loadScope_Some).
  unfold Object in *. rewrite Hname. simpl. unfold evalExpr. steps.
  rewrite streq_false by done. simpl. unfold Scope_Set.
  erewrite bind_Ok by (by apply loadScope_Some). reflexivity.
Qed.

Lemma Eval_incr_decr fuel ctx tok operand s st p st1 o :
  Context_Done ctx (ticks st) = false ->
  Eval fuel ctx (Expr <$> operand) s (set_ticks S st) = Ok (Some p) st1 ->
  objects st1 !! p = Some o ->
  Struct_Type o = IntegerObj \/ Struct_Type o = FloatObj ->
  let result (op : string) (prefix : bool) :=
    Eval (S fuel) ctx
      (Some (Expr (if prefix then PrefixExpression tok op operand
                   else PostfixExpression tok op operand))) s st in
  let updated (new returned : Struct) :=
    Ok (Some (length (objects st1)))
       (set_objects (fun l => (<[p := new]> l ++ [returned])%list) st1) in
  result "++" false = updated (spec.step true o) o
  /\ result "++" true = updated (spec.step true o) (spec.step true o)
  /\ result "--" false = updated (spec.step false o) o
  /\ result "--" true = updated (spec.step false o) (spec.step false o).
Proof.
  intros Hctx HE Hp Hnum result updated. subst result updated. cbv beta iota.
  rewrite !Eval_S by done. simpl. unfold evalExpr.
  unfold evalPostfixExpression, evalPrefixExpression,
    evalIncrPostfixExpression, evalIncrPrefixExpression,
    evalDecrPostfixExpression, evalDecrPrefixExpression.
  destruct o; try (by destruct Hnum).
  all: repeat split; steps; unfold store_at, newObject;
    autounfold with monad_ops; unfold new; simpl; by rewrite length_insert.
Qed.

(** ** [split] *)

Lemma String_CallMethod_split_other s st a o :
  objects st !! a = Some o ->
  Struct_Type o <> StringObj ->
  String_CallMethod s "split" [Some a] st = Panic (IndexOutOfRange 1 1).
Proof.
  intros Ha Hne. unfold String_CallMethod, arg_at. simpl. step. step.
  rewrite streq_false by done. reflexivity.
Qed.

Lemma String_CallMethod_split_arity s st args :
  length args <> 1%nat ->
  String_CallMethod s "split" args st
  = Ok (Some (length (objects st)))
       (with_error st (errorMsg ARGUMENTNUMERROR
                         [fmt.S "1"; fmt.D (Z.of_nat (length args))])).
Proof.
  intros Hn. unfold String_CallMethod. simpl.
  destruct (Nat.eqb_spec (length args) 1); [done|]. reflexivity.
Qed.

End Evaluator.

(** ** Identifiers *)

Section Identifiers.

Context `{rt : GoRuntime}.

Lemma Scope_Get_current s key st sc p :
  scopes st !! s = Some sc ->
  store sc !! key = Some (Some p) ->
  Scope_Get s key st = Ok (Some p, true) st.
Proof.
  intros Hsc Hkey. unfold Scope_Get, Scope_find.
  assert (Hwalk : forall n, Scope_walk (S n) s key st = Ok s st).
  { intros n. cbn [Scope_walk]. erewrite bind_Ok by (by apply loadScope_Some).
    unfold Object in *. by rewrite Hkey. }
  autounfold with monad_ops. rewrite Hwalk.
  rewrite (loadScope_Some _ _ _ Hsc). unfold Object in *. by rewrite Hkey.
Qed.

(** A name bound in the current frame evaluates to the object it is bound
    to, the same object each time. *)
Lemma Eval_Ident_current fuel ctx name s st sc p :
  Context_Done ctx (ticks st) = false ->
  scopes st !! s = Some sc ->
  store sc !! Identifier_Value name = Some (Some p) ->
  Eval (S fuel) ctx (Some (Expr (Ident name))) s st = Ok (Some p) (set_ticks S st).
Proof.
  intros Hctx Hsc Hname. rewrite Eval_S by done. cbv beta iota delta [evalNode].
  unfold evalIdentifier. by erewrite bind_Ok by (by eapply Scope_Get_current).
Qed.

End Identifiers.

(** ** Assignment to an element *)

Section Elements.

Context `{rt : GoRuntime}.

(** [objects[idx] = newValue] *)
Lemma updateArray_assign fuel sl k v st st' :
  updateArray fuel sl k "=" v st = Ok v st' -> Slice_set sl k v st = Ok tt st'.
Proof.
  unfold updateArray. rewrite streq_true. autounfold with monad_ops.
  destruct (Slice_set sl k v st) as [[] st0| |]; [|done..]. by intros [= ->].
Qed.

End Elements.

(** * The claims *)

Import examples.

(** ** Indexing an array *)

(** C1, as stated, fails: an index out of range gives an Error and not Null,
    and [-1] is within range.  [[1, 2, 3][3]] is the Error
    [index '3' is out of range, valid range is [0, 2]] and [[1, 2, 3][-1]]
    is the Integer 3, the last element. *)
Lemma C1_out_of_range_is_not_Null :
  struct_of (testEval 20 "[1, 2, 3][3]")
  = Some (Error "index '3' is out of range, valid range is [0, 2]")
  /\ struct_of (testEval 20 "[1, 2, 3][-1]") = Some (Integer 3).
Proof. split; by vm_compute. Qed.

(** C1, amended: for an array of length [L] and an Integer index [i],
    the index expression gives an element exactly when [-L <= i <= L - 1]:
    the element at [i] for [0 <= i], and the element at [i + L], counted from
    the end, for [i < 0].  Any other index gives a new Error object, whose
    message names the index and the bound it passed ([L - 1] for [L <= i],
    [-L] for [i < -L]); it gives neither Null nor a panic.

    The code evaluates [Left] twice, once to find its type and once to index
    it, and the index once, after that. *)
Theorem C1_array_index `{rt : GoRuntime}
    fuel ctx tok Left Index s st e st1 sl0 a st2 sl2 ip st3 sl i elems :
  Context_Done ctx (ticks st) = false ->
  Eval fuel ctx (Expr <$> Left) s (set_ticks S st) = Ok (Some e) st1 ->
  objects st1 !! e = Some (Array sl0) ->
  Eval fuel ctx (Expr <$> Left) s st1 = Ok (Some a) st2 ->
  objects st2 !! a = Some (Array sl2) ->
  Eval fuel ctx (Expr <$> Index) s st2 = Ok (Some ip) st3 ->
  objects st3 !! ip = Some (Integer i) ->
  objects st3 !! a = Some (Array sl) ->
  Slice_elems sl st3 = Ok elems st3 ->
  length elems = len sl ->
  let L := Z.of_nat (length elems) in
  Eval (S fuel) ctx (Some (Expr (IndexExpression tok Left Index))) s st =
    if (- L <=? i) && (i <=? L - 1) then
      Ok (elems !!! Z.to_nat (spec.norm L i)) st3
    else
      Ok (Some (length (objects st3)))
         (with_error st3
            (errorMsg INDEXERROR
               (if i <? 0 then [fmt.D i; fmt.D (-1); fmt.D (- L)]
                else [fmt.D i; fmt.D 0; fmt.D (L - 1)]))).
Proof.
  intros Hctx He Hearr Ha Ha2 Hi Hip Ha3 Helems Hlen L.
  erewrite Eval_IndexExpression_Array by eassumption.
  fold L. unfold spec.norm.
  compare; simpl; try lia; reflexivity.
Qed.

Lemma C1_array_index_witness :
  struct_of
    (Eval 4 Background
       (Some (Expr (IndexExpression (tok LBRACKET "[") array123 (minus (int "1" 1)))))
       scope0 state0)
  = Some (Integer 3).
Proof.
  erewrite (C1_array_index 3 Background (tok LBRACKET "[") array123
              (minus (int "1" 1)) scope0 state0); cycle 1.
  - reflexivity.
  - vm_compute; reflexivity.
  - vm_compute; reflexivity.
  - vm_compute; reflexivity.
  - vm_compute; reflexivity.
  - vm_compute; reflexivity.
  - vm_compute; reflexivity.
  - vm_compute; reflexivity.
  - vm_compute; reflexivity.
  - vm_compute; reflexivity.
  - vm_compute; reflexivity.
Defined.

(** ** Equality *)

(** C2, as stated, fails: an Integer and a Float are compared by value, so
    [1 == 1.0] is the Boolean true, and [1 != 1.0] the Boolean false. *)
Lemma C2_Integer_equals_Float :
  struct_of (testEval 20 "1 == 1.0") = Some (Boolean true)
  /\ struct_of (testEval 20 "1 != 1.0") = Some (Boolean false).
Proof. split; by vm_compute. Qed.

(** C2, amended: for operands none of which is an Error, both evaluated, the
    left one first, [==] gives the Boolean [spec.equal lo ro] and [!=] its
    negation, where two numbers, Integer or Float in any combination, are
    equal when their [float64] values are, two Booleans, two Nulls and two
    Strings when their values are, and nothing else is: operands of
    different kinds that are not both numbers are not equal, and an Array,
    a Hash, a Function or a Builtin is equal to nothing, itself included. *)
Theorem C2_equality `{rt : GoRuntime}
    fuel ctx tok Left Right s st l st1 r st2 lo ro :
  Context_Done ctx (ticks st) = false ->
  Eval fuel ctx (Expr <$> Left) s (set_ticks S st) = Ok (Some l) st1 ->
  Eval fuel ctx (Expr <$> Right) s st1 = Ok (Some r) st2 ->
  objects st2 !! l = Some lo -> objects st2 !! r = Some ro ->
  Struct_Type lo <> ErrorObj -> Struct_Type ro <> ErrorObj ->
  (Eval (S fuel) ctx (Some (Expr (InfixExpression tok Left "==" Right))) s st
   = Ok (nativeBoolToBooleanObject (spec.equal lo ro)) st2
   /\ Eval (S fuel) ctx (Some (Expr (InfixExpression tok Left "!=" Right))) s st
      = Ok (nativeBoolToBooleanObject (negb (spec.equal lo ro))) st2)
  /\ (Struct_Type lo <> Struct_Type ro ->
      spec.number lo = None \/ spec.number ro = None ->
      spec.equal lo ro = false)
  /\ (Struct_Type lo ∈ [ArrayObj; HashObj; FunctionObj; BuiltinObj] ->
      spec.equal lo ro = false).
Proof.
  intros Hctx Hl Hr Hlo Hro Hle Hre. split; [|split].
  - destruct (evalInfixExpression_equality fuel st2 l r lo ro) as [He Hn]; try done.
    rewrite !Eval_S by done. simpl. unfold evalExpr. split; do 2 step; done.
  - intros Hne [Hn|Hn]; unfold spec.equal; rewrite Hn.
    + destruct lo, ro; try done; by destruct (spec.number _).
    + destruct (spec.number lo); destruct lo, ro; done.
  - intros Hk. destruct lo; simpl in Hk;
      try (exfalso; repeat (apply elem_of_cons in Hk as [Hk|Hk]; [discriminate|]);
           by apply elem_of_nil in Hk).
    all: reflexivity.
Qed.

Lemma C2_equality_witness :
  struct_of
    (Eval 3 Background
       (Some (Expr (InfixExpression (tok EQ "==") (int "1" 1) "=="
                      (Some (FloatLiteral (tok FLOAT "1.0") float_one)))))
       scope0 state0)
  = Some (Boolean true).
Proof.
  etransitivity.
  - apply (f_equal struct_of). eapply proj1, proj1.
    eapply (C2_equality 2 Background (tok EQ "==") (int "1" 1)
              (Some (FloatLiteral (tok FLOAT "1.0") float_one)) scope0 state0).
    + reflexivity.
    + vm_compute; reflexivity.
    + vm_compute; reflexivity.
    + vm_compute; reflexivity.
    + vm_compute; reflexivity.
    + vm_compute; discriminate.
    + vm_compute; discriminate.
  - vm_compute; reflexivity.
Defined.

(** ** A [let] without a value *)

(** A let statement without a value panics, when its name is not bound in
    the scope: [Eval] of the absent value returns [nil], whose [Type()] is
    then asked. *)
Lemma Eval_LetStatement_nil `{rt : GoRuntime} fuel ctx tok name s st sc :
  Context_Done ctx (ticks st) = false ->
  Context_Done ctx (S (ticks st)) = false ->
  scopes st !! s = Some sc ->
  store sc !! Identifier_Value name = None ->
  Eval (S (S fuel)) ctx (Some (Stmt (LetStatement tok (Some name) None))) s st
  = Panic NilDereference.
Proof.
  intros Hctx Hctx' Hsc Hname.
  rewrite Eval_S by done. cbv beta iota delta [evalNode].
  unfold evalLetStatement, Scope_GetCurrent.
  erewrite bind_assoc, bind_Ok by (by apply loadScope_Some).
  unfold Object in *. rewrite Hname. simpl. unfold evalExpr.
  autounfold with monad_ops. simpl. by rewrite Hctx'.
Qed.

(** C3 fails on the code.  [let x = ;] parses without an error to a let
    statement whose value is absent, and its evaluation panics with a nil
    dereference, in [RunProgram] as well; so does the evaluation of what
    [let x] parses to, which the parser reports an error for. *)
Theorem C3_let_without_value_panics :
  parser.returned (parser.Parse 20 "let x = ;")
  = Some
      ([LetStatement
          {| Type_ := LET; Literal := "let";
             Pos := {| Offset := 0; Line := 1; Col := 1 |} |}
          (Some {| Identifier_Token :=
                     {| Type_ := IDENT; Literal := "x";
                        Pos := {| Offset := 4; Line := 1; Col := 5 |} |};
                   Identifier_Value := "x" |})
          None], [])
  /\ testEval 20 "let x = ;" = Panic NilDereference
  /\ stang.RunProgram 20 Background "let x = ;" = stang.Panics NilDereference
  /\ testEval 20 "let x" = Panic NilDereference
  /\ stang.RunProgram 20 Background "let x"
     = stang.Returns EmptyString (Some "[1:5]expected token to be =, got EOF instead").
Proof. repeat split; by vm_compute. Qed.

(** ** [split] *)

(** C4 fails on the code.  [split] with one argument that is not a String
    panics: to report the argument's type the code reads [args[1]], and
    [args] has one element.  With a String argument it returns the Array of
    the parts, and with no argument or two an Error. *)
Theorem C4_split_non_String_panics :
  testEval 20 (dq +:+ "abc" +:+ dq +:+ ".split(1)") = Panic (IndexOutOfRange 1 1)
  /\ stang.RunProgram 20 Background (dq +:+ "abc" +:+ dq +:+ ".split(1)")
     = stang.Panics (IndexOutOfRange 1 1)
  /\ stang.RunProgram 20 Background (dq +:+ "a,b" +:+ dq +:+ ".split(',')")
     = stang.Returns "[a, b]" None
  /\ stang.RunProgram 20 Background (dq +:+ "abc" +:+ dq +:+ ".split()")
     = stang.Returns "Error: wrong number of arguments. expected: 1, got: 0" None
  /\ stang.RunProgram 20 Background (dq +:+ "abc" +:+ dq +:+ ".split(1, 2)")
     = stang.Returns "Error: wrong number of arguments. expected: 1, got: 2" None.
Proof. repeat split; by vm_compute. Qed.

(** ** Division by zero *)

(** C5 fails on the code.  [/=] on a variable divides by zero unless both
    numbers are Integers: [let x = 5.0; x /= 0] is the Float [+Inf], and so
    is it for a Float zero, or an Integer variable and a Float zero.  The
    other paths give the Error: [/] on any two numbers, [/=] on an element
    of an array or of a hash, and [/=] on an Integer variable by the
    Integer 0. *)
Theorem C5_divide_assign_Float_by_zero :
  (struct_of (testEval 30 "let x = 5.0; x /= 0") = Some (Float infinity)
   /\ struct_of (testEval 30 "let x = 5.0; x /= 0.0") = Some (Float infinity)
   /\ struct_of (testEval 30 "let x = 5; x /= 0.0") = Some (Float infinity)
   /\ stang.RunProgram 30 Background "let x = 5.0; x /= 0" = stang.Returns "+Inf" None)
  /\ (struct_of (testEval 30 "let x = 5; x /= 0") = Some (Error "cannot divide by zero")
      /\ struct_of (testEval 30 "5 / 0") = Some (Error "cannot divide by zero")
      /\ struct_of (testEval 30 "5.0 / 0") = Some (Error "cannot divide by zero")
      /\ struct_of (testEval 30 "5 / 0.0") = Some (Error "cannot divide by zero")
      /\ struct_of (testEval 30 "let x = [5.0]; x[0] /= 0")
         = Some (Error "cannot divide by zero")
      /\ struct_of (testEval 30 "let x = {1: 5.0}; x[1] /= 0")
         = Some (Error "cannot divide by zero")).
Proof. repeat split; by vm_compute. Qed.

(** ** The precedence table *)

(** C6, as stated, fails: of the five assignment tokens only [=] has the
    level ASSIGN.  [+=] and [-=] have the level SUM and [*=] and [/=] the
    level PRODUCT, which are both above ASSIGN. *)
Lemma C6_compound_assignment_levels :
  parser.precedences !! "=" = Some parser.ASSIGN
  /\ parser.precedences !! "+=" = Some parser.SUM
  /\ parser.precedences !! "-=" = Some parser.SUM
  /\ parser.precedences !! "*=" = Some parser.PRODUCT
  /\ parser.precedences !! "/=" = Some parser.PRODUCT
  /\ (parser.ASSIGN <? parser.SUM) = true
  /\ (parser.SUM <? parser.PRODUCT) = true.
Proof. repeat split; by vm_compute. Qed.

(** C6, amended: the precedence table has exactly these entries, one level
    for each operator token: [=] at ASSIGN, the lowest level above LOWEST;
    [||] at OR; [&&] at AND; [==] and [!=] at EQUALS; [<], [<=], [>] and
    [>=] at LESSGREATER; [:] at SLICE; [+], [-], [+=] and [-=] at SUM; [%],
    [*], [/], [*=] and [/=] at PRODUCT; [(] and [.] at CALL; [[] at INDEX;
    [++] and [--] at INCRDECR. *)
Theorem C6_precedence_table (typ : TokenType) (p : Z) :
  parser.precedences !! typ = Some p <->
  (typ, p) ∈ [ ("=", parser.ASSIGN);
               ("||", parser.OR);
               ("&&", parser.AND);
               ("==", parser.EQUALS); ("!=", parser.EQUALS);
               ("<", parser.LESSGREATER); ("<=", parser.LESSGREATER);
               (">", parser.LESSGREATER); (">=", parser.LESSGREATER);
               (":", parser.SLICE);
               ("+", parser.SUM); ("-", parser.SUM);
               ("+=", parser.SUM); ("-=", parser.SUM);
               ("%", parser.PRODUCT); ("*", parser.PRODUCT); ("/", parser.PRODUCT);
               ("*=", parser.PRODUCT); ("/=", parser.PRODUCT);
               ("(", parser.CALL); (".", parser.CALL);
               ("[", parser.INDEX);
               ("++", parser.INCRDECR); ("--", parser.INCRDECR) ].
Proof.
  unfold parser.precedences. rewrite <- elem_of_list_to_map.
  - cbv delta [ASSIGN AND OR EQ NEQ LT LTE GT GTE COLON PLUS MINUS PLUS_A MINUS_A MOD
                 ASTERISK ASTERISK_A SLASH SLASH_A LPAREN DOT LBRACKET INCR DECR
                 parser.ASSIGN parser.AND parser.OR parser.EQUALS parser.LESSGREATER
                 parser.SLICE parser.SUM parser.PRODUCT parser.CALL parser.INDEX
                 parser.INCRDECR].
    rewrite !elem_of_cons, !elem_of_nil. tauto.
  - apply (bool_decide_unpack _). by vm_compute.
Qed.

(** ** Slices share their array *)

(** The programs of C7: a write through the slice is read through the
    array, and a write through the array is read through the slice. *)
Example slice_shares_the_array :
  struct_of (testEval 40 "let a=[1,2,3]; let b=a[0:2]; b[0]=99; a[0]") = Some (Integer 99)
  /\ struct_of (testEval 40 "let a=[1,2,3]; let b=a[0:2]; a[0]=99; b[0]")
     = Some (Integer 99)
  /\ stang.RunProgram 40 Background "let a=[1,2,3]; let b=a[1:3]; b[0]=99; a"
     = stang.Returns "[1, 99, 3]" None.
Proof. repeat split; by vm_compute. Qed.

(** C7: slicing the Array [obj], whose elements are the slice [sl2] when
    the two indices have been evaluated, at indices within its length that
    come to [lo <= hi], gives a new Array object whose elements are
    [sl2[lo:hi]], a slice of the same array; [obj] is as it was.  From
    then on, whatever the state, [view[k] = v] is read as [sl2[lo + k]],
    and [sl2[lo + k] = v] is read as [view[k]].  [slice_shares_the_array]
    runs the programs that C7 gives. *)
Theorem C7_slice_shares_storage `{rt : GoRuntime}
    (E : EvalT) ctx fuel obj Start End s st sl sp st1 i ep st2 j sl2 :
  objects st !! obj = Some (Array sl) ->
  E ctx (Expr <$> Start) s st = Ok (Some sp) st1 ->
  objects st1 !! sp = Some (Integer i) ->
  E ctx (Expr <$> Some End) s st1 = Ok (Some ep) st2 ->
  objects st2 !! ep = Some (Integer j) ->
  objects st2 !! obj = Some (Array sl2) ->
  let L := Z.of_nat (len sl) in
  let lo := spec.norm L i in
  let hi := spec.norm (L + 1) j in
  0 <= lo < L -> 0 <= hi <= L -> lo <= hi ->
  hi <= Z.of_nat (len sl2) -> hi <= Z.of_nat (cap sl2) ->
  let view := Slice_slice sl2 (Z.to_nat lo) (Z.to_nat hi) in
  let b := length (objects st2) in
  exists st3,
    evalSliceExpression E ctx (Some obj) Start (Some End) s st = Ok (Some b) st3
    /\ objects st3 !! b = Some (Array view)
    /\ objects st3 !! obj = Some (Array sl2)
    /\ b <> obj
    /\ arrays st3 = arrays st2
    /\ forall k v st4 st5 backing,
         0 <= k < hi - lo ->
         arrays st4 !! base sl2 = Some backing ->
         (off sl2 + Z.to_nat (lo + k) < length backing)%nat ->
         (updateArray fuel view k "=" v st4 = Ok v st5 ->
          Slice_get sl2 (lo + k) st5 = Ok v st5)
         /\ (updateArray fuel sl2 (lo + k) "=" v st4 = Ok v st5 ->
             Slice_get view k st5 = Ok v st5).
Proof.
  intros Hobj Hs Hsp He Hep Hobj2 L lo hi Hlo Hhi Hle Hlen Hcap view b.
  assert (Hlt : (obj < length (objects st2))%nat) by by eapply lookup_lt_Some.
  eexists. split; [by eapply evalSliceExpression_Array|]. simpl.
  split; [|split; [|split; [|split]]].
  - rewrite lookup_app_r by done. by rewrite Nat.sub_diag.
  - by rewrite lookup_app_l.
  - subst b. lia.
  - reflexivity.
  - intros k v st4 st5 backing Hk Hbacking Hin. split; intros Hset.
    + apply updateArray_assign in Hset.
      apply (Slice_set_get st4 st5 view sl2 k (lo + k) v backing);
        simpl; try done; lia.
    + apply updateArray_assign in Hset.
      apply (Slice_set_get st4 st5 sl2 view (lo + k) k v backing);
        simpl; try done; lia.
Qed.

(** After [let a = [1, 2, 3]], the Array of [a] is at address 11, over the
    array at address 3.  [a[0:2]] is a new Array, at address 17, over the
    same array. *)
Lemma C7_slice_shares_storage_witness :
  let a := {| base := 3%nat; off := 0; len := 3; cap := 4 |} in
  let view := {| base := 3%nat; off := 0; len := 2; cap := 4 |} in
  exists st3,
    evalSliceExpression (Eval 3) Background (Some 11%nat) (int "0" 0)
      (Some (IntegerLiteral (tok INT "2") 2)) scope0 state_arr
    = Ok (Some 17%nat) st3
    /\ objects st3 !! 17%nat = Some (Array view)
    /\ objects st3 !! 11%nat = Some (Array a)
    /\ 17%nat <> 11%nat
    /\ arrays st3 = arrays state_arr
    /\ forall k v st4 st5 backing,
         0 <= k < 2 - 0 ->
         arrays st4 !! 3%nat = Some backing ->
         (0 + Z.to_nat (0 + k) < length backing)%nat ->
         (updateArray 0 view k "=" v st4 = Ok v st5 ->
          Slice_get a (0 + k) st5 = Ok v st5)
         /\ (updateArray 0 a (0 + k) "=" v st4 = Ok v st5 ->
             Slice_get view k st5 = Ok v st5).
Proof.
  set (st1 := after (Eval 3 Background (Expr <$> int "0" 0) scope0 state_arr) state_arr).
  set (st2 := after (Eval 3 Background (Expr <$> int "2" 2) scope0 st1) st1).
  set (a := {| base := 3%nat; off := 0; len := 3; cap := 4 |}).
  apply (C7_slice_shares_storage (Eval 3) Background 0 11%nat (int "0" 0)
           (IntegerLiteral (tok INT "2") 2) scope0 state_arr a 15%nat st1 0 16%nat st2 2 a).
  - vm_compute; reflexivity.
  - vm_compute; reflexivity.
  - vm_compute; reflexivity.
  - vm_compute; reflexivity.
  - vm_compute; reflexivity.
  - vm_compute; reflexivity.
  - by vm_compute.
  - by vm_compute.
  - by vm_compute.
  - by vm_compute.
  - by vm_compute.
Defined.

(** ** [&&] and [||] *)

(** C8: when neither operand evaluates to an Error, [&&] and [||] evaluate
    the left operand, then the right operand in the state the left one
    leaves, whatever the left one is, and return the Boolean that is the
    conjunction, or the disjunction, of the truthiness of the two. *)
Theorem C8_and_or `{rt : GoRuntime}
    fuel ctx tok Left Right s st l st1 r st2 lo ro :
  Context_Done ctx (ticks st) = false ->
  Eval fuel ctx (Expr <$> Left) s (set_ticks S st) = Ok (Some l) st1 ->
  Eval fuel ctx (Expr <$> Right) s st1 = Ok (Some r) st2 ->
  objects st2 !! l = Some lo -> objects st2 !! r = Some ro ->
  Struct_Type lo <> ErrorObj -> Struct_Type ro <> ErrorObj ->
  Eval (S fuel) ctx (Some (Expr (InfixExpression tok Left "&&" Right))) s st
  = Ok (nativeBoolToBooleanObject (spec.truthy lo && spec.truthy ro)) st2
  /\ Eval (S fuel) ctx (Some (Expr (InfixExpression tok Left "||" Right))) s st
     = Ok (nativeBoolToBooleanObject (spec.truthy lo || spec.truthy ro)) st2.
Proof.
  intros Hctx Hl Hr Hlo Hro Hle Hre.
  destruct (evalInfixExpression_and_or fuel st2 l r lo ro) as [Ha Ho]; try done.
  rewrite !Eval_S by done. simpl. unfold evalExpr. split; do 2 step; done.
Qed.

(** [0 && print('x')] is false, and has printed [x]. *)
Lemma C8_and_or_witness :
  outcome
    (Eval 5 Background
       (Some (Expr (InfixExpression (tok token.AND "&&") (int "0" 0) "&&"
                      (call "print" [str "x"]))))
       scope0 state0)
  = (Some (Boolean false), ["x"]).
Proof.
  etransitivity.
  - apply (f_equal outcome). eapply proj1.
    eapply (C8_and_or 4 Background (tok token.AND "&&") (int "0" 0)
              (call "print" [str "x"]) scope0 state0).
    + reflexivity.
    + vm_compute; reflexivity.
    + vm_compute; reflexivity.
    + vm_compute; reflexivity.
    + vm_compute; reflexivity.
    + vm_compute; discriminate.
    + vm_compute; discriminate.
  - vm_compute; reflexivity.
Defined.

(** ** Bindings share their object *)

(** The program of C9, and its variants: with the prefix operator, with
    [--], on a Float, and with the binding of a function's parameter. *)
Example let_shares_the_object :
  struct_of (testEval 40 "let a = 1; let b = a; a++; b") = Some (Integer 2)
  /\ struct_of (testEval 40 "let a = 1; let b = a; ++a; b") = Some (Integer 2)
  /\ struct_of (testEval 40 "let a = 1; let b = a; a--; b") = Some (Integer 0)
  /\ stang.RunProgram 40 Background "let a = 1.5; let b = a; --a; b"
     = stang.Returns "0.5" None
  /\ struct_of (testEval 40 "let a = 1; let f = function(x) { x++; }; f(a); a")
     = Some (Integer 2).
Proof. repeat split; by vm_compute. Qed.

(** C9: let [a] be bound, in the current frame, to an object [p] that is an
    Integer or a Float, [o], and let [b] not be bound there.  Then
    [let b = a] binds [b] to [p] itself; [a++], [++a], [a--] or [--a] then
    overwrites [p] with the number one more, or one less, and returns a
    new object, the number before for a postfix operator and the number
    after for a prefix one; and [b] then evaluates to [p], which is the
    number after.  [let_shares_the_object] runs the program that C9 gives,
    and one that binds a function's parameter. *)
Theorem C9_increment_seen_through_binding `{rt : GoRuntime}
    fuel ctx tok a b s st sc p o (op : string) (prefix : bool) :
  (forall now, Context_Done ctx now = false) ->
  scopes st !! s = Some sc ->
  store sc !! Identifier_Value a = Some (Some p) ->
  store sc !! Identifier_Value b = None ->
  objects st !! p = Some o ->
  Struct_Type o = IntegerObj \/ Struct_Type o = FloatObj ->
  op = "++" \/ op = "--" ->
  let o' := spec.step (String.eqb op "++") o in
  let update :=
    if prefix then PrefixExpression tok op (Some (Ident a))
    else PostfixExpression tok op (Some (Ident a)) in
  exists st1 r st2 st3,
    Eval (S (S fuel)) ctx (Some (Stmt (LetStatement tok (Some b) (Some (Ident a))))) s st
    = Ok (Some p) st1
    /\ Eval (S (S fuel)) ctx (Some (Expr update)) s st1 = Ok (Some r) st2
    /\ objects st2 !! r = Some (if prefix then o' else o)
    /\ r <> p
    /\ Eval (S fuel) ctx (Some (Expr (Ident b))) s st2 = Ok (Some p) st3
    /\ objects st3 !! p = Some o'.
Proof.
  intros Hctx Hsc Ha Hb Hp Hnum Hop o' update.
  assert (Hs : (s < length (scopes st))%nat) by by eapply lookup_lt_Some.
  assert (Hplt : (p < length (objects st))%nat) by by eapply lookup_lt_Some.
  assert (Hab : Identifier_Value a <> Identifier_Value b).
  { intros Heq. unfold Object in *. rewrite Heq in Ha. congruence. }
  assert (Herr : Struct_Type o <> ErrorObj) by (by destruct Hnum as [-> | ->]).
  set (sc1 := {| store := <[Identifier_Value b := Some p]> (store sc);
                 parentScope := parentScope sc |}).
  set (st1 := set_scopes (fun l => <[s := sc1]> l) (set_ticks S (set_ticks S st))).
  assert (Hsc1 : scopes st1 !! s = Some sc1) by by apply list_lookup_insert_eq.
  assert (Ha1 : store sc1 !! Identifier_Value a = Some (Some p)).
  { simpl. unfold Object in *. by rewrite lookup_insert_ne. }
  assert (Hb1 : store sc1 !! Identifier_Value b = Some (Some p)).
  { simpl. unfold Object in *. by rewrite lookup_insert_eq. }
  assert (Hp1 : objects (set_ticks S (set_ticks S st1)) !! p = Some o) by done.
  assert (Hident : Eval (S fuel) ctx (Expr <$> Some (Ident a)) s (set_ticks S st1)
                   = Ok (Some p) (set_ticks S (set_ticks S st1))).
  { by apply Eval_Ident_current with sc1. }
  destruct (Eval_incr_decr (S fuel) ctx tok (Some (Ident a)) s st1 p _ o
              (Hctx _) Hident Hp1 Hnum)
    as (Hpost_incr & Hpre_incr & Hpost_decr & Hpre_decr).
  set (new (returned : Struct) :=
         set_objects (fun l => (<[p := o']> l ++ [returned])%list)
           (set_ticks S (set_ticks S st1))).
  exists st1, (length (objects st)), (new (if prefix then o' else o)),
    (set_ticks S (new (if prefix then o' else o))).
  split; [|split; [|split; [|split; [|split]]]].
  - eapply Eval_LetStatement; try done.
    by apply Eval_Ident_current with sc.
  - subst update o' new. destruct Hop as [-> | ->], prefix; simpl; done.
  - simpl. rewrite lookup_app_r by (by rewrite length_insert).
    by rewrite length_insert, Nat.sub_diag.
  - lia.
  - apply Eval_Ident_current with sc1; done.
  - simpl. rewrite lookup_app_l by (by rewrite length_insert).
    by apply list_lookup_insert_eq.
Qed.

(** After [let a = 1], the object of [a] is at address 11.  [let b = a]
    binds [b] to it, [a++] returns a new Integer 1, and [b] is then the
    Integer 2 at address 11. *)
Lemma C9_increment_seen_through_binding_witness :
  exists st1 r st2 st3,
    Eval 3 Background
      (Some (Stmt (LetStatement (tok INCR "++") (Some (ident "b")) (var "a"))))
      scope0 state_a
    = Ok (Some 11%nat) st1
    /\ Eval 3 Background
         (Some (Expr (PostfixExpression (tok INCR "++") "++" (var "a")))) scope0 st1
       = Ok (Some r) st2
    /\ objects st2 !! r = Some (Integer 1)
    /\ r <> 11%nat
    /\ Eval 2 Background (Expr <$> var "b") scope0 st2 = Ok (Some 11%nat) st3
    /\ objects st3 !! 11%nat = Some (Integer 2).
Proof.
  eapply (C9_increment_seen_through_binding 1 Background (tok INCR "++")
            (ident "a") (ident "b") scope0 state_a _ 11%nat (Integer 1) "++" false).
  - reflexivity.
  - vm_compute; reflexivity.
  - vm_compute; reflexivity.
  - vm_compute; reflexivity.
  - vm_compute; reflexivity.
  - left; reflexivity.
  - left; reflexivity.
Defined.

(** ** Prefix minus *)

(** C10: prefix [-] on an operand that is a String, a Boolean, Null, an
    Array, a Hash, a Function or a Builtin gives [NULL], the one Null object,
    and no Error; nothing but the evaluation of the operand changes the
    state. *)
Theorem C10_minus_not_a_number `{rt : GoRuntime} fuel ctx tok Right s st p st' o :
  Context_Done ctx (ticks st) = false ->
  Eval fuel ctx (Expr <$> Right) s (set_ticks S st) = Ok (Some p) st' ->
  objects st' !! p = Some o ->
  Struct_Type o ∈ [StringObj; BooleanObj; NullObj; ArrayObj; HashObj; FunctionObj;
                   BuiltinObj] ->
  Eval (S fuel) ctx (Some (Expr (PrefixExpression tok "-" Right))) s st
  = Ok (Some NULL) st'.
Proof.
  intros Hctx Hr Hp Hk. rewrite Eval_S by done. simpl. unfold evalExpr.
  step. by apply evalPrefixExpression_minus_other with o.
Qed.

(** [-'abc'] is Null. *)
Lemma C10_minus_not_a_number_witness :
  struct_of (Eval 3 Background (Expr <$> minus (str "abc")) scope0 state0) = Some Null.
Proof.
  etransitivity.
  - apply (f_equal struct_of).
    eapply (C10_minus_not_a_number 2 Background (tok MINUS "-") (str "abc") scope0 state0).
    + reflexivity.
    + vm_compute; reflexivity.
    + vm_compute; reflexivity.
    + apply (bool_decide_unpack _). vm_compute. exact I.
  - vm_compute; reflexivity.
Defined.

(** * More properties of the code *)

(** ** Scopes *)

Section Scopes.

Implicit Types (st : State) (s target : sptr) (key : string) (sc : Scope).

(** The loop of [Get], [Delete] and [Reset] stops at the first frame that
    binds the key to an object, or at the outermost frame. *)
Lemma Scope_walk_reaches st key s target n fuel sct :
  spec.reaches st key s target n ->
  scopes st !! target = Some sct ->
  (exists p, store sct !! key = Some (Some p)) \/ parentScope sct = None ->
  (n < fuel)%nat ->
  Scope_walk fuel s key st = Ok target st.
Proof.
  intros Hr. revert fuel.
  induction Hr as [s|s sc parent target n Hsc Hkey Hpar Hr IH]; intros fuel Ht Hstop Hn.
  - destruct fuel; [lia|]. cbn [Scope_walk].
    erewrite bind_Ok by (by apply loadScope_Some).
    match goal with |- context [match ?x with _ => _ end] => destruct x as [[q|]|] eqn:E end;
      [reflexivity|..];
      (destruct Hstop as [[p Hp]|Hnone];
       [discriminate Hp|by rewrite Hnone]).
  - destruct fuel; [lia|]. cbn [Scope_walk].
    erewrite bind_Ok by (by apply loadScope_Some).
    match goal with |- context [match ?x with _ => _ end] => destruct x as [[q|]|] eqn:E end;
      [destruct Hkey as [Hk|Hk]; unfold Object in *; congruence|..];
      rewrite Hpar; apply IH; auto; lia.
Qed.

Lemma Scope_find_reaches st key s target n sct :
  spec.reaches st key s target n ->
  (n <= length (scopes st))%nat ->
  scopes st !! target = Some sct ->
  (exists p, store sct !! key = Some (Some p)) \/ parentScope sct = None ->
  Scope_find s key st = Ok target st.
Proof.
  intros Hr Hn Ht Hstop. unfold Scope_find. autounfold with monad_ops.
  eapply Scope_walk_reaches; eauto. lia.
Qed.

(** A frame on the way to the target is not the target, when the target
    binds the key to an object. *)
Lemma reaches_insert st key s target n sct sct' p :
  spec.reaches st key s target n ->
  scopes st !! target = Some sct ->
  store sct !! key = Some (Some p) ->
  spec.reaches (set_scopes (fun l => <[target := sct']> l) st) key s target n.
Proof.
  intros Hr Ht Hp.
  induction Hr as [s|s sc parent target n Hsc Hkey Hpar Hr IH]; [constructor|].
  assert (Hne : target <> s).
  { intros ->. unfold Object in *. rewrite Ht in Hsc. injection Hsc as ->.
    destruct Hkey as [Hk|Hk]; rewrite Hk in Hp; discriminate. }
  econstructor; eauto. simpl. by rewrite list_lookup_insert_ne.
Qed.

End Scopes.

(** X1: a name is looked up in the innermost frame that binds it to an
    object.  Going up from the frame [s] through frames that do not bind
    [key] to an object, to a frame [target] that does, or that is the
    outermost one, [Get] returns what [target] holds for [key] and whether
    it holds anything; the state is as it was. *)
Theorem Scope_Get_innermost st key s target n sct :
  spec.reaches st key s target n ->
  (n <= length (scopes st))%nat ->
  scopes st !! target = Some sct ->
  (exists p, store sct !! key = Some (Some p)) \/ parentScope sct = None ->
  Scope_Get s key st
  = Ok (match store sct !! key with
        | Some v => (v, true)
        | None => (None, false)
        end) st.
Proof.
  intros Hr Hn Ht Hstop. unfold Scope_Get.
  erewrite bind_Ok by (by eapply Scope_find_reaches).
  erewrite bind_Ok by (by apply loadScope_Some).
  by destruct (store sct !! key).
Qed.

Lemma Scope_Get_innermost_witness :
  Scope_Get scope1 "a" state_sub = Ok (Some 11%nat, true) state_sub.
Proof.
  etransitivity.
  - eapply (Scope_Get_innermost state_sub "a" scope1 scope0 1).
    + eapply spec.reaches_up; [vm_compute; reflexivity|left; vm_compute; reflexivity
                              |reflexivity|constructor].
    + vm_compute; lia.
    + vm_compute; reflexivity.
    + left. eexists. vm_compute; reflexivity.
  - vm_compute; reflexivity.
Defined.

(** X2: an assignment to a name writes the innermost frame that binds it
    to an object, and no other.  [Reset] from the frame [s] replaces the
    object that [target] holds for [key], returns the new one with [true],
    and [Get] from [s] then returns the new one; the frames other than
    [target], the bindings of other names in [target], its parent and the
    objects are as they were. *)
Theorem Scope_Reset_innermost st key s target n sct old v :
  spec.reaches st key s target n ->
  (n <= length (scopes st))%nat ->
  scopes st !! target = Some sct ->
  store sct !! key = Some (Some old) ->
  exists st' sct',
    Scope_Reset s key (Some v) st = Ok (Some v, true) st'
    /\ Scope_Get s key st' = Ok (Some v, true) st'
    /\ scopes st' !! target = Some sct'
    /\ parentScope sct' = parentScope sct
    /\ (forall key', key' <> key -> store sct' !! key' = store sct !! key')
    /\ (forall s', s' <> target -> scopes st' !! s' = scopes st !! s')
    /\ objects st' = objects st.
Proof.
  intros Hr Hn Ht Hold.
  assert (Hlt : (target < length (scopes st))%nat) by by eapply lookup_lt_Some.
  set (sct' := {| store := <[key := Some v]> (store sct); parentScope := parentScope sct |}).
  set (st' := set_scopes (fun l => <[target := sct']> l) st).
  assert (Ht' : scopes st' !! target = Some sct') by by apply list_lookup_insert_eq.
  exists st', sct'. split; [|split; [|split; [|split; [|split; [|split]]]]]; try done.
  - unfold Scope_Reset.
    erewrite bind_Ok by (eapply Scope_find_reaches; eauto).
    erewrite bind_Ok by (by apply loadScope_Some).
    unfold Object in *. by rewrite Hold.
  - erewrite Scope_Get_innermost with (sct := sct') (target := target) (n := n).
    + simpl. unfold Object in *. by rewrite lookup_insert_eq.
    + by eapply reaches_insert.
    + simpl. by rewrite length_insert.
    + done.
    + left. exists v. simpl. unfold Object in *. by rewrite lookup_insert_eq.
  - intros key' Hne. simpl. unfold Object in *. by rewrite lookup_insert_ne.
  - intros s' Hne. simpl. by rewrite list_lookup_insert_ne.
Qed.

Lemma Scope_Reset_innermost_witness :
  exists st' sct',
    Scope_Reset scope1 "a" (Some TRUE) state_sub = Ok (Some TRUE, true) st'
    /\ Scope_Get scope1 "a" st' = Ok (Some TRUE, true) st'
    /\ scopes st' !! scope0 = Some sct'
    /\ parentScope sct' = None
    /\ (forall key', key' <> "a" -> store sct' !! key' = (∅ : gmap string Object) !! key')
    /\ (forall s', s' <> scope0 -> scopes st' !! s' = scopes state_sub !! s')
    /\ objects st' = objects state_sub.
Proof.
  destruct (Scope_Reset_innermost state_sub "a" scope1 scope0 1
              {| store := {[ "a" := Some 11%nat ]}; parentScope := None |} 11%nat TRUE)
    as (st' & sct' & H1 & H2 & H3 & H4 & H5 & H6 & H7).
  - eapply spec.reaches_up; [vm_compute; reflexivity|left; vm_compute; reflexivity
                            |reflexivity|constructor].
  - vm_compute; lia.
  - vm_compute; reflexivity.
  - vm_compute; reflexivity.
  - exists st', sct'. repeat split; try assumption.
    intros key' Hne. rewrite (H5 key' Hne). simpl.
    rewrite lookup_singleton_ne by done. by rewrite lookup_empty.
Defined.

(** X3: an assignment to a name that no frame binds changes nothing.  When
    the way up from [s] ends at an outermost frame that holds nothing for
    [key], [Reset] returns the value with [false] and the state is as it
    was, and [Get] finds nothing. *)
Theorem Scope_Reset_unbound st key s target n sct v :
  spec.reaches st key s target n ->
  (n <= length (scopes st))%nat ->
  scopes st !! target = Some sct ->
  parentScope sct = None ->
  store sct !! key = None ->
  Scope_Reset s key v st = Ok (v, false) st
  /\ Scope_Get s key st = Ok (None, false) st.
Proof.
  intros Hr Hn Ht Hpar Hnone. split.
  - unfold Scope_Reset.
    erewrite bind_Ok by (eapply Scope_find_reaches; eauto).
    erewrite bind_Ok by (by apply loadScope_Some).
    unfold Object in *. by rewrite Hnone.
  - erewrite Scope_Get_innermost by eauto. unfold Object in *. by rewrite Hnone.
Qed.

Lemma Scope_Reset_unbound_witness :
  Scope_Reset scope1 "b" (Some TRUE) state_sub = Ok (Some TRUE, false) state_sub
  /\ Scope_Get scope1 "b" state_sub = Ok (None, false) state_sub.
Proof.
  eapply (Scope_Reset_unbound state_sub "b" scope1 scope0 1).
  - eapply spec.reaches_up; [vm_compute; reflexivity|left; vm_compute; reflexivity
                            |reflexivity|constructor].
  - vm_compute; lia.
  - vm_compute; reflexivity.
  - reflexivity.
  - vm_compute; reflexivity.
Defined.

(** X4: [Delete] removes the binding of the innermost frame that binds
    the name to an object, and returns the object with [true]; that frame
    then holds nothing for the name, its other bindings and the other
    frames are as they were, and when it is the outermost frame [Get] finds
    nothing any more. *)
Theorem Scope_Delete_innermost st key s target n sct old :
  spec.reaches st key s target n ->
  (n <= length (scopes st))%nat ->
  scopes st !! target = Some sct ->
  store sct !! key = Some (Some old) ->
  exists st',
    Scope_Delete s key st = Ok (Some old, true) st'
    /\ Scope_GetCurrent target key st' = Ok (None, false) st'
    /\ (forall key' v, key' <> key -> store sct !! key' = Some v ->
        Scope_GetCurrent target key' st' = Ok (v, true) st')
    /\ (forall s', s' <> target -> scopes st' !! s' = scopes st !! s')
    /\ (parentScope sct = None -> Scope_Get s key st' = Ok (None, false) st').
Proof.
  intros Hr Hn Ht Hold.
  assert (Hlt : (target < length (scopes st))%nat) by by eapply lookup_lt_Some.
  set (sct' := {| store := delete key (store sct); parentScope := parentScope sct |}).
  set (st' := set_scopes (fun l => <[target := sct']> l) st).
  assert (Ht' : scopes st' !! target = Some sct') by by apply list_lookup_insert_eq.
  exists st'. split; [|split; [|split; [|split]]].
  - unfold Scope_Delete.
    erewrite bind_Ok by (eapply Scope_find_reaches; eauto).
    erewrite bind_Ok by (by apply loadScope_Some).
    unfold Object in *. by rewrite Hold.
  - unfold Scope_GetCurrent. erewrite bind_Ok by (by apply loadScope_Some).
    simpl. unfold Object in *. by rewrite lookup_delete_eq.
  - intros key' v Hne Hv. unfold Scope_GetCurrent.
    erewrite bind_Ok by (by apply loadScope_Some).
    simpl. unfold Object in *. by rewrite lookup_delete_ne, Hv.
  - intros s' Hne. simpl. by rewrite list_lookup_insert_ne.
  - intros Hpar.
    erewrite Scope_Get_innermost with (sct := sct') (target := target) (n := n).
    + simpl. unfold Object in *. by rewrite lookup_delete_eq.
    + by eapply reaches_insert.
    + simpl. by rewrite length_insert.
    + done.
    + by right.
Qed.

Lemma Scope_Delete_innermost_witness :
  exists st',
    Scope_Delete scope1 "a" state_sub = Ok (Some 11%nat, true) st'
    /\ Scope_GetCurrent scope0 "a" st' = Ok (None, false) st'
    /\ (forall s', s' <> scope0 -> scopes st' !! s' = scopes state_sub !! s')
    /\ Scope_Get scope1 "a" st' = Ok (None, false) st'.
Proof.
  destruct (Scope_Delete_innermost state_sub "a" scope1 scope0 1
              {| store := {[ "a" := Some 11%nat ]}; parentScope := None |} 11%nat)
    as (st' & H1 & H2 & _ & H4 & H5).
  - eapply spec.reaches_up; [vm_compute; reflexivity|left; vm_compute; reflexivity
                            |reflexivity|constructor].
  - vm_compute; lia.
  - vm_compute; reflexivity.
  - vm_compute; reflexivity.
  - exists st'. repeat split; try assumption. by apply H5.
Defined.

(** X5: [Set] binds the name in the frame it is called on, whatever the
    outer frames hold: [GetCurrent] and [Get] from that frame then return
    the object, the other names of the frame are bound as before, and the
    other frames are as they were. *)
Theorem Scope_Set_Get st s sc key p :
  scopes st !! s = Some sc ->
  exists st',
    Scope_Set s key (Some p) st = Ok (Some p) st'
    /\ Scope_GetCurrent s key st' = Ok (Some p, true) st'
    /\ Scope_Get s key st' = Ok (Some p, true) st'
    /\ (forall key', key' <> key ->
        Scope_GetCurrent s key' st'
        = Ok (match store sc !! key' with
              | Some v => (v, true)
              | None => (None, false)
              end) st')
    /\ (forall s', s' <> s -> scopes st' !! s' = scopes st !! s').
Proof.
  intros Hsc.
  assert (Hlt : (s < length (scopes st))%nat) by by eapply lookup_lt_Some.
  set (sc' := {| store := <[key := Some p]> (store sc); parentScope := parentScope sc |}).
  set (st' := set_scopes (fun l => <[s := sc']> l) st).
  assert (Hsc' : scopes st' !! s = Some sc') by by apply list_lookup_insert_eq.
  assert (Hkey : store sc' !! key = Some (Some p)).
  { simpl. unfold Object in *. by rewrite lookup_insert_eq. }
  exists st'. split; [|split; [|split; [|split]]].
  - unfold Scope_Set. by erewrite bind_Ok by (by apply loadScope_Some).
  - unfold Scope_GetCurrent. erewrite bind_Ok by (by apply loadScope_Some).
    unfold Object in *. by rewrite Hkey.
  - exact (Scope_Get_current s key st' sc' p Hsc' Hkey).
  - intros key' Hne. unfold Scope_GetCurrent.
    erewrite bind_Ok by (by apply loadScope_Some).
    simpl. unfold Object in *. rewrite lookup_insert_ne by done.
    match goal with |- context [match ?x with _ => _ end] => destruct x end; reflexivity.
  - intros s' Hne. simpl. by rewrite list_lookup_insert_ne.
Qed.

Lemma Scope_Set_Get_witness :
  exists st',
    Scope_Set scope1 "a" (Some TRUE) state_sub = Ok (Some TRUE) st'
    /\ Scope_GetCurrent scope1 "a" st' = Ok (Some TRUE, true) st'
    /\ Scope_Get scope1 "a" st' = Ok (Some TRUE, true) st'
    /\ (forall s', s' <> scope1 -> scopes st' !! s' = scopes state_sub !! s').
Proof.
  destruct (Scope_Set_Get state_sub scope1 {| store := ∅; parentScope := Some scope0 |}
              "a" TRUE)
    as (st' & H1 & H2 & H3 & _ & H5).
  - vm_compute; reflexivity.
  - exists st'. repeat split; assumption.
Defined.

(** ** Names *)

Lemma reaches_scopes st st' key s target n :
  scopes st' = scopes st ->
  spec.reaches st key s target n -> spec.reaches st' key s target n.
Proof.
  intros Heq Hr. induction Hr; econstructor; eauto. by rewrite Heq.
Qed.

(** X6: an identifier evaluates to what the innermost frame that binds it
    to an object holds for it; a name that the frames do not bind
    evaluates to the builtin of that name, and to the Error
    [unknown identifier] when there is none.  A binding in any frame on
    the way hides a builtin. *)
Theorem Eval_Ident_resolves `{rt : GoRuntime} fuel ctx name s st target n sct :
  let key := Identifier_Value name in
  Context_Done ctx (ticks st) = false ->
  spec.reaches st key s target n ->
  (n <= length (scopes st))%nat ->
  scopes st !! target = Some sct ->
  (exists p, store sct !! key = Some (Some p)) \/ parentScope sct = None ->
  Eval (S fuel) ctx (Some (Expr (Ident name))) s st
  = match store sct !! key with
    | Some v => Ok v (set_ticks S st)
    | None =>
        match builtins !! key with
        | Some b => Ok (Some b) (set_ticks S st)
        | None =>
            Ok (Some (length (objects st)))
               (with_error (set_ticks S st) (errorMsg UNKNOWNIDENT [fmt.S key]))
        end
    end.
Proof.
  intros key Hctx Hr Hn Ht Hstop. rewrite Eval_S by done.
  cbv beta iota delta [evalNode]. unfold evalIdentifier. fold key.
  erewrite bind_Ok;
    [|eapply Scope_Get_innermost with (sct := sct);
      [eapply reaches_scopes; [|exact Hr]; reflexivity|done..]].
  destruct (store sct !! key); [reflexivity|].
  cbv beta iota. by destruct (builtins !! key).
Qed.

Lemma Eval_Ident_resolves_witness :
  struct_of (Eval 1 Background (Expr <$> var "a") scope1 state_sub)
  = Some (Integer 1)
  /\ struct_of (Eval 1 Background (Expr <$> var "len") scope1
                  state_sub)
     = Some (Builtin fn_len)
  /\ struct_of (Eval 1 Background (Expr <$> var "b") scope1
                  state_sub)
     = Some (Error "unknown identifier: 'b' is not defined").
Proof.
  split; [|split].
  - etransitivity.
    + apply (f_equal struct_of).
      eapply (Eval_Ident_resolves 0 Background (ident "a") scope1
                state_sub scope0 1).
      * reflexivity.
      * eapply spec.reaches_up;
          [vm_compute; reflexivity|left; vm_compute; reflexivity|reflexivity|constructor].
      * vm_compute; lia.
      * vm_compute; reflexivity.
      * left. eexists. vm_compute; reflexivity.
    + vm_compute; reflexivity.
  - etransitivity.
    + apply (f_equal struct_of).
      eapply (Eval_Ident_resolves 0 Background (ident "len") scope1
                state_sub scope0 1).
      * reflexivity.
      * eapply spec.reaches_up;
          [vm_compute; reflexivity|left; vm_compute; reflexivity|reflexivity|constructor].
      * vm_compute; lia.
      * vm_compute; reflexivity.
      * by right.
    + vm_compute; reflexivity.
  - etransitivity.
    + apply (f_equal struct_of).
      eapply (Eval_Ident_resolves 0 Background (ident "b") scope1
                state_sub scope0 1).
      * reflexivity.
      * eapply spec.reaches_up;
          [vm_compute; reflexivity|left; vm_compute; reflexivity|reflexivity|constructor].
      * vm_compute; lia.
      * vm_compute; reflexivity.
      * by right.
    + vm_compute; reflexivity.
Defined.

(** X7: a [let] of a name that the current frame already holds is the
    Error [variable ... has been defined]: the value is not evaluated and
    no frame changes.  Only the current frame counts. *)
Theorem Eval_LetStatement_redefine `{rt : GoRuntime}
    fuel ctx tok name Value s st sc v :
  Context_Done ctx (ticks st) = false ->
  scopes st !! s = Some sc ->
  store sc !! Identifier_Value name = Some v ->
  Eval (S fuel) ctx (Some (Stmt (LetStatement tok (Some name) Value))) s st
  = Ok (Some (length (objects st)))
       (with_error (set_ticks S st)
          (errorMsg REDEFINE [fmt.S (Identifier_Value name)])).
Proof.
  intros Hctx Hsc Hname.
  rewrite Eval_S by done. cbv beta iota delta [evalNode].
  unfold evalLetStatement, Scope_GetCurrent.
  erewrite bind_assoc, bind_Ok by (by apply loadScope_Some).
  unfold Object in *. by rewrite Hname.
Qed.

Lemma Eval_LetStatement_redefine_witness :
  outcome
    (Eval 1 Background
       (Some (Stmt (LetStatement (tok LET "let") (Some (ident "a"))
                      (call "print" [str "x"]))))
       scope0 state_a)
  = (Some (Error "variable a has been defined"), []).
Proof.
  etransitivity.
  - apply (f_equal outcome).
    eapply (Eval_LetStatement_redefine 0 Background (tok LET "let")
              (ident "a") _ scope0 state_a).
    + reflexivity.
    + vm_compute; reflexivity.
    + vm_compute; reflexivity.
  - vm_compute; reflexivity.
Defined.

(** ** Operators *)

(** X8: [!] is the negation of truthiness.  In a state where [TRUE],
    [FALSE] and [NULL] are what they are at the start, and for an operand
    that is one of the three when it is a Boolean or Null, and no Error,
    [!x] is [FALSE] when [isTruthy] of the operand is true and [TRUE] when
    it is false; the state is as it was. *)
Theorem evalPrefixExpression_bang st p o :
  objects st !! TRUE = Some (Boolean true) ->
  objects st !! FALSE = Some (Boolean false) ->
  objects st !! NULL = Some Null ->
  objects st !! p = Some o ->
  (forall b, o = Boolean b -> p = if b then TRUE else FALSE) ->
  (o = Null -> p = NULL) ->
  Struct_Type o <> ErrorObj ->
  isTruthy (Some p) st = Ok (spec.truthy o) st
  /\ evalPrefixExpression "!" (Some p) st
     = Ok (nativeBoolToBooleanObject (negb (spec.truthy o))) st.
Proof.
  intros HT HF HN Hp Hbool Hnull Herr. split; [by apply isTruthy_Some|].
  unfold evalPrefixExpression. step. rewrite streq_false by done. simpl.
  unfold evalBangExpression.
  case_decide as H1.
  { injection H1 as ->. rewrite HT in Hp. by injection Hp as <-. }
  case_decide as H2.
  { injection H2 as ->. rewrite HF in Hp. by injection Hp as <-. }
  case_decide as H3.
  { injection H3 as ->. rewrite HN in Hp. by injection Hp as <-. }
  step. destruct o; simpl; try reflexivity.
  - by destruct (Value =? 0).
  - by destruct (float_is_zero Value).
  - specialize (Hbool Value eq_refl). destruct Value; congruence.
  - specialize (Hnull eq_refl). congruence.
Qed.

Lemma evalPrefixExpression_bang_witness :
  isTruthy (Some 11%nat) state_a = Ok true state_a
  /\ evalPrefixExpression "!" (Some 11%nat) state_a = Ok (Some FALSE) state_a.
Proof.
  apply (evalPrefixExpression_bang state_a 11%nat (Integer 1)).
  - vm_compute; reflexivity.
  - vm_compute; reflexivity.
  - vm_compute; reflexivity.
  - vm_compute; reflexivity.
  - intros b Hb; discriminate Hb.
  - intros Hb; discriminate Hb.
  - vm_compute; discriminate.
Defined.

(** X9: [/] on two numbers, Integer or Float in any combination, whose
    right one is zero, is the Error [cannot divide by zero]; both operands
    have been evaluated. *)
Theorem Eval_divide_by_zero `{rt : GoRuntime}
    fuel ctx tok Left Right s st l st1 r st2 lo ro a b :
  Context_Done ctx (ticks st) = false ->
  Eval fuel ctx (Expr <$> Left) s (set_ticks S st) = Ok (Some l) st1 ->
  Eval fuel ctx (Expr <$> Right) s st1 = Ok (Some r) st2 ->
  objects st2 !! l = Some lo -> objects st2 !! r = Some ro ->
  spec.number lo = Some a -> spec.number ro = Some b ->
  float_is_zero b = true ->
  Eval (S fuel) ctx (Some (Expr (InfixExpression tok Left "/" Right))) s st
  = Ok (Some (length (objects st2))) (with_error st2 "cannot divide by zero").
Proof.
  intros Hctx Hl Hr Hlo Hro Ha Hb Hz.
  rewrite Eval_S by done. simpl. unfold evalExpr. do 2 step.
  by eapply evalInfixExpression_divide_by_zero.
Qed.

Lemma Eval_divide_by_zero_witness :
  struct_of
    (Eval 2 Background
       (Some (Expr (InfixExpression (tok SLASH "/") (int "5" 5) "/"
                      (Some (FloatLiteral (tok FLOAT "0.0") PrimFloat.zero)))))
       scope0 state0)
  = Some (Error "cannot divide by zero").
Proof.
  etransitivity.
  - apply (f_equal struct_of).
    eapply (Eval_divide_by_zero 1 Background (tok SLASH "/") (int "5" 5)
              (Some (FloatLiteral (tok FLOAT "0.0") PrimFloat.zero)) scope0 state0).
    + reflexivity.
    + vm_compute; reflexivity.
    + vm_compute; reflexivity.
    + vm_compute; reflexivity.
    + vm_compute; reflexivity.
    + vm_compute; reflexivity.
    + vm_compute; reflexivity.
    + vm_compute; reflexivity.
  - vm_compute; reflexivity.
Defined.

(** ** Control flow *)

(** X10: an [if] takes its consequence when the condition is truthy, and
    its alternative, or [NULL] without one, when it is not; the branch is
    evaluated in the frame of the [if] itself, after the condition.  A
    condition that evaluates to an Error is truthy: the consequence is
    evaluated. *)
Theorem Eval_IfExpression `{rt : GoRuntime}
    fuel ctx tok Condition Consequence Alternative s st c st1 o :
  Context_Done ctx (ticks st) = false ->
  Eval fuel ctx (Expr <$> Condition) s (set_ticks S st) = Ok (Some c) st1 ->
  objects st1 !! c = Some o ->
  Eval (S fuel) ctx
    (Some (Expr (IfExpression tok Condition Consequence Alternative))) s st
  = (if spec.truthy o then Eval fuel ctx (Some (Stmt (BlockStmt Consequence))) s st1
     else
       match Alternative with
       | Some alt => Eval fuel ctx (Some (Stmt (BlockStmt alt))) s st1
       | None => Ok (Some NULL) st1
       end)
  /\ (Struct_Type o = ErrorObj -> spec.truthy o = true).
Proof.
  intros Hctx Hc Ho. split; [|by destruct o].
  rewrite Eval_S by done. simpl. unfold evalIfExpression, evalExpr, evalBlock.
  do 2 step. by destruct (spec.truthy o), Alternative.
Qed.

(** [if (b) { 1 } else { 2 }], with [b] not defined, is 1. *)
Lemma Eval_IfExpression_witness :
  struct_of
    (Eval 4 Background
       (Some (Expr (IfExpression (tok IF "if") (var "b")
                      (Block (tok LBRACE "{") [ExpressionStatement (tok INT "1") (int "1" 1)])
                      (Some (Block (tok LBRACE "{")
                               [ExpressionStatement (tok INT "2") (int "2" 2)])))))
       scope0 state0)
  = Some (Integer 1).
Proof.
  etransitivity.
  - apply (f_equal struct_of). eapply proj1.
    eapply (Eval_IfExpression 3 Background (tok IF "if") (var "b") _ _ scope0 state0).
    + reflexivity.
    + vm_compute; reflexivity.
    + vm_compute; reflexivity.
  - vm_compute; reflexivity.
Defined.

(** X11: a [while] whose body has no statement panics as soon as its
    condition is truthy: the body evaluates to nil, and the loop asks the
    type of what the body evaluated to.  The [for] loop tests for nil. *)
Theorem Eval_WhileExpression_empty_body `{rt : GoRuntime}
    fuel ctx tok tok' Condition s st c st1 o :
  let inner := length (scopes st) in
  let st0 :=
    set_scopes (fun l => (l ++ [{| store := ∅; parentScope := Some s |}])%list)
      (set_ticks S st) in
  Context_Done ctx (ticks st) = false ->
  Eval (S fuel) ctx (Expr <$> Condition) inner st0 = Ok (Some c) st1 ->
  objects st1 !! c = Some o ->
  Struct_Type o <> ErrorObj ->
  spec.truthy o = true ->
  Context_Done ctx (ticks st1) = false ->
  Eval (S (S fuel)) ctx
    (Some (Expr (WhileExpression tok Condition (Block tok' [])))) s st
  = Panic NilDereference.
Proof.
  intros inner st0 Hctx Hc Ho Herr Htrue Hctx1.
  rewrite Eval_S by done. cbv beta iota delta [evalNode].
  unfold evalWhileExpression, evalExpr.
  erewrite bind_Ok by reflexivity.
  erewrite bind_Ok by exact Hc.
  step. rewrite streq_false by done.
  cbn [whileLoop]. step. rewrite Htrue. unfold evalBlock.
  erewrite bind_eq by (by apply Eval_S). reflexivity.
Qed.

(** [while (true) {}] *)
Lemma Eval_WhileExpression_empty_body_witness :
  Eval 2 Background
    (Some (Expr (WhileExpression (tok WHILE "while")
                   (Some (BooleanLiteral (tok token.TRUE "true") true))
                   (Block (tok LBRACE "{") []))))
    scope0 state0
  = Panic NilDereference.
Proof.
  eapply (Eval_WhileExpression_empty_body 0 Background).
  - reflexivity.
  - vm_compute; reflexivity.
  - vm_compute; reflexivity.
  - vm_compute; discriminate.
  - vm_compute; reflexivity.
  - reflexivity.
Defined.

(** ** Loops *)

(** X12: after a [continue] the [while] loop does not evaluate its
    condition again.  When the condition object is truthy and the body
    evaluates to [CONTINUE] in every state of a set [Inv] that it stays in,
    the loop does not return, however much fuel it has and whatever its
    condition expression is: the next round tests the condition object of
    the round before. *)
Theorem whileLoop_continue_skips_condition `{rt : GoRuntime}
    (E : EvalT) ctx Condition Body inner condition (Inv : State -> Prop) :
  (forall st, Inv st ->
     isTruthy condition st = Ok true st
     /\ exists st',
          E ctx (Some (Stmt (BlockStmt Body))) inner st = Ok (Some CONTINUE) st'
          /\ objects st' !! CONTINUE = Some Continue
          /\ Inv st') ->
  forall fuel result st,
    Inv st ->
    whileLoop E ctx fuel Condition Body inner condition result st = OutOfFuel.
Proof.
  intros Hbody fuel. induction fuel as [|fuel IH]; intros result st HInv; [reflexivity|].
  destruct (Hbody st HInv) as (Htrue & st' & HE & Hcont & HInv').
  cbn [whileLoop]. erewrite bind_Ok by exact Htrue. cbv beta iota.
  unfold evalBlock. erewrite bind_Ok by exact HE.
  step. rewrite streq_false by done. step. cbv beta iota.
  by apply IH.
Qed.

(** [while (...) { continue }] once its condition has been [true], with
    [false] as its condition. *)
Lemma whileLoop_continue_skips_condition_witness :
  whileLoop (Eval 3) Background 1000
    (Some (BooleanLiteral (tok token.FALSE "false") false)) block_continue
    scope0 (Some TRUE) None state0
  = OutOfFuel.
Proof.
  apply (whileLoop_continue_skips_condition (Eval 3) Background
           (Some (BooleanLiteral (tok token.FALSE "false") false)) block_continue
           scope0 (Some TRUE)
           (fun st => objects st !! TRUE = Some (Boolean true)
                      /\ objects st !! CONTINUE = Some Continue)).
  - intros st [HT HC]. split.
    + unfold isTruthy. by rewrite (bind_Ok _ _ _ _ _ (typeOf_Some _ _ _ HT)).
    + eexists. split; [|split; [|split]].
      * rewrite Eval_S by done. unfold block_continue.
        cbn [evalNode evalBlockStatement].
        erewrite bind_Ok.
        2: { rewrite Eval_S by done. cbn [evalNode]. unfold evalExpr.
             cbn [fmap option_fmap option_map].
             rewrite Eval_S by done. reflexivity. }
        cbv beta iota.
        erewrite bind_Ok by (by apply Object_Type_Some).
        reflexivity.
      * exact HC.
      * exact HT.
      * exact HC.
  - split; reflexivity.
Defined.

(** ** Calls *)

Section Calls.

Context `{rt : GoRuntime}.

(** The bindings that a call adds to a store, the later one of two
    parameters of the same name last. *)
Lemma bindParameters_bound sub params i args st sc :
  scopes st !! sub = Some sc ->
  (i + length params <= length args)%nat ->
  bindParameters sub params i args st
  = Ok tt
      (set_scopes
         (fun l =>
            <[sub := {| store :=
                          foldl (fun m pa => <[Identifier_Value pa.1 := pa.2]> m)
                            (store sc) (zip params (drop i args));
                        parentScope := parentScope sc |}]> l)
         st).
Proof.
  revert i st sc.
  induction params as [|param rest IH]; intros i st sc Hsc Hlen.
  - simpl. f_equal. destruct st, sc. unfold set_scopes. simpl in *. f_equal.
    symmetry. by apply list_insert_id.
  - simpl in Hlen.
    destruct (lookup_lt_is_Some_2 args i) as [a Ha]; [lia|].
    cbn [bindParameters]. unfold arg_at. rewrite Ha.
    rewrite bind_ret. unfold Scope_Set.
    erewrite bind_assoc, bind_Ok by (by apply loadScope_Some).
    autounfold with monad_ops. unfold storeScope. autounfold with monad_ops.
    assert (Hs : (sub < length (scopes st))%nat) by by eapply lookup_lt_Some.
    erewrite IH; [|by apply list_lookup_insert_eq|lia].
    rewrite (drop_S _ _ _ Ha). simpl. f_equal. unfold set_scopes. simpl. f_equal.
    by rewrite list_insert_insert_eq.
Qed.

Lemma bindParameters_missing sub params i args st :
  (sub < length (scopes st))%nat ->
  (i <= length args < i + length params)%nat ->
  bindParameters sub params i args st
  = Panic (IndexOutOfRange (Z.of_nat (length args)) (Z.of_nat (length args))).
Proof.
  revert i st.
  induction params as [|param rest IH]; intros i st Hs Hlen; [simpl in Hlen; lia|].
  cbn [bindParameters]. unfold arg_at.
  destruct (args !! i) as [a|] eqn:Ha.
  - apply lookup_lt_Some in Ha. simpl in Hlen.
    rewrite bind_ret. unfold Scope_Set.
    destruct (lookup_lt_is_Some_2 (scopes st) sub Hs) as [sc Hsc].
    erewrite bind_assoc, bind_Ok by (by apply loadScope_Some).
    autounfold with monad_ops. unfold storeScope. autounfold with monad_ops.
    apply IH; [simpl; by rewrite length_insert|lia].
  - apply lookup_ge_None in Ha. replace i with (length args) by lia. reflexivity.
Qed.

End Calls.

(** X13: a call of a function with at least as many arguments as it
    has parameters evaluates its body in a new frame, whose parent is the
    frame the function was made in and not the caller's, and in which each
    parameter is bound to the argument object itself; arguments beyond the
    parameters are dropped.  The call returns what the body evaluates to,
    unwrapped when it is a return value. *)
Theorem applyFunction_binds `{rt : GoRuntime}
    (E : EvalT) ctx fuel f args st Parameters Body Scope_ :
  objects st !! f = Some (Function Parameters Body Scope_) ->
  (length Parameters <= length args)%nat ->
  let sub := length (scopes st) in
  let frame :=
    {| store := foldl (fun m pa => <[Identifier_Value pa.1 := pa.2]> m) ∅
                  (zip Parameters args);
       parentScope := Some Scope_ |} in
  applyFunction E ctx fuel (Some f) args st
  = (result ← E ctx (Some (Stmt (BlockStmt Body))) sub;
     t ← typeOf result;
     match t with
     | Some (_, ReturnValue v) => ret v
     | _ => ret result
     end) (set_scopes (fun l => (l ++ [frame])%list) st).
Proof.
  intros Hf Hlen sub frame.
  match goal with |- _ = ?r => set (rhs := r) end.
  unfold applyFunction. step. cbv beta iota.
  erewrite bind_Ok by reflexivity.
  erewrite bind_Ok.
  2: { apply bindParameters_bound with
         (sc := {| store := ∅; parentScope := Some Scope_ |}); [|done].
       simpl. rewrite lookup_app_r by done. by rewrite Nat.sub_diag. }
  subst rhs. unfold evalBlock. simpl. rewrite drop_0. fold sub frame.
  f_equal. unfold set_scopes. simpl. f_equal.
  subst sub. rewrite insert_app_r_alt by done. by rewrite Nat.sub_diag.
Qed.

(** X14: a call of a function with fewer arguments than it has parameters
    panics, with an index out of range: the parameters are bound by
    [args[i]]. *)
Theorem applyFunction_too_few_arguments `{rt : GoRuntime}
    (E : EvalT) ctx fuel f args st Parameters Body Scope_ :
  objects st !! f = Some (Function Parameters Body Scope_) ->
  (length args < length Parameters)%nat ->
  applyFunction E ctx fuel (Some f) args st
  = Panic (IndexOutOfRange (Z.of_nat (length args)) (Z.of_nat (length args))).
Proof.
  intros Hf Hlen. unfold applyFunction. step. cbv beta iota.
  erewrite bind_Ok by reflexivity.
  erewrite bind_eq.
  2: { apply bindParameters_missing; [|lia]. simpl. rewrite length_app. simpl. lia. }
  reflexivity.
Qed.

(** [f(true, false, null)], for [let f = function(x, y) { x }], is [true]. *)
Lemma applyFunction_binds_witness :
  struct_of
    (applyFunction (Eval 3) Background 3 (Some 11%nat) [Some TRUE; Some FALSE; Some NULL]
       state_fn)
  = Some (Boolean true).
Proof.
  etransitivity.
  - apply (f_equal struct_of).
    eapply (applyFunction_binds (Eval 3) Background 3 11%nat
              [Some TRUE; Some FALSE; Some NULL] state_fn).
    + vm_compute; reflexivity.
    + simpl; lia.
  - vm_compute; reflexivity.
Defined.

(** [f(true)], for [let f = function(x, y) { x }] *)
Lemma applyFunction_too_few_arguments_witness :
  applyFunction (Eval 3) Background 3 (Some 11%nat) [Some TRUE] state_fn
  = Panic (IndexOutOfRange 1 1).
Proof.
  eapply (applyFunction_too_few_arguments (Eval 3) Background 3 11%nat [Some TRUE]
            state_fn).
  - vm_compute; reflexivity.
  - simpl; lia.
Defined.

(** ** Hashes *)

(** X15: reading a hash at a key.  When the indexed expression evaluates
    to a Hash, it is evaluated a second time, then the index: the result is
    the value of the entry with the key's [HashKey], [NULL] when the hash
    has no such entry, and the Error [type ... is not hashable] when the
    key is an Array, a Hash, a Function or another object without a
    [HashKey]. *)
Theorem Eval_IndexExpression_Hash `{rt : GoRuntime}
    fuel ctx tok Left Index s st e st1 pairs0 h st2 pairs2 k st3 ko pairs :
  Context_Done ctx (ticks st) = false ->
  spec.is_slice Index = false ->
  Eval fuel ctx (Expr <$> Left) s (set_ticks S st) = Ok (Some e) st1 ->
  objects st1 !! e = Some (Hash pairs0) ->
  Eval fuel ctx (Expr <$> Left) s st1 = Ok (Some h) st2 ->
  objects st2 !! h = Some (Hash pairs2) ->
  Eval fuel ctx (Expr <$> Index) s st2 = Ok (Some k) st3 ->
  objects st3 !! k = Some ko ->
  Struct_Type ko <> ErrorObj ->
  objects st3 !! h = Some (Hash pairs) ->
  Eval (S fuel) ctx (Some (Expr (IndexExpression tok Left Index))) s st
  = match Struct_HashKey ko with
    | Some hashkey =>
        Ok (match pairs !! hashkey with
            | Some kv => HashPair_Value kv
            | None => Some NULL
            end) st3
    | None =>
        Ok (Some (length (objects st3)))
           (with_error st3 (errorMsg NOTHASHABLE [fmt.S (Struct_Type ko)]))
    end.
Proof.
  intros Hctx Hslice He Hehash Hh Hh2 Hk Hko Herr Hh3.
  rewrite Eval_S by done. simpl.
  rewrite evalIndexExpression_index by done.
  unfold evalExpr. steps.
  unfold evalHashIndexExpressionFunc, evalExpr. steps.
  rewrite streq_false by done. steps.
  unfold hashable. steps.
  destruct (Struct_HashKey ko) as [hashkey|]; steps.
  - unfold loadHash. steps. by destruct (pairs !! hashkey).
  - reflexivity.
Qed.

(** [{1: 2}[1]] is 2. *)
Lemma Eval_IndexExpression_Hash_witness :
  struct_of
    (Eval 4 Background
       (Some (Expr (IndexExpression (tok LBRACKET "[")
                      (Some (HashLiteral (tok LBRACE "{") [(int "1" 1, int "2" 2)]))
                      (int "1" 1))))
       scope0 state0)
  = Some (Integer 2).
Proof.
  etransitivity.
  - apply (f_equal struct_of).
    eapply (Eval_IndexExpression_Hash 3 Background (tok LBRACKET "[")
              (Some (HashLiteral (tok LBRACE "{") [(int "1" 1, int "2" 2)]))
              (int "1" 1) scope0 state0).
    + reflexivity.
    + reflexivity.
    + vm_compute; reflexivity.
    + vm_compute; reflexivity.
    + vm_compute; reflexivity.
    + vm_compute; reflexivity.
    + vm_compute; reflexivity.
    + vm_compute; reflexivity.
    + vm_compute; discriminate.
    + vm_compute; reflexivity.
  - vm_compute; reflexivity.
Defined.

(** X16: which keys share an entry of a hash.  Two objects with the same
    [HashKey] are of the same kind, so that [1], [1.0], ['1'] and [true]
    are four keys; two Integers (of 64 bits) with the same [HashKey] are
    equal, and so are two Booleans.  An Array, a Hash, a Function, a
    Builtin, Null and an Error have no [HashKey]. *)
Theorem Struct_HashKey_injective `{rt : GoRuntime} o1 o2 hashkey :
  Struct_HashKey o1 = Some hashkey ->
  Struct_HashKey o2 = Some hashkey ->
  Struct_Type o1 = Struct_Type o2
  /\ Struct_Type o1 ∈ [IntegerObj; FloatObj; BooleanObj; StringObj]
  /\ (forall a b, o1 = Integer a -> o2 = Integer b ->
      - 2 ^ 63 <= a < 2 ^ 63 -> - 2 ^ 63 <= b < 2 ^ 63 -> a = b)
  /\ (forall a b, o1 = Boolean a -> o2 = Boolean b -> a = b).
Proof.
  intros H1 H2. split; [|split; [|split]].
  - destruct o1, o2; try discriminate; simpl in *; try reflexivity;
      exfalso; rewrite <- H1 in H2; injection H2 as Hty _;
      vm_compute in Hty; discriminate Hty.
  - destruct o1; try discriminate; simpl; set_solver.
  - intros a b -> -> Ha Hb. simpl in *. injection H1 as <-. injection H2 as H2.
    unfold uint64 in H2. Z.div_mod_to_equations. lia.
  - intros a b -> ->. simpl in *. injection H1 as <-. injection H2 as H2.
    by destruct a, b.
Qed.

Lemma Struct_HashKey_injective_witness :
  Struct_Type (Integer (-1)) = Struct_Type (Integer (-1))
  /\ Struct_Type (Integer (-1)) ∈ [IntegerObj; FloatObj; BooleanObj; StringObj]
  /\ (forall a b, Integer (-1) = Integer a -> Integer (-1) = Integer b ->
      - 2 ^ 63 <= a < 2 ^ 63 -> - 2 ^ 63 <= b < 2 ^ 63 -> a = b)
  /\ (forall a b, Integer (-1) = Boolean a -> Integer (-1) = Boolean b -> a = b).
Proof.
  apply (Struct_HashKey_injective (Integer (-1)) (Integer (-1))
           (IntegerObj, 18446744073709551615)).
  - vm_compute; reflexivity.
  - vm_compute; reflexivity.
Defined.

(** ** Arrays *)

Section Arrays.

Context `{rt : GoRuntime}.

(** [append]: the elements are the old ones, then [v]; the objects are
    untouched. *)
Lemma append_elems sl v st backing :
  arrays st !! base sl = Some backing ->
  spec.within sl backing ->
  exists sl' st' backing',
    append sl v st = Ok sl' st'
    /\ objects st' = objects st
    /\ len sl' = S (len sl)
    /\ arrays st' !! base sl' = Some backing'
    /\ spec.within sl' backing'
    /\ take (len sl') (drop (off sl') backing')
       = (take (len sl) (drop (off sl) backing) ++ [v])%list.
Proof.
  intros Hb [Hlen Hcap]. unfold append.
  erewrite bind_Ok by (unfold loadArray; by rewrite Hb).
  assert (Hbase : (base sl < length (arrays st))%nat) by by eapply lookup_lt_Some.
  destruct (Nat.ltb_spec (len sl) (cap sl)) as [Hlt|Hge].
  - eexists _, _, (<[(off sl + len sl)%nat := v]> backing).
    split; [reflexivity|]. simpl.
    split; [reflexivity|]. split; [reflexivity|].
    split; [by apply list_lookup_insert_eq|].
    split; [split; simpl; rewrite ?length_insert; lia|].
    rewrite drop_insert_ge by lia.
    replace (off sl + len sl - off sl)%nat with (len sl) by lia.
    assert (Hd : (len sl < length (drop (off sl) backing))%nat)
      by (rewrite length_drop; lia).
    destruct (lookup_lt_is_Some_2 _ _ Hd) as [x Hx].
    rewrite (take_S_r _ _ v) by (by apply list_lookup_insert_eq).
    by rewrite take_insert_ge by lia.
  - set (newcap := (S (len sl) `max` growslice (cap sl) (S (len sl)))%nat).
    set (elems := take (len sl) (drop (off sl) backing)).
    set (grown := (elems ++ v :: replicate (newcap - S (len sl)) None)%list).
    assert (Hel : length elems = len sl).
    { subst elems. rewrite length_take, length_drop. lia. }
    eexists _, _, grown. split; [reflexivity|]. simpl.
    split; [reflexivity|]. split; [reflexivity|].
    split; [rewrite lookup_app_r by done; by rewrite Nat.sub_diag|].
    split.
    + split; simpl; [lia|]. subst grown. rewrite length_app. simpl.
      rewrite length_replicate. lia.
    + rewrite drop_0. subst grown.
      rewrite (take_app_ge elems) by lia. rewrite Hel.
      replace (S (len sl) - len sl)%nat with 1%nat by lia. reflexivity.
Qed.

End Arrays.

(** X17: [push] then [pop].  For an Array whose slice lies within its
    array, [push(v)] returns the new length, the [pop()] that follows
    returns [v] itself, and the Array then has the elements it had before
    the [push], in the same order. *)
Theorem Array_push_pop `{rt : GoRuntime} a sl backing v st :
  objects st !! a = Some (Array sl) ->
  arrays st !! base sl = Some backing ->
  spec.within sl backing ->
  exists n st1 st2 sl2,
    Array_CallMethod a "push" [v] st = Ok (Some n) st1
    /\ objects st1 !! n = Some (Integer (Z.of_nat (len sl) + 1))
    /\ Array_CallMethod a "pop" [] st1 = Ok v st2
    /\ objects st2 !! a = Some (Array sl2)
    /\ len sl2 = len sl
    /\ Slice_elems sl2 st2 = Ok (take (len sl) (drop (off sl) backing)) st2.
Proof.
  intros Ha Hb Hw.
  destruct (append_elems sl v st backing Hb Hw)
    as (sl' & st' & backing' & Happ & Hobj & Hlen' & Harr' & Hw' & Helems').
  assert (Halt : (a < length (objects st'))%nat).
  { rewrite Hobj. by eapply lookup_lt_Some. }
  assert (Hel : length (take (len sl) (drop (off sl) backing)) = len sl).
  { destruct Hw. rewrite length_take, length_drop. lia. }
  set (st1a := set_objects (fun l => <[a := Array sl']> l) st').
  assert (Ha1 : objects st1a !! a = Some (Array sl')) by by apply list_lookup_insert_eq.
  set (st1 := set_objects
                (fun l => (l ++ [Integer (Z.of_nat (len sl'))])%list) st1a).
  assert (Ha1' : objects st1 !! a = Some (Array sl')).
  { simpl. rewrite lookup_app_l by (rewrite length_insert; lia).
    by apply list_lookup_insert_eq. }
  set (sl2 := Slice_slice sl' 0 (len sl' - 1)).
  set (st2 := set_objects (fun l => <[a := Array sl2]> l) st1).
  exists (length (objects st1a)), st1, st2, sl2.
  split; [|split; [|split; [|split; [|split]]]].
  - unfold Array_CallMethod. rewrite streq_true. cbn [Array_push].
    erewrite bind_assoc, bind_Ok by (by apply load_Some).
    cbv beta iota.
    erewrite bind_assoc, bind_Ok by exact Happ.
    erewrite bind_assoc, bind_Ok by reflexivity.
    rewrite bind_ret. fold st1a.
    erewrite bind_Ok by (by apply load_Some). reflexivity.
  - simpl. rewrite lookup_app_r by done. rewrite Nat.sub_diag, Hlen'. simpl.
    f_equal. f_equal. lia.
  - unfold Array_CallMethod. rewrite streq_false by done. rewrite streq_true.
    erewrite bind_Ok by (by apply load_Some). cbv beta iota zeta.
    rewrite Hlen'. change (S (len sl) =? 0)%nat with false. cbv beta iota.
    erewrite bind_Ok.
    2: { eapply Slice_get_elems with
           (elems := (take (len sl) (drop (off sl) backing) ++ [v])%list).
         - unfold Slice_elems, loadArray. autounfold with monad_ops. simpl.
           by rewrite Harr', Helems'.
         - rewrite length_app, Hel, Hlen'. simpl. lia.
         - rewrite Hlen'. lia. }
    replace (Z.to_nat (Z.of_nat (S (len sl)) - 1)) with (len sl) by lia.
    rewrite lookup_total_app_r by lia. rewrite Hel, Nat.sub_diag. simpl.
    subst st2 sl2. rewrite Hlen'. reflexivity.
  - apply list_lookup_insert_eq. simpl. rewrite length_app, length_insert. lia.
  - subst sl2. simpl. rewrite Hlen'. lia.
  - unfold Slice_elems, loadArray. autounfold with monad_ops. simpl.
    rewrite Harr'. f_equal. rewrite Nat.add_0_r, Hlen'.
    replace (S (len sl) - 1 - 0)%nat with (len sl) by lia.
    rewrite Hlen' in Helems'.
    replace (len sl) with (len sl `min` S (len sl))%nat at 1 by lia.
    rewrite <- take_take, Helems'. by apply take_app_length'.
Qed.

(** [a.push(true)] then [a.pop()], after [let a = [1, 2, 3]] *)
Lemma Array_push_pop_witness :
  exists n st1 st2 sl2,
    Array_CallMethod 11%nat "push" [Some TRUE] state_arr = Ok (Some n) st1
    /\ objects st1 !! n = Some (Integer (Z.of_nat 3 + 1))
    /\ Array_CallMethod 11%nat "pop" [] st1 = Ok (Some TRUE) st2
    /\ objects st2 !! 11%nat = Some (Array sl2)
    /\ len sl2 = 3%nat
    /\ Slice_elems sl2 st2 = Ok [Some 12%nat; Some 13%nat; Some 14%nat] st2.
Proof.
  apply (Array_push_pop 11%nat {| base := 3%nat; off := 0; len := 3; cap := 4 |}
           [Some 12%nat; Some 13%nat; Some 14%nat; None] (Some TRUE) state_arr).
  - vm_compute; reflexivity.
  - vm_compute; reflexivity.
  - split; simpl; lia.
Defined.

(** X18: a [push] within the capacity writes into the array that the
    slice shares.  When the slice of the Array [b] is shorter than its
    capacity, as when [b] was made by slicing another Array before its
    end, [b.push(v)] stores [v] in place: every slice [sla] over the same
    array reads [v] at the place that follows the end of [b]. *)
Theorem Array_push_in_place `{rt : GoRuntime} b slb backing v st sla k :
  objects st !! b = Some (Array slb) ->
  arrays st !! base slb = Some backing ->
  spec.within slb backing ->
  (len slb < cap slb)%nat ->
  base sla = base slb ->
  (off sla + k = off slb + len slb)%nat ->
  (k < len sla)%nat ->
  exists n st',
    Array_CallMethod b "push" [v] st = Ok (Some n) st'
    /\ objects st' !! n = Some (Integer (Z.of_nat (len slb) + 1))
    /\ Slice_get sla (Z.of_nat k) st' = Ok v st'.
Proof.
  intros Hb Harr [Hlen Hcap] Hlt Hbase Hoff Hk.
  assert (Hblt : (b < length (objects st))%nat) by by eapply lookup_lt_Some.
  assert (Hbase' : (base slb < length (arrays st))%nat) by by eapply lookup_lt_Some.
  set (slb' := {| base := base slb; off := off slb; len := S (len slb); cap := cap slb |}).
  set (st1 := set_objects (fun l => <[b := Array slb']> l)
                (set_arrays
                   (fun arrs =>
                      <[base slb := <[(off slb + len slb)%nat := v]> backing]> arrs) st)).
  exists (length (objects st1)),
    (set_objects (fun l => (l ++ [Integer (Z.of_nat (len slb'))])%list) st1).
  split; [|split].
  - unfold Array_CallMethod. rewrite streq_true. cbn [Array_push].
    erewrite bind_assoc, bind_Ok by (by apply load_Some).
    cbv beta iota.
    erewrite bind_assoc, bind_Ok.
    2: { unfold append. erewrite bind_Ok by (unfold loadArray; by rewrite Harr).
         destruct (Nat.ltb_spec (len slb) (cap slb)); [|lia]. reflexivity. }
    erewrite bind_assoc, bind_Ok by reflexivity.
    rewrite bind_ret. fold slb' st1.
    erewrite bind_Ok by (apply load_Some; by apply list_lookup_insert_eq).
    reflexivity.
  - simpl. rewrite lookup_app_r by done. rewrite Nat.sub_diag. simpl.
    f_equal. f_equal. lia.
  - eapply Slice_get_eq with (backing := <[(off slb + len slb)%nat := v]> backing).
    + simpl. rewrite Hbase. by apply list_lookup_insert_eq.
    + lia.
    + rewrite Nat2Z.id, Hoff. apply list_lookup_insert_eq. lia.
Qed.

(** After [let a = [1, 2, 3]; let b = a[0:2]], [b.push(true)] makes [a[2]]
    [true]. *)
Lemma Array_push_in_place_witness :
  exists n st',
    Array_CallMethod 17%nat "push" [Some TRUE] state_view = Ok (Some n) st'
    /\ objects st' !! n = Some (Integer (Z.of_nat 2 + 1))
    /\ Slice_get {| base := 3%nat; off := 0; len := 3; cap := 4 |} (Z.of_nat 2) st'
       = Ok (Some TRUE) st'.
Proof.
  apply (Array_push_in_place 17%nat {| base := 3%nat; off := 0; len := 2; cap := 4 |}
           [Some 12%nat; Some 13%nat; Some 14%nat; None] (Some TRUE) state_view
           {| base := 3%nat; off := 0; len := 3; cap := 4 |} 2%nat).
  - vm_compute; reflexivity.
  - vm_compute; reflexivity.
  - split; simpl; lia.
  - simpl; lia.
  - reflexivity.
  - reflexivity.
  - simpl; lia.
Defined.

(** ** The parser *)

(** X19: two infix operators group by their precedence levels, and to
    the left when the levels are equal.  For all operators [op1] and [op2]
    of [parseInfixExpression], [a op1 b op2 c] parses without an error,
    to [(a op1 (b op2 c))] when the level of [op2] is above the level of
    [op1], and to [((a op1 b) op2 c)] otherwise. *)
Theorem infix_operators_group_by_precedence (op1 op2 : string) :
  op1 ∈ binary_operators ->
  op2 ∈ binary_operators ->
  printed ("a " +:+ op1 +:+ " b " +:+ op2 +:+ " c")
  = Some (if parser.precedenceOf op1 <? parser.precedenceOf op2
          then "(a " +:+ op1 +:+ " (b " +:+ op2 +:+ " c))"
          else "((a " +:+ op1 +:+ " b) " +:+ op2 +:+ " c)").
Proof.
  intros H1 H2.
  assert (HF : Forall
                 (fun o1 =>
                    Forall
                      (fun o2 =>
                         printed ("a " +:+ o1 +:+ " b " +:+ o2 +:+ " c")
                         = Some (if parser.precedenceOf o1 <? parser.precedenceOf o2
                                 then "(a " +:+ o1 +:+ " (b " +:+ o2 +:+ " c))"
                                 else "((a " +:+ o1 +:+ " b) " +:+ o2 +:+ " c)"))
                      binary_operators)
                 binary_operators).
  { apply (bool_decide_unpack _). vm_compute. exact I. }
  rewrite Forall_forall in HF. specialize (HF op1 H1).
  rewrite Forall_forall in HF. exact (HF op2 H2).
Qed.

Lemma infix_operators_group_by_precedence_witness :
  printed "a || b && c" = Some "(a || (b && c))".
Proof.
  apply (infix_operators_group_by_precedence "||" "&&").
  - apply (bool_decide_unpack _). vm_compute. exact I.
  - apply (bool_decide_unpack _). vm_compute. exact I.
Defined.
